(** * A model of the task manager of [script.js]

    The file embeds the [TaskManager] class of [script.js]: its task
    array, the form and list handlers, the derived views (filtered list
    and statistics), persistence through [localStorage], and the dark
    mode switch.  Handlers are functions on a [World], the state the
    class reads and writes: the fields of [this], the parts of the page
    the handlers touch, the storage, and a log of the calls that matter
    to an outside observer (storage writes, error notices).  A handler
    ends in an [Outcome]: it returns, or an exception leaves it with
    the world as it is at the [throw].  What the browser decides (how
    much the storage takes, what the HTML parser makes of the markup of
    the list, what [JSON.parse] reads) is a [Platform], a parameter of
    every handler. *)

From Stdlib Require Import ZArith String Ascii DecimalString DecimalPos
  DecimalZ DecimalFacts.
From stdpp Require Import gmap strings list.

Local Open Scope string_scope.
Local Open Scope list_scope.
Local Open Scope Z_scope.

(** ** JavaScript strings *)

(** A JavaScript string is a sequence of UTF-16 code units; [length]
    counts code units, as [String.prototype.length] does. *)
Abbreviation jsstring := (list N).

(** The code units of a literal of the source. *)
Definition js (s : string) : list N :=
  N_of_ascii <$> list_ascii_of_string s.

(** [WhiteSpace] and [LineTerminator] of ECMA-262: the code units that
    [String.prototype.trim] strips. *)
Definition is_white_space (c : N) : bool :=
  ((9 <=? c) && (c <=? 13) || (c =? 32) || (c =? 160) || (c =? 5760)
   || (8192 <=? c) && (c <=? 8202) || (c =? 8232) || (c =? 8233)
   || (c =? 8239) || (c =? 8287) || (c =? 12288) || (c =? 65279))%N.

Fixpoint trimStart (s : list N) : list N :=
  match s with
  | c :: s' => if is_white_space c then trimStart s' else s
  | [] => []
  end.

Definition trimEnd (s : list N) : list N :=
  reverse (trimStart (reverse s)).

Definition trim (s : list N) : list N := trimEnd (trimStart s).

(** ** Tasks *)

(** The object literal built in [handleAddTask].  [id] is a reading of
    [Date.now()], an integer number of milliseconds. *)
Record Task := mkTask {
  id : Z;
  text : list N;
  completed : bool;
  createdAt : list N
}.

Global Instance Task_eq_dec : EqDecision Task.
Proof. solve_decision. Defined.

(** The integers every Number holds exactly, [Number.MIN_SAFE_INTEGER]
    to [Number.MAX_SAFE_INTEGER]; every reading of [Date.now()] is one
    of them. *)
Definition safe_integer (z : Z) : Prop :=
  -9007199254740991 ≤ z ≤ 9007199254740991.

Global Instance safe_integer_dec z : Decision (safe_integer z).
Proof. unfold safe_integer. apply _. Defined.

(** ** The platform *)

(** What [JSON.parse] makes of a text: it throws a [SyntaxError], it
    returns an array of tasks, or it returns another value (a number,
    [null], an object, an array of something else), which [tasks] has
    no type for. *)
Inductive Parsed :=
  | SyntaxError
  | ParsedTasks (ts : list Task)
  | ParsedOther.

(** The decisions the browser takes for the application.
    - [JSON_parse]: [JSON.parse] on a stored text.
    - [Number_toString_large]: the digits [Number::toString] gives for
      a number that is not a safe integer (rounded to 17 significant
      digits, in exponent form from 1e21 on).
    - [listeners_attach]: whether [attachTaskEventListeners] finds a
      checkbox and a delete button in every element of class
      [task-item] that the HTML parser builds from the markup
      [createTaskElement] writes for these tasks.  The text of a task
      goes into two [aria-label] attributes as it is, so a text can
      close the attribute and the tag and bring elements of its own.
    - [storage_accepts]: whether [localStorage.setItem] takes the value
      under the key, given what the storage holds; when it does not,
      [setItem] throws (the quota is exceeded, or it is zero, as in
      some private windows). *)
Record Platform := mkPlatform {
  JSON_parse : list N → Parsed;
  Number_toString_large : Z → list N;
  listeners_attach : list Task → bool;
  storage_accepts : gmap string (list N) → string → list N → bool
}.

(** ** [JSON.stringify] on an array of tasks *)

Definition hex_digit (n : N) : N :=
  (if n <? 10 then 48 + n else 87 + n)%N.

(** [\uXXXX] with four lower-case hexadecimal digits. *)
Definition unicode_escape (c : N) : list N :=
  [92; 117; hex_digit (c / 4096 mod 16); hex_digit (c / 256 mod 16);
   hex_digit (c / 16 mod 16); hex_digit (c mod 16)]%N.

Definition is_leading_surrogate (c : N) : bool :=
  ((55296 <=? c) && (c <=? 56319))%N.
Definition is_trailing_surrogate (c : N) : bool :=
  ((56320 <=? c) && (c <=? 57343))%N.

(** The body of [QuoteJSONString]: the two-character escapes, [\u00xx]
    for the other control characters, [\udxxx] for a surrogate that is
    not part of a pair, every other code unit as it is. *)
Fixpoint quote_body (s : list N) : list N :=
  match s with
  | [] => []
  | c :: s' =>
      if is_leading_surrogate c then
        match s' with
        | d :: s'' =>
            if is_trailing_surrogate d then c :: d :: quote_body s''
            else unicode_escape c ++ quote_body s'
        | [] => unicode_escape c
        end
      else if is_trailing_surrogate c then unicode_escape c ++ quote_body s'
      else if (c =? 8)%N then js "\b" ++ quote_body s'
      else if (c =? 9)%N then js "\t" ++ quote_body s'
      else if (c =? 10)%N then js "\n" ++ quote_body s'
      else if (c =? 12)%N then js "\f" ++ quote_body s'
      else if (c =? 13)%N then js "\r" ++ quote_body s'
      else if (c =? 34)%N then [92; 34]%N ++ quote_body s'
      else if (c =? 92)%N then [92; 92]%N ++ quote_body s'
      else if (c <? 32)%N then unicode_escape c ++ quote_body s'
      else c :: quote_body s'
  end.

Definition QuoteJSONString (s : list N) : list N :=
  [34%N] ++ quote_body s ++ [34%N].

(** The decimal digits of an integer, with a minus sign in front when
    it is negative. *)
Definition decimal (z : Z) : list N :=
  js (NilZero.string_of_int (Z.to_int z)).

(** [Number::toString] on an integer: the decimal digits of a safe
    integer; beyond, what the platform prints. *)
Definition Number_toString (P : Platform) (z : Z) : list N :=
  if decide (safe_integer z) then decimal z else Number_toString_large P z.

Definition Boolean_toString (b : bool) : list N :=
  if b then js "true" else js "false".

(** One property of an object: the quoted key, a colon, the value. *)
Definition json_property (key : string) (value : list N) : list N :=
  QuoteJSONString (js key) ++ js ":" ++ value.

Fixpoint join_comma (parts : list (list N)) : list N :=
  match parts with
  | [] => []
  | [p] => p
  | p :: rest => p ++ js "," ++ join_comma rest
  end.

(** [SerializeJSONObject] on a task: its own properties in creation
    order, without a gap. *)
Definition stringify_task (P : Platform) (t : Task) : list N :=
  js "{" ++
  join_comma [json_property "id" (Number_toString P (id t));
              json_property "text" (QuoteJSONString (text t));
              json_property "completed" (Boolean_toString (completed t));
              json_property "createdAt" (QuoteJSONString (createdAt t))]
  ++ js "}".

(** [SerializeJSONArray]. *)
Definition JSON_stringify (P : Platform) (ts : list Task) : list N :=
  js "[" ++ join_comma (stringify_task P <$> ts) ++ js "]".

(** ** [JSON.parse] *)

(** The grammar of JSON (ECMA-404), which [JSON.parse] follows: a text
    outside it makes [JSON.parse] throw.  A number is kept as it is
    written: sign, integer digits, fraction digits, exponent. *)
Record Numeral := mkNumeral {
  minus : bool;
  integer : Decimal.uint;
  fraction : Decimal.uint;
  exponent_minus : bool;
  exponent : Decimal.uint
}.

#[local] Set Warnings "-register-all".
Inductive JValue :=
  | JNull
  | JBool (b : bool)
  | JNumber (n : Numeral)
  | JString (s : list N)
  | JArray (elements : list JValue)
  | JObject (members : list (list N * JValue)).

(** The white space of JSON: space, tab, line feed, carriage return. *)
Definition is_json_space (c : N) : bool :=
  ((c =? 32) || (c =? 9) || (c =? 10) || (c =? 13))%N.

Fixpoint skip_space (s : list N) : list N :=
  match s with
  | c :: s' => if is_json_space c then skip_space s' else s
  | [] => []
  end.

(** The literal [lit] taken from the front of [s]. *)
Fixpoint expect (lit s : list N) : option (list N) :=
  match lit, s with
  | [], _ => Some s
  | c :: lit', d :: s' => if (c =? d)%N then expect lit' s' else None
  | _ :: _, [] => None
  end.

Definition hex_value (c : N) : option N :=
  (if (48 <=? c) && (c <=? 57) then Some (c - 48)
   else if (97 <=? c) && (c <=? 102) then Some (c - 87)
   else if (65 <=? c) && (c <=? 70) then Some (c - 55)
   else None)%N.

Definition read_hex4 (h1 h2 h3 h4 : N) : option N :=
  a ← hex_value h1; b ← hex_value h2; c ← hex_value h3; d ← hex_value h4;
  Some (4096 * a + 256 * b + 16 * c + d)%N.

(** The character a two-character escape stands for. *)
Definition unescape (e : N) : option N :=
  (if e =? 98 then Some 8 else if e =? 116 then Some 9
   else if e =? 110 then Some 10 else if e =? 102 then Some 12
   else if e =? 114 then Some 13 else if e =? 34 then Some 34
   else if e =? 92 then Some 92 else if e =? 47 then Some 47
   else None)%N.

(** A string, read from behind its opening quote up to the closing
    one.  A control character has to be escaped. *)
Fixpoint parse_string (s : list N) : option (list N * list N) :=
  match s with
  | [] => None
  | c :: s1 =>
      if (c =? 34)%N then Some ([], s1)
      else if (c =? 92)%N then
        match s1 with
        | [] => None
        | e :: s2 =>
            if (e =? 117)%N then
              match s2 with
              | h1 :: h2 :: h3 :: h4 :: s3 =>
                  match read_hex4 h1 h2 h3 h4, parse_string s3 with
                  | Some x, Some (str, rest) => Some (x :: str, rest)
                  | _, _ => None
                  end
              | _ => None
              end
            else
              match unescape e, parse_string s2 with
              | Some x, Some (str, rest) => Some (x :: str, rest)
              | _, _ => None
              end
        end
      else if (c <? 32)%N then None
      else
        match parse_string s1 with
        | Some (str, rest) => Some (c :: str, rest)
        | None => None
        end
  end.

Definition digit_of (c : N) : option (Decimal.uint → Decimal.uint) :=
  (if c =? 48 then Some Decimal.D0 else if c =? 49 then Some Decimal.D1
   else if c =? 50 then Some Decimal.D2 else if c =? 51 then Some Decimal.D3
   else if c =? 52 then Some Decimal.D4 else if c =? 53 then Some Decimal.D5
   else if c =? 54 then Some Decimal.D6 else if c =? 55 then Some Decimal.D7
   else if c =? 56 then Some Decimal.D8 else if c =? 57 then Some Decimal.D9
   else None)%N.

(** The decimal digits in front of [s]. *)
Fixpoint read_uint (s : list N) : Decimal.uint * list N :=
  match s with
  | [] => (Decimal.Nil, [])
  | c :: s' =>
      match digit_of c with
      | Some digit => let '(d, rest) := read_uint s' in (digit d, rest)
      | None => (Decimal.Nil, s)
      end
  end.

(** The exponent part of a number, if there is one. *)
Definition parse_exponent (neg : bool) (i f : Decimal.uint) (s : list N)
    : option (Numeral * list N) :=
  match s with
  | c :: r =>
      if ((c =? 101) || (c =? 69))%N then
        let '(eneg, r') :=
          match r with
          | x :: r'' =>
              if (x =? 45)%N then (true, r'')
              else if (x =? 43)%N then (false, r'')
              else (false, r)
          | [] => (false, [])
          end in
        match read_uint r' with
        | (Decimal.Nil, _) => None
        | (e, rest) => Some (mkNumeral neg i f eneg e, rest)
        end
      else Some (mkNumeral neg i f false Decimal.Nil, s)
  | [] => Some (mkNumeral neg i f false Decimal.Nil, [])
  end.

(** The fraction part, if there is one: a point and at least one
    digit. *)
Definition parse_fraction (neg : bool) (i : Decimal.uint) (s : list N)
    : option (Numeral * list N) :=
  match s with
  | c :: r =>
      if (c =? 46)%N then
        match read_uint r with
        | (Decimal.Nil, _) => None
        | (f, rest) => parse_exponent neg i f rest
        end
      else parse_exponent neg i Decimal.Nil s
  | [] => parse_exponent neg i Decimal.Nil []
  end.

(** A number: an optional minus sign, then a single zero or digits
    that start with another digit than zero, then the optional
    parts. *)
Definition parse_number (s : list N) : option (Numeral * list N) :=
  let '(neg, s1) :=
    match s with
    | c :: r => if (c =? 45)%N then (true, r) else (false, s)
    | [] => (false, [])
    end in
  match s1 with
  | c :: r =>
      if (c =? 48)%N then parse_fraction neg (Decimal.D0 Decimal.Nil) r
      else
        match read_uint s1 with
        | (Decimal.Nil, _) => None
        | (i, rest) => parse_fraction neg i rest
        end
  | [] => None
  end.

(** A member of an object, read from its key on: a string, a colon,
    a value, which [value] reads. *)
Definition parse_member (value : list N → option (JValue * list N))
    (s : list N) : option ((list N * JValue) * list N) :=
  match s with
  | c :: s1 =>
      if (c =? 34)%N then
        '(key, r1) ← parse_string s1;
        match skip_space r1 with
        | d :: r2 =>
            if (d =? 58)%N then
              '(v, r3) ← value (skip_space r2); Some ((key, v), r3)
            else None
        | [] => None
        end
      else None
  | [] => None
  end.

(** A value, read from its first character on.  [parse_elements] and
    [parse_members] read what follows an element of an array and a
    member of an object: a comma and the next one, or the closing
    bracket.  Every nested call reads a shorter text, so that a [fuel]
    above the length of the text is never used up. *)
Fixpoint parse_value (fuel : nat) (s : list N)
    : option (JValue * list N) :=
  match fuel with
  | O => None
  | S fuel =>
      match s with
      | [] => None
      | c :: s1 =>
          if (c =? 34)%N then
            '(str, rest) ← parse_string s1; Some (JString str, rest)
          else if (c =? 91)%N then
            match skip_space s1 with
            | d :: s3 =>
                if (d =? 93)%N then Some (JArray [], s3)
                else
                  '(v, rest) ← parse_value fuel (skip_space s1);
                  '(vs, rest') ← parse_elements fuel (skip_space rest);
                  Some (JArray (v :: vs), rest')
            | [] => None
            end
          else if (c =? 123)%N then
            match skip_space s1 with
            | d :: s3 =>
                if (d =? 125)%N then Some (JObject [], s3)
                else
                  '(m, rest) ← parse_member (parse_value fuel)
                                  (skip_space s1);
                  '(ms, rest') ← parse_members fuel (skip_space rest);
                  Some (JObject (m :: ms), rest')
            | [] => None
            end
          else if (c =? 116)%N then
            rest ← expect (js "true") s; Some (JBool true, rest)
          else if (c =? 102)%N then
            rest ← expect (js "false") s; Some (JBool false, rest)
          else if (c =? 110)%N then
            rest ← expect (js "null") s; Some (JNull, rest)
          else
            '(n, rest) ← parse_number s; Some (JNumber n, rest)
      end
  end
with parse_elements (fuel : nat) (s : list N)
    : option (list JValue * list N) :=
  match fuel with
  | O => None
  | S fuel =>
      match s with
      | [] => None
      | c :: s1 =>
          if (c =? 93)%N then Some ([], s1)
          else if (c =? 44)%N then
            '(v, rest) ← parse_value fuel (skip_space s1);
            '(vs, rest') ← parse_elements fuel (skip_space rest);
            Some (v :: vs, rest')
          else None
      end
  end
with parse_members (fuel : nat) (s : list N)
    : option (list (list N * JValue) * list N) :=
  match fuel with
  | O => None
  | S fuel =>
      match s with
      | [] => None
      | c :: s1 =>
          if (c =? 125)%N then Some ([], s1)
          else if (c =? 44)%N then
            '(m, rest) ← parse_member (parse_value fuel) (skip_space s1);
            '(ms, rest') ← parse_members fuel (skip_space rest);
            Some (m :: ms, rest')
          else None
      end
  end.

(** The value of a JSON text: one value between white space, and
    nothing else.  [None] is the [SyntaxError]. *)
Definition parse_text (s : list N) : option JValue :=
  match parse_value (S (length s)) (skip_space s) with
  | Some (v, rest) => if decide (skip_space rest = []) then Some v else None
  | None => None
  end.

(** The integer a number stands for when it is written as one: no
    fraction, no exponent, and not the negative zero. *)
Definition numeral_integer (n : Numeral) : option Z :=
  match fraction n, exponent n with
  | Decimal.Nil, Decimal.Nil =>
      let z := Z.of_uint (integer n) in
      if minus n then (if decide (z = 0) then None else Some (- z))
      else Some z
  | _, _ => None
  end.

(** The task a value is: an object with the four properties of a task
    in the order [handleAddTask] creates them, the id a safe
    integer. *)
Definition as_task (v : JValue) : option Task :=
  match v with
  | JObject [(k1, JNumber n); (k2, JString x); (k3, JBool c);
             (k4, JString d)] =>
      if decide (k1 = js "id" ∧ k2 = js "text" ∧ k3 = js "completed"
                 ∧ k4 = js "createdAt") then
        z ← numeral_integer n;
        if decide (safe_integer z) then Some (mkTask z x c d) else None
      else None
  | _ => None
  end.

Definition as_tasks (v : JValue) : option (list Task) :=
  match v with
  | JArray l => mapM as_task l
  | _ => None
  end.

(** [JSON.parse] by the grammar.  A value that is an array of tasks
    written as above is that array; every other value is
    [ParsedOther], also an array of tasks written otherwise (an id
    with an exponent, the properties in another order), which this
    model does not follow. *)
Definition parse_by_grammar (s : list N) : Parsed :=
  match parse_text s with
  | None => SyntaxError
  | Some v =>
      match as_tasks v with
      | Some ts => ParsedTasks ts
      | None => ParsedOther
      end
  end.

(** ** The state of the application *)

(** Calls that leave the application and are visible from outside: the
    calls of [localStorage.setItem] (whether the storage takes the
    value or not), the notices shown by [showError] (with the timer
    each one starts), and the lines sent to [console.error].  A
    handler adds the calls it makes to the front of [trace]. *)
Inductive Effect :=
  | SetItem (key : string) (value : list N)
  | ShowError (message : string)
  | SetTimeout (ms : Z)
  | ConsoleError (message : string).

Global Instance Effect_eq_dec : EqDecision Effect.
Proof. solve_decision. Defined.

(** What [renderTasks] assigns to the [innerHTML] of [tasksContainer]:
    the empty-state paragraph with its message, or the markup
    [createTaskElement] writes for each of [items], joined. *)
Inductive Rendered :=
  | EmptyState (message : list N)
  | TaskItems (items : list Task).

(** The object returned by [calculateStats]. *)
Module Stats.
Record t := mk {
  total : Z;
  completed : Z;
  remaining : Z
}.
End Stats.

(** [this.tasks] and [this.currentFilter], the page elements bound in
    the constructor, the storage and the call log.  [currentFilter] is
    [None] when it holds [undefined] (a click target without a
    [data-filter] attribute). *)
Record World := mkWorld {
  tasks : list Task;
  currentFilter : option (list N);
  taskInput : list N;
  errorMessage : string;
  errorMessage_show : bool;
  tasksContainer : Rendered;
  statsEls : Stats.t;
  clearCompletedBtn_disabled : bool;
  filterButtons : list (option (list N) * bool);
  rootClasses : gset string;
  darkModeToggle_title : string;
  localStorage : gmap string (list N);
  trace : list Effect
}.

Definition set_tasks (v : list Task) (w : World) : World :=
  mkWorld v (currentFilter w) (taskInput w) (errorMessage w)
    (errorMessage_show w) (tasksContainer w) (statsEls w)
    (clearCompletedBtn_disabled w) (filterButtons w) (rootClasses w)
    (darkModeToggle_title w) (localStorage w) (trace w).

Definition set_currentFilter (v : option (list N)) (w : World) : World :=
  mkWorld (tasks w) v (taskInput w) (errorMessage w)
    (errorMessage_show w) (tasksContainer w) (statsEls w)
    (clearCompletedBtn_disabled w) (filterButtons w) (rootClasses w)
    (darkModeToggle_title w) (localStorage w) (trace w).

Definition set_taskInput (v : list N) (w : World) : World :=
  mkWorld (tasks w) (currentFilter w) v (errorMessage w)
    (errorMessage_show w) (tasksContainer w) (statsEls w)
    (clearCompletedBtn_disabled w) (filterButtons w) (rootClasses w)
    (darkModeToggle_title w) (localStorage w) (trace w).

Definition set_error (msg : string) (shown : bool) (w : World) : World :=
  mkWorld (tasks w) (currentFilter w) (taskInput w) msg shown
    (tasksContainer w) (statsEls w)
    (clearCompletedBtn_disabled w) (filterButtons w) (rootClasses w)
    (darkModeToggle_title w) (localStorage w) (trace w).

Definition set_tasksContainer (v : Rendered) (w : World) : World :=
  mkWorld (tasks w) (currentFilter w) (taskInput w) (errorMessage w)
    (errorMessage_show w) v (statsEls w)
    (clearCompletedBtn_disabled w) (filterButtons w) (rootClasses w)
    (darkModeToggle_title w) (localStorage w) (trace w).

Definition set_stats (v : Stats.t) (disabled : bool) (w : World) : World :=
  mkWorld (tasks w) (currentFilter w) (taskInput w) (errorMessage w)
    (errorMessage_show w) (tasksContainer w) v disabled
    (filterButtons w) (rootClasses w)
    (darkModeToggle_title w) (localStorage w) (trace w).

Definition set_filterButtons (v : list (option (list N) * bool))
    (w : World) : World :=
  mkWorld (tasks w) (currentFilter w) (taskInput w) (errorMessage w)
    (errorMessage_show w) (tasksContainer w) (statsEls w)
    (clearCompletedBtn_disabled w) v (rootClasses w)
    (darkModeToggle_title w) (localStorage w) (trace w).

Definition set_theme (classes : gset string) (title : string)
    (w : World) : World :=
  mkWorld (tasks w) (currentFilter w) (taskInput w) (errorMessage w)
    (errorMessage_show w) (tasksContainer w) (statsEls w)
    (clearCompletedBtn_disabled w) (filterButtons w) classes title
    (localStorage w) (trace w).

Definition set_localStorage (v : gmap string (list N)) (w : World) : World :=
  mkWorld (tasks w) (currentFilter w) (taskInput w) (errorMessage w)
    (errorMessage_show w) (tasksContainer w) (statsEls w)
    (clearCompletedBtn_disabled w) (filterButtons w) (rootClasses w)
    (darkModeToggle_title w) v (trace w).

Definition log (e : Effect) (w : World) : World :=
  mkWorld (tasks w) (currentFilter w) (taskInput w) (errorMessage w)
    (errorMessage_show w) (tasksContainer w) (statsEls w)
    (clearCompletedBtn_disabled w) (filterButtons w) (rootClasses w)
    (darkModeToggle_title w) (localStorage w) (e :: trace w).

(** ** Outcomes *)

(** The values a handler could return.  The methods of the class that
    change the state have no [return] with a value: they return
    [undefined]. *)
Inductive Value :=
  | undefined
  | boolean (b : bool)
  | number (z : Z).

(** The exceptions of the model: the [TypeError] of a call on [null],
    and the [DOMException] of a storage that does not take a value. *)
Inductive Error :=
  | TypeError
  | StorageError.

(** How a call ends: it returns a value, or it throws; either way with
    the world as the call left it. *)
Inductive Outcome :=
  | Returned (v : Value) (w : World)
  | Threw (e : Error) (w : World).

Definition world_of (o : Outcome) : World :=
  match o with
  | Returned _ w => w
  | Threw _ w => w
  end.

(** The end of a method without a [return] statement. *)
Definition ret (w : World) : Outcome := Returned undefined w.

(** Sequence: the statements after a call run when the call returns. *)
Definition and_then (o : Outcome) (k : World → Outcome) : Outcome :=
  match o with
  | Returned _ w => k w
  | Threw e w => Threw e w
  end.

Notation "'let!' w ':=' o 'in' k" := (and_then o (λ w, k))
  (at level 10, w name, o at level 100, k at level 200).

(** The value a call returned, if it returned. *)
Definition result (o : Outcome) : option Value :=
  match o with
  | Returned v _ => Some v
  | Threw _ _ => None
  end.

(** Whether a call threw. *)
Definition threw (o : Outcome) : bool :=
  match o with
  | Returned _ _ => false
  | Threw _ _ => true
  end.

(** ** The storage *)

(** [localStorage.setItem(key, value)]: the value is stored, or the
    call throws and the storage stays as it is. *)
Definition setItem (P : Platform) (key : string) (value : list N)
    (w : World) : Outcome :=
  let w := log (SetItem key value) w in
  if storage_accepts P (localStorage w) key value then
    ret (set_localStorage (<[key := value]> (localStorage w)) w)
  else Threw StorageError w.

(** [localStorage.getItem(key)]: [None] is [null].  Reading does not
    throw here: a page that is denied the storage altogether is outside
    this model. *)
Definition getItem (key : string) (w : World) : option (list N) :=
  localStorage w !! key.

(** Truthiness of a string or [null]/[undefined]: only the empty string
    and the absent value are falsy. *)
Definition truthy (v : option (list N)) : bool :=
  match v with
  | Some (_ :: _) => true
  | _ => false
  end.

(** ** Views: [getFilteredTasks] and [calculateStats] *)

(** The [switch] of [getFilteredTasks]: the two filtering cases, and the
    whole array for ["all"] and for every other value. *)
Definition getFilteredTasks (w : World) : list Task :=
  match currentFilter w with
  | Some f =>
      if decide (f = js "completed") then
        filter (λ t, completed t = true) (tasks w)
      else if decide (f = js "pending") then
        filter (λ t, completed t = false) (tasks w)
      else tasks w
  | None => tasks w
  end.

Definition calculateStats (w : World) : Stats.t :=
  let total := Z.of_nat (length (tasks w)) in
  let completed :=
    Z.of_nat (length (filter (λ t, completed t = true) (tasks w))) in
  let remaining := total - completed in
  Stats.mk total completed remaining.

(** ** Display *)

Definition showError (message : string) (w : World) : World :=
  log (SetTimeout 5000) (log (ShowError message) (set_error message true w)).

Definition clearError (w : World) : World := set_error "" false w.

(** The text of [currentFilter] inside the template literal of
    [renderTasks]. *)
Definition filter_text (f : option (list N)) : list N :=
  match f with
  | Some s => s
  | None => js "undefined"
  end.

(** [attachTaskEventListeners]: for each element of class [task-item]
    in the container, [querySelector] looks for the checkbox and the
    delete button and [addEventListener] is called on the result; on
    [null] this call throws a [TypeError].  The empty-state markup has
    no such element. *)
Definition attachTaskEventListeners (P : Platform) (w : World) : Outcome :=
  match tasksContainer w with
  | TaskItems items =>
      if listeners_attach P items then ret w else Threw TypeError w
  | EmptyState _ => ret w
  end.

(** [renderTasks]: the empty-state message and an early return, or the
    markup of the filtered view and then the listeners. *)
Definition renderTasks (P : Platform) (w : World) : Outcome :=
  let filteredTasks := getFilteredTasks w in
  if decide (length filteredTasks = 0%nat) then
    let emptyMessage : list N :=
      if decide (currentFilter w = Some (js "all"))
      then js "No tasks yet. Add one to get started!"
      else (js "No " ++ filter_text (currentFilter w) ++ js " tasks.")%list in
    ret (set_tasksContainer (EmptyState emptyMessage) w)
  else
    let w := set_tasksContainer (TaskItems filteredTasks) w in
    attachTaskEventListeners P w.

Definition updateStats (w : World) : World :=
  let s := calculateStats w in
  set_stats s (bool_decide (Stats.completed s = 0)) w.

(** [render]: [updateStats] runs when [renderTasks] has returned. *)
Definition render (P : Platform) (w : World) : Outcome :=
  let! w := renderTasks P w in
  ret (updateStats w).

(** ** Persistence of the tasks *)

(** [saveTasks]: the [try] block calls [setItem]; the [catch] block
    logs the exception and lets the caller go on. *)
Definition saveTasks (P : Platform) (w : World) : World :=
  match setItem P "tasks" (JSON_stringify P (tasks w)) w with
  | Returned _ w' => w'
  | Threw _ w' => log (ConsoleError "Error saving tasks:") w'
  end.

(** [loadTasks]: the empty array when nothing is stored (or the empty
    string) and, through the [catch] block, when [JSON.parse] throws;
    otherwise whatever [JSON.parse] returns: the array of tasks, or
    another value ([None]). *)
Definition loadTasks (P : Platform) (w : World)
    : option (list Task) * World :=
  let saved := getItem "tasks" w in
  if truthy saved then
    match JSON_parse P (default [] saved) with
    | ParsedTasks ts => (Some ts, w)
    | ParsedOther => (None, w)
    | SyntaxError => (Some [], log (ConsoleError "Error loading tasks:") w)
    end
  else (Some [], w).

(** ** Handlers of the task list *)

Definition msg_empty : string := "Please enter a task description".
Definition msg_too_long : string :=
  "Task description must be 200 characters or less".

(** [handleAddTask].  [now] is the value of [Date.now()] and [iso] the
    value of [new Date().toISOString()] at the call.  The calls on the
    event and on the focus ([preventDefault], [focus]) change nothing
    that is modelled.  The input is cleared when [render] has
    returned. *)
Definition handleAddTask (P : Platform) (now : Z) (iso : list N)
    (w : World) : Outcome :=
  let taskText := trim (taskInput w) in
  if negb (truthy (Some taskText)) then ret (showError msg_empty w)
  else if (200 <? length taskText)%nat then ret (showError msg_too_long w)
  else
    let task := mkTask now taskText false iso in
    let w := set_tasks (task :: tasks w) w in
    let w := saveTasks P w in
    let! w := render P w in
    ret (set_taskInput [] w).

(** [handleToggleComplete].  [find] returns the first task object with
    the id, the one stored at index [i] of the array; assigning to its
    [completed] field changes the array at that index. *)
Definition handleToggleComplete (P : Platform) (taskId : Z)
    (w : World) : Outcome :=
  match list_find (λ t, id t = taskId) (tasks w) with
  | Some (i, task) =>
      let task' :=
        mkTask (id task) (text task) (negb (completed task))
          (createdAt task) in
      let w := set_tasks (<[i := task']> (tasks w)) w in
      let w := saveTasks P w in
      render P w
  | None => ret w
  end.

Definition handleDeleteTask (P : Platform) (taskId : Z)
    (w : World) : Outcome :=
  let w := set_tasks (filter (λ t, id t ≠ taskId) (tasks w)) w in
  let w := saveTasks P w in
  render P w.

(** [handleClearCompleted]; [confirmed] is the answer to [confirm]. *)
Definition handleClearCompleted (P : Platform) (confirmed : bool)
    (w : World) : Outcome :=
  if confirmed then
    let w := set_tasks (filter (λ t, completed t = false) (tasks w)) w in
    let w := saveTasks P w in
    render P w
  else ret w.

(** [handleFilterChange]; [filterValue] is [e.target.dataset.filter]. *)
Definition handleFilterChange (P : Platform)
    (filterValue : option (list N)) (w : World) : Outcome :=
  let w := set_currentFilter filterValue w in
  let w :=
    set_filterButtons
      ((λ btn, (btn.1, bool_decide (btn.1 = filterValue)))
         <$> filterButtons w) w in
  render P w.

(** ** Dark mode *)

(** [enableDarkMode] and [disableDarkMode]: the classes of the root
    element, the stored theme, and the label of the toggle (its
    [aria-label] and [title] carry the same text).  The write is not
    inside a [try]: when it throws, the label is not reached. *)
Definition enableDarkMode (P : Platform) (w : World) : Outcome :=
  let w :=
    set_theme (({[ "dark-mode" ]} ∪ rootClasses w) ∖ {[ "light-mode" ]})
      (darkModeToggle_title w) w in
  let! w := setItem P "theme" (js "dark") w in
  ret (set_theme (rootClasses w) "Toggle light mode" w).

Definition disableDarkMode (P : Platform) (w : World) : Outcome :=
  let w :=
    set_theme (({[ "light-mode" ]} ∪ rootClasses w) ∖ {[ "dark-mode" ]})
      (darkModeToggle_title w) w in
  let! w := setItem P "theme" (js "light") w in
  ret (set_theme (rootClasses w) "Toggle dark mode" w).

(** [initDarkMode]; [prefersDark] is the result of the media query. *)
Definition initDarkMode (P : Platform) (prefersDark : bool)
    (w : World) : Outcome :=
  let savedTheme := getItem "theme" w in
  if bool_decide (savedTheme = Some (js "dark"))
     || (negb (truthy savedTheme) && prefersDark)
  then enableDarkMode P w
  else disableDarkMode P w.

Definition handleDarkModeToggle (P : Platform) (w : World) : Outcome :=
  let isDarkMode := bool_decide ("dark-mode" ∈ rootClasses w) in
  if isDarkMode then disableDarkMode P w else enableDarkMode P w.

(** ** Start-up and events *)

(** [init]; attaching the listeners changes nothing in the state. *)
Definition init (P : Platform) (prefersDark : bool) (w : World) : Outcome :=
  let! w := initDarkMode P prefersDark w in
  render P w.

(** How the constructor ends: with the outcome of [init] on the tasks
    loaded, or, when [loadTasks] returns something else than an array
    of tasks, in a state this model does not follow further than
    [initDarkMode] (the first [render] then runs on that value). *)
Inductive Start :=
  | Started (o : Outcome)
  | Unfollowed (w : World).

Definition start_world (s : Start) : World :=
  match s with
  | Started o => world_of o
  | Unfollowed w => w
  end.

(** The constructor, run on the world the page is loaded in. *)
Definition new_TaskManager (P : Platform) (prefersDark : bool)
    (w : World) : Start :=
  let '(loaded, w) := loadTasks P w in
  match loaded with
  | Some ts =>
      let w := set_tasks ts w in
      let w := set_currentFilter (Some (js "all")) w in
      Started (init P prefersDark w)
  | None =>
      let w := set_currentFilter (Some (js "all")) w in
      match initDarkMode P prefersDark w with
      | Returned _ w => Unfollowed w
      | Threw e w => Started (Threw e w)
      end
  end.

(** The events the listeners of [attachEventListeners] and
    [attachTaskEventListeners] wait for, with what the environment
    supplies at each: the text typed, the clock, the answer to the
    confirmation, the filter of the button. *)
Inductive Event :=
  | EvInput (value : list N)
  | EvSubmit (now : Z) (iso : list N)
  | EvToggle (taskId : Z)
  | EvDelete (taskId : Z)
  | EvClearCompleted (confirmed : bool)
  | EvFilter (filterValue : option (list N))
  | EvDarkModeToggle
  | EvErrorTimeout.

(** The listener bodies.  A disabled button receives no click, so the
    clear button reaches its handler only while it is enabled. *)
Definition dispatch (P : Platform) (ev : Event) (w : World) : Outcome :=
  match ev with
  | EvInput value => ret (clearError (set_taskInput value w))
  | EvSubmit now iso =>
      let taskText := trim (taskInput w) in
      if negb (truthy (Some taskText)) then ret (showError msg_empty w)
      else handleAddTask P now iso w
  | EvToggle taskId => handleToggleComplete P taskId w
  | EvDelete taskId => handleDeleteTask P taskId w
  | EvClearCompleted confirmed =>
      if clearCompletedBtn_disabled w then ret w
      else handleClearCompleted P confirmed w
  | EvFilter filterValue => handleFilterChange P filterValue w
  | EvDarkModeToggle => handleDarkModeToggle P w
  | EvErrorTimeout => ret (clearError w)
  end.

(** A run of events.  An exception ends the listener it is thrown in
    and nothing else: the next event finds the world as the exception
    left it. *)
Definition run (P : Platform) (evs : list Event) (w : World) : World :=
  foldl (λ w ev, world_of (dispatch P ev w)) w evs.

(** ** Vocabulary of the specification *)

(** The two kinds of [ValidationError] of [addTask].  The handler does
    not return them: it shows the matching notice and returns early. *)
Inductive ValidationError := empty | too_long.

Definition error_message (e : ValidationError) : string :=
  match e with
  | empty => msg_empty
  | too_long => msg_too_long
  end.

(** A call that takes [w] to [w'] fails with [e] when the calls it made
    are those of [showError] on the notice of [e], and no other. *)
Definition fails_with (e : ValidationError) (w w' : World) : Prop :=
  trace w' = SetTimeout 5000 :: ShowError (error_message e) :: trace w.

(** A call that takes [w] to [w'] has called [saveTasks] on the array
    of [w'], and nothing else that is seen from outside: [setItem] was
    called with the serialised array; the storage then holds it, or
    has refused it, in which case the storage is as before and the
    exception is on the console. *)
Definition save_called (P : Platform) (w w' : World) : Prop :=
  let text := JSON_stringify P (tasks w') in
  if storage_accepts P (localStorage w) "tasks" text then
    trace w' = SetItem "tasks" text :: trace w
    ∧ localStorage w' = <["tasks" := text]> (localStorage w)
  else
    trace w' = ConsoleError "Error saving tasks:" :: SetItem "tasks" text
               :: trace w
    ∧ localStorage w' = localStorage w.

(** The task with its [completed] field negated. *)
Definition toggled (t : Task) : Task :=
  mkTask (id t) (text t) (negb (completed t)) (createdAt t).

(** The values [setItem] was called with on a key, newest first. *)
Definition writes_to (key : string) (tr : list Effect) : list (list N) :=
  omap (λ e, match e with
             | SetItem k v => if decide (k = key) then Some v else None
             | _ => None
             end) tr.

(** The input holds a text [handleAddTask] accepts. *)
Definition input_accepted (w : World) : Prop :=
  trim (taskInput w) ≠ [] ∧ (length (trim (taskInput w)) ≤ 200)%nat.

Global Instance input_accepted_dec w : Decision (input_accepted w).
Proof. unfold input_accepted. apply _. Defined.

(** The readings of [Date.now()] in a run from [w], in order: one for
    each submission that is accepted, the only place where the clock
    is read. *)
Fixpoint clock_readings (P : Platform) (evs : list Event) (w : World)
    : list Z :=
  match evs with
  | [] => []
  | ev :: evs' =>
      match ev with
      | EvSubmit now _ => if decide (input_accepted w) then [now] else []
      | _ => []
      end ++ clock_readings P evs' (world_of (dispatch P ev w))
  end.

(** The ids of the tasks, in the order of the array. *)
Definition ids (w : World) : list Z := id <$> tasks w.

(** [render] returns on [w]: the view is empty, or the listeners attach
    to its markup. *)
Definition renders (P : Platform) (w : World) : bool :=
  bool_decide (getFilteredTasks w = [])
  || listeners_attach P (getFilteredTasks w).

(** ** Sample data *)

(** A freshly loaded page: nothing typed, nothing stored, three filter
    buttons with "all" pressed. *)
Definition blank_page : World :=
  mkWorld [] None [] "" false (EmptyState []) (Stats.mk 0 0 0) false
    [(Some (js "all"), true); (Some (js "pending"), false);
     (Some (js "completed"), false)]
    ∅ "" ∅ [].

Definition milk : Task :=
  mkTask 1700000000000 (js "Buy milk") false (js "2023-11-14T22:13:20.000Z").
Definition dog : Task :=
  mkTask 1700000000500 (js "Walk dog") true (js "2023-11-14T22:13:20.500Z").
(** A second task created in the millisecond of [milk]. *)
Definition eggs : Task :=
  mkTask 1700000000000 (js "Buy eggs") false (js "2023-11-14T22:13:20.000Z").

(** A task whose text needs every kind of escape. *)
Definition odd : Task :=
  mkTask (-42) [9; 34; 92; 55357; 56832; 55357; 7; 233; 57000; 0]%N true [].

(** A text of 23 code units that closes the [aria-label] attribute and
    the [input] tag and opens a paragraph of class [task-item]: the
    paragraph has no checkbox in it. *)
Definition markup_text : list N :=
  [34%N] ++ js "><p class=" ++ [34%N] ++ js "task-item" ++ [34%N] ++ js ">".

(** No text of the tasks holds a double quote, the one character that
    ends the value of an [aria-label]: the markup then has the elements
    [createTaskElement] lays out, and no other. *)
Definition quote_free (ts : list Task) : bool :=
  forallb (λ t, bool_decide (34%N ∉ text t)) ts.

(** The platform of the examples: [JSON.parse] by the grammar, and a
    storage that takes everything ([room]) or nothing.  The examples
    hold safe integers only, and texts without a quote apart from
    [markup_text], on which the listeners do not attach. *)
Definition sample_platform (room : bool) : Platform :=
  mkPlatform parse_by_grammar decimal quote_free (λ _ _ _, room).

(** The platform [P] with [JSON.parse] by the grammar. *)
Definition with_grammar (P : Platform) : Platform :=
  mkPlatform parse_by_grammar (Number_toString_large P)
    (listeners_attach P) (storage_accepts P).

(** ** Markup helpers *)

(** [escapeHtml]: the text is stored in a text node and read back
    through [innerHTML], which serialises a text node by replacing the
    ampersand, the no-break space and the two angle brackets with
    their character references. *)
Definition escape_char (c : N) : list N :=
  (if c =? 38 then js "&amp;"
   else if c =? 160 then js "&nbsp;"
   else if c =? 60 then js "&lt;"
   else if c =? 62 then js "&gt;"
   else [c])%N.

Definition escapeHtml (text : list N) : list N :=
  text ≫= escape_char.

(** What an HTML parser reads from the text [escapeHtml] writes: the
    four character references decoded, every other code unit kept. *)
Fixpoint unescapeHtml (s : list N) : list N :=
  match s with
  | [] => []
  | c :: s1 =>
      if (c =? 38)%N then
        match s1 with
        | a :: b :: c' :: s4 =>
            if bool_decide ([a; b; c'] = js "lt;") then 60%N :: unescapeHtml s4
            else if bool_decide ([a; b; c'] = js "gt;")
            then 62%N :: unescapeHtml s4
            else
              match s4 with
              | d :: s5 =>
                  if bool_decide ([a; b; c'; d] = js "amp;")
                  then 38%N :: unescapeHtml s5
                  else
                    match s5 with
                    | e :: s6 =>
                        if bool_decide ([a; b; c'; d; e] = js "nbsp;")
                        then 160%N :: unescapeHtml s6
                        else c :: unescapeHtml s1
                    | [] => c :: unescapeHtml s1
                    end
              | [] => c :: unescapeHtml s1
              end
        | _ => c :: unescapeHtml s1
        end
      else c :: unescapeHtml s1
  end.

(** The value of [data-task-id] in the markup of [createTaskElement]:
    the template literal applies [ToString] to [task.id]. *)
Definition data_task_id (P : Platform) (t : Task) : list N :=
  Number_toString P (id t).

Definition hex_digit_of (c : N)
    : option (Hexadecimal.uint → Hexadecimal.uint) :=
  (if c =? 48 then Some Hexadecimal.D0 else if c =? 49 then Some Hexadecimal.D1
   else if c =? 50 then Some Hexadecimal.D2
   else if c =? 51 then Some Hexadecimal.D3
   else if c =? 52 then Some Hexadecimal.D4
   else if c =? 53 then Some Hexadecimal.D5
   else if c =? 54 then Some Hexadecimal.D6
   else if c =? 55 then Some Hexadecimal.D7
   else if c =? 56 then Some Hexadecimal.D8
   else if c =? 57 then Some Hexadecimal.D9
   else if (c =? 97) || (c =? 65) then Some Hexadecimal.Da
   else if (c =? 98) || (c =? 66) then Some Hexadecimal.Db
   else if (c =? 99) || (c =? 67) then Some Hexadecimal.Dc
   else if (c =? 100) || (c =? 68) then Some Hexadecimal.Dd
   else if (c =? 101) || (c =? 69) then Some Hexadecimal.De
   else if (c =? 102) || (c =? 70) then Some Hexadecimal.Df
   else None)%N.

(** The hexadecimal digits in front of [s]. *)
Fixpoint read_hex_uint (s : list N) : Hexadecimal.uint :=
  match s with
  | [] => Hexadecimal.Nil
  | c :: s' =>
      match hex_digit_of c with
      | Some digit => digit (read_hex_uint s')
      | None => Hexadecimal.Nil
      end
  end.

(** What [parseInt] returns: [NaN], an integer that a Number holds
    exactly ([Int 0] stands for both zeros), or, for a magnitude above
    2^53, the Number nearest to the integer read, which this model does
    not compute. *)
Inductive ParsedInt :=
  | NaN
  | Int (z : Z)
  | Nearest.

(** The Number for the integer of magnitude [m] and sign [sign]. *)
Definition to_number (sign m : Z) : ParsedInt :=
  if decide (m ≤ 9007199254740992) then Int (sign * m) else Nearest.

(** The digits of [parseInt] once the sign is read: the prefix [0x] or
    [0X] selects radix 16, and the digits up to the first other code
    unit give the value; without a digit the result is [NaN]. *)
Definition parse_digits (sign : Z) (digits : list N) : ParsedInt :=
  match digits with
  | c :: x :: digits' =>
      if (c =? 48)%N && ((x =? 120) || (x =? 88))%N then
        match read_hex_uint digits' with
        | Hexadecimal.Nil => NaN
        | d => to_number sign (Z.of_hex_uint d)
        end
      else
        match read_uint digits with
        | (Decimal.Nil, _) => NaN
        | (d, _) => to_number sign (Z.of_uint d)
        end
  | _ =>
      match read_uint digits with
      | (Decimal.Nil, _) => NaN
      | (d, _) => to_number sign (Z.of_uint d)
      end
  end.

(** [parseInt(string)] without a radix: leading white space is
    skipped, then a sign is read, then the digits. *)
Definition parseInt (string : list N) : ParsedInt :=
  match trimStart string with
  | c :: input =>
      if (c =? 45)%N then parse_digits (-1) input
      else if (c =? 43)%N then parse_digits 1 input
      else parse_digits 1 (c :: input)
  | [] => NaN
  end.

(** ** Vocabulary of the further properties *)

(** What [renderTasks] assigns to the container for the view of [w]. *)
Definition view_markup (w : World) : Rendered :=
  if decide (getFilteredTasks w = []) then
    EmptyState
      (if decide (currentFilter w = Some (js "all"))
       then js "No tasks yet. Add one to get started!"
       else (js "No " ++ filter_text (currentFilter w) ++ js " tasks.")%list)
  else TaskItems (getFilteredTasks w).

(** The counters and the clear button show the tasks. *)
Definition stats_in_sync (w : World) : Prop :=
  statsEls w = calculateStats w
  ∧ clearCompletedBtn_disabled w
    = bool_decide (filter (λ t, completed t = true) (tasks w) = []).

(** No listener of the run throws. *)
Fixpoint no_throw (P : Platform) (evs : list Event) (w : World) : bool :=
  match evs with
  | [] => true
  | ev :: evs' =>
      negb (threw (dispatch P ev w))
      && no_throw P evs' (world_of (dispatch P ev w))
  end.

(** What [handleAddTask] gives a task for good: its id, its text and
    its creation time. *)
Definition identity (t : Task) : Z * list N * list N :=
  (id t, text t, createdAt t).

(** A text [handleAddTask] accepts and stores as it is. *)
Definition valid_text (s : list N) : Prop :=
  s ≠ [] ∧ (length s ≤ 200)%nat ∧ trim s = s.

Definition theme_name (dark : bool) : list N :=
  if dark then js "dark" else js "light".

(** The root classes, the stored theme and the label of the toggle all
    say [dark]. *)
Definition theme_in_sync (dark : bool) (w : World) : Prop :=
  bool_decide ("dark-mode" ∈ rootClasses w) = dark
  ∧ bool_decide ("light-mode" ∈ rootClasses w) = negb dark
  ∧ getItem "theme" w = Some (theme_name dark)
  ∧ darkModeToggle_title w
    = (if dark then "Toggle light mode" else "Toggle dark mode").

(** The condition of [initDarkMode]. *)
Definition initial_dark (prefersDark : bool) (w : World) : bool :=
  bool_decide (getItem "theme" w = Some (js "dark"))
  || (negb (truthy (getItem "theme" w)) && prefersDark).

Global Instance Event_eq_dec : EqDecision Event.
Proof. solve_decision. Defined.

(** The number of clicks on the dark mode toggle in a run. *)
Definition toggle_count (evs : list Event) : nat :=
  length (filter (λ ev, ev = EvDarkModeToggle) evs).

(** The notice on display is the one for the text in the input; no
    notice, no text in the error element. *)
Definition notice_in_sync (w : World) : Prop :=
  if errorMessage_show w then
    (trim (taskInput w) = [] ∧ errorMessage w = msg_empty)
    ∨ ((200 < length (trim (taskInput w)))%nat
       ∧ errorMessage w = msg_too_long)
  else errorMessage w = "".

(** The entry under "tasks" is the serialisation of the array. *)
Definition tasks_stored (P : Platform) (w : World) : Prop :=
  getItem "tasks" w = Some (JSON_stringify P (tasks w)).

(** The storage takes every value under [key]. *)
Definition always_accepts (P : Platform) (key : string) : Prop :=
  ∀ m v, storage_accepts P m key v = true.

(** ** The value of a serialised array *)

(** The number [Number_toString] writes for a safe integer, as the
    grammar reads it. *)
Definition numeral_of (z : Z) : Numeral :=
  match z with
  | 0 => mkNumeral false (Decimal.D0 Decimal.Nil) Decimal.Nil false Decimal.Nil
  | Zpos p => mkNumeral false (Pos.to_uint p) Decimal.Nil false Decimal.Nil
  | Zneg p => mkNumeral true (Pos.to_uint p) Decimal.Nil false Decimal.Nil
  end.

(** The object [stringify_task] writes. *)
Definition task_value (t : Task) : JValue :=
  JObject [(js "id", JNumber (numeral_of (id t)));
           (js "text", JString (text t));
           (js "completed", JBool (completed t));
           (js "createdAt", JString (createdAt t))].

(** What follows the first element in the text of an array: each
    further task behind a comma, then the closing bracket. *)
Fixpoint more_tasks (P : Platform) (ts : list Task) : list N :=
  match ts with
  | [] => [93%N]
  | t :: ts' => 44%N :: stringify_task P t ++ more_tasks P ts'
  end.

(** The theme functions as one: [enableDarkMode] for [true],
    [disableDarkMode] for [false]. *)
Definition apply_theme (P : Platform) (dark : bool) (w : World) : Outcome :=
  if dark then enableDarkMode P w else disableDarkMode P w.

(** The classes of the root element once the theme is applied. *)
Definition theme_classes (dark : bool) (w : World) : gset string :=
  if dark then ({[ "dark-mode" ]} ∪ rootClasses w) ∖ {[ "light-mode" ]}
  else ({[ "light-mode" ]} ∪ rootClasses w) ∖ {[ "dark-mode" ]}.

Definition theme_title (dark : bool) : string :=
  if dark then "Toggle light mode" else "Toggle dark mode".

(** The constructor has reached [attachEventListeners]: it has
    returned, or the first [render] has thrown.  An exception out of
    [initDarkMode] ends it before any listener is attached. *)
Definition listening (s : Start) : Prop :=
  match s with
  | Started (Returned _ _) => True
  | Started (Threw TypeError _) => True
  | Started (Threw StorageError _) => False
  | Unfollowed _ => False
  end.

(** What a reload would read is the array, and its ids are safe
    integers. *)
Definition reloadable (P : Platform) (w : World) : Prop :=
  (loadTasks P w).1 = Some (tasks w)
  ∧ Forall (λ t, safe_integer (id t)) (tasks w).
(** * Properties *)

(** ** What the display and the storage functions do *)

Lemma view_empty w :
  length (getFilteredTasks w) = 0%nat ↔ getFilteredTasks w = [].
Proof. by destruct (getFilteredTasks w). Qed.

(** [render] in one equation: the container gets the markup of the
    view; then the listeners attach and the counters follow, or a
    [TypeError] ends the call. *)
Lemma render_eq P w :
  render P w
  = if renders P w
    then Returned undefined
           (updateStats (set_tasksContainer (view_markup w) w))
    else Threw TypeError (set_tasksContainer (view_markup w) w).
Proof.
  unfold render, renderTasks, renders, view_markup, attachTaskEventListeners.
  destruct (getFilteredTasks w) as [|t l]; [done|].
  cbn [length]. rewrite decide_False by done.
  rewrite decide_False by done. rewrite bool_decide_eq_false_2 by done.
  cbn [tasksContainer set_tasksContainer orb].
  by destruct (listeners_attach P (t :: l)).
Qed.

(** What [render] leaves alone, whether it returns or throws. *)
Lemma render_frame P w :
  let w' := world_of (render P w) in
  tasks w' = tasks w ∧ currentFilter w' = currentFilter w
  ∧ taskInput w' = taskInput w ∧ errorMessage w' = errorMessage w
  ∧ errorMessage_show w' = errorMessage_show w
  ∧ filterButtons w' = filterButtons w ∧ rootClasses w' = rootClasses w
  ∧ darkModeToggle_title w' = darkModeToggle_title w
  ∧ localStorage w' = localStorage w ∧ trace w' = trace w.
Proof. rewrite render_eq. by destruct (renders P w). Qed.

Lemma render_tasks P w : tasks (world_of (render P w)) = tasks w.
Proof. apply render_frame. Qed.

Lemma render_currentFilter P w :
  currentFilter (world_of (render P w)) = currentFilter w.
Proof. apply render_frame. Qed.

Lemma render_localStorage P w :
  localStorage (world_of (render P w)) = localStorage w.
Proof. apply render_frame. Qed.

Lemma render_trace P w : trace (world_of (render P w)) = trace w.
Proof. apply render_frame. Qed.

Lemma render_tasksContainer P w :
  tasksContainer (world_of (render P w)) = view_markup w.
Proof. rewrite render_eq. by destruct (renders P w). Qed.

Lemma getFilteredTasks_ext w w' :
  tasks w = tasks w' → currentFilter w = currentFilter w' →
  getFilteredTasks w = getFilteredTasks w'.
Proof. unfold getFilteredTasks. by intros -> ->. Qed.

Lemma view_markup_ext w w' :
  tasks w = tasks w' → currentFilter w = currentFilter w' →
  view_markup w = view_markup w'.
Proof.
  intros Ht Hf. unfold view_markup.
  by rewrite (getFilteredTasks_ext w w' Ht Hf), Hf.
Qed.

Lemma renders_ext P w w' :
  tasks w = tasks w' → currentFilter w = currentFilter w' →
  renders P w = renders P w'.
Proof.
  intros Ht Hf. unfold renders. by rewrite (getFilteredTasks_ext w w' Ht Hf).
Qed.

Lemma calculateStats_ext w w' :
  tasks w = tasks w' → calculateStats w = calculateStats w'.
Proof. unfold calculateStats. by intros ->. Qed.

Lemma completed_count (l : list Task) :
  bool_decide (Z.of_nat (length (filter (λ t, completed t = true) l)) = 0)
  = bool_decide (filter (λ t, completed t = true) l = []).
Proof.
  apply bool_decide_ext.
  destruct (filter _ l); simpl; split; intros; (done || lia).
Qed.

(** After a [render] that returns, the counters show the tasks. *)
Lemma updateStats_in_sync w : stats_in_sync (updateStats w).
Proof. split; [done|]. apply completed_count. Qed.

(** [saveTasks] in one equation. *)
Lemma saveTasks_eq P w :
  saveTasks P w
  = let text := JSON_stringify P (tasks w) in
    if storage_accepts P (localStorage w) "tasks" text
    then set_localStorage (<["tasks" := text]> (localStorage w))
           (log (SetItem "tasks" text) w)
    else log (ConsoleError "Error saving tasks:")
           (log (SetItem "tasks" text) w).
Proof.
  unfold saveTasks, setItem. cbn [localStorage log].
  by destruct (storage_accepts P _ _ _).
Qed.

(** What [saveTasks] leaves alone. *)
Lemma saveTasks_frame P w :
  let w' := saveTasks P w in
  tasks w' = tasks w ∧ currentFilter w' = currentFilter w
  ∧ taskInput w' = taskInput w ∧ errorMessage w' = errorMessage w
  ∧ errorMessage_show w' = errorMessage_show w
  ∧ tasksContainer w' = tasksContainer w ∧ statsEls w' = statsEls w
  ∧ clearCompletedBtn_disabled w' = clearCompletedBtn_disabled w
  ∧ filterButtons w' = filterButtons w ∧ rootClasses w' = rootClasses w
  ∧ darkModeToggle_title w' = darkModeToggle_title w.
Proof. rewrite saveTasks_eq. cbv zeta. by destruct (storage_accepts P _ _ _). Qed.

Lemma saveTasks_tasks P w : tasks (saveTasks P w) = tasks w.
Proof. apply saveTasks_frame. Qed.

Lemma saveTasks_currentFilter P w :
  currentFilter (saveTasks P w) = currentFilter w.
Proof. apply saveTasks_frame. Qed.

(** [saveTasks] followed by [render]: the call every handler that
    changes the array ends with. *)
Lemma save_render_called P w ts :
  save_called P w (world_of (render P (saveTasks P (set_tasks ts w)))).
Proof.
  unfold save_called.
  rewrite render_trace, render_localStorage, render_tasks, saveTasks_tasks.
  rewrite saveTasks_eq. cbn [tasks set_tasks localStorage].
  by destruct (storage_accepts P _ _ _).
Qed.

Lemma save_render_tasks P w ts :
  tasks (world_of (render P (saveTasks P (set_tasks ts w)))) = ts.
Proof. by rewrite render_tasks, saveTasks_tasks. Qed.

Lemma save_render_currentFilter P w ts :
  currentFilter (world_of (render P (saveTasks P (set_tasks ts w))))
  = currentFilter w.
Proof. by rewrite render_currentFilter, saveTasks_currentFilter. Qed.

(** A call of [saveTasks] is seen in the log as one call of [setItem]
    under "tasks" and none under another key. *)
Lemma save_called_writes P w w' :
  save_called P w w' →
  writes_to "tasks" (trace w')
  = JSON_stringify P (tasks w') :: writes_to "tasks" (trace w)
  ∧ ∀ key, key ≠ "tasks" →
      writes_to key (trace w') = writes_to key (trace w)
      ∧ localStorage w' !! key = localStorage w !! key.
Proof.
  unfold save_called.
  destruct (storage_accepts P _ _ _); intros [-> ->]; (split; [done|]);
    intros key Hkey; unfold writes_to; cbn [omap list_omap];
    rewrite decide_False by done; rewrite ?lookup_insert_ne by done; done.
Qed.

(** How a handler that ends with [render] ends. *)
Lemma render_outcome P w :
  let w' := world_of (render P w) in
  render P w
  = if renders P w' then Returned undefined w' else Threw TypeError w'.
Proof.
  intros w'. subst w'.
  rewrite (renders_ext P (world_of (render P w)) w)
    by (apply render_tasks || apply render_currentFilter).
  rewrite render_eq. by destruct (renders P w).
Qed.

(** What [render] does to the counters and the button. *)
Lemma render_stats P w :
  let w' := world_of (render P w) in
  if renders P w then stats_in_sync w'
  else statsEls w' = statsEls w
       ∧ clearCompletedBtn_disabled w' = clearCompletedBtn_disabled w.
Proof.
  cbv zeta. rewrite render_eq. destruct (renders P w); [|done].
  cbn [world_of]. apply updateStats_in_sync.
Qed.

(** ** Adding a task *)

Lemma handleAddTask_rejects_empty P now iso w :
  trim (taskInput w) = [] →
  handleAddTask P now iso w = ret (showError msg_empty w).
Proof. unfold handleAddTask. by intros ->. Qed.

Lemma handleAddTask_rejects_long P now iso w :
  (200 < length (trim (taskInput w)))%nat →
  handleAddTask P now iso w = ret (showError msg_too_long w).
Proof.
  intros Hlen. unfold handleAddTask.
  destruct (trim (taskInput w)) as [|c s]; simpl in *; [lia|].
  destruct (Nat.ltb_spec 200 (S (length s))) as [_|?]; [done | lia].
Qed.

Lemma handleAddTask_accepts P now iso w :
  trim (taskInput w) ≠ [] →
  (length (trim (taskInput w)) ≤ 200)%nat →
  handleAddTask P now iso w
  = let! w' :=
      render P (saveTasks P
        (set_tasks (mkTask now (trim (taskInput w)) false iso :: tasks w) w))
    in ret (set_taskInput [] w').
Proof.
  intros Hne Hlen. unfold handleAddTask.
  destruct (trim (taskInput w)) as [|c s]; [done|]. simpl in Hlen |- *.
  destruct (Nat.ltb_spec 200 (S (length s))) as [?|_]; [lia | done].
Qed.

(** The world an accepted submission leaves: the one [render] leaves,
    with the input cleared when [render] has returned. *)
Lemma handleAddTask_world P now iso w :
  trim (taskInput w) ≠ [] →
  (length (trim (taskInput w)) ≤ 200)%nat →
  let w1 :=
    world_of (render P (saveTasks P
      (set_tasks (mkTask now (trim (taskInput w)) false iso :: tasks w) w))) in
  handleAddTask P now iso w
  = if renders P w1 then Returned undefined (set_taskInput [] w1)
    else Threw TypeError w1.
Proof.
  intros Hne Hlen w1. rewrite handleAddTask_accepts by done.
  rewrite render_outcome. fold w1. by destruct (renders P w1).
Qed.

(** The check of the submit listener repeats the first check of the
    handler: the listener does what the handler does. *)
Lemma dispatch_submit P now iso w :
  dispatch P (EvSubmit now iso) w = handleAddTask P now iso w.
Proof.
  cbn [dispatch]. unfold handleAddTask.
  by destruct (trim (taskInput w)).
Qed.

(** An accepted submission, field by field. *)
Lemma handleAddTask_fields P now iso w :
  trim (taskInput w) ≠ [] →
  (length (trim (taskInput w)) ≤ 200)%nat →
  let w' := world_of (handleAddTask P now iso w) in
  tasks w' = mkTask now (trim (taskInput w)) false iso :: tasks w
  ∧ currentFilter w' = currentFilter w
  ∧ save_called P w w'
  ∧ errorMessage w' = errorMessage w
  ∧ errorMessage_show w' = errorMessage_show w
  ∧ rootClasses w' = rootClasses w
  ∧ darkModeToggle_title w' = darkModeToggle_title w.
Proof.
  intros Hne Hlen. cbv zeta. rewrite handleAddTask_world by done.
  set (w0 := saveTasks P (set_tasks _ w)).
  pose proof (render_frame P w0) as (Ht & Hf & _ & He & Hs & _ & Hc & Hd & _).
  pose proof (saveTasks_frame P (set_tasks
     (mkTask now (trim (taskInput w)) false iso :: tasks w) w))
    as (Ht0 & Hf0 & _ & He0 & Hs0 & _ & _ & _ & _ & Hc0 & Hd0).
  fold w0 in Ht0, Hf0, He0, Hs0, Hc0, Hd0.
  pose proof (save_render_called P w
     (mkTask now (trim (taskInput w)) false iso :: tasks w)) as Hsave.
  fold w0 in Hsave.
  destruct (renders P (world_of (render P w0)));
    cbn [world_of set_taskInput tasks currentFilter errorMessage
         errorMessage_show rootClasses darkModeToggle_title];
    (split_and!; [by rewrite Ht, Ht0 | by rewrite Hf, Hf0 | exact Hsave
                 | by rewrite He, He0 | by rewrite Hs, Hs0
                 | by rewrite Hc, Hc0 | by rewrite Hd, Hd0]).
Qed.

(** C1: [handleAddTask] fails with the "empty" error exactly when the
    trimmed input is empty, with the "too long" error exactly when the
    trimmed input has more than 200 code units, and a failing call
    leaves the tasks, and the storage, as they were. *)
Theorem handleAddTask_validation P now iso w :
  let taskText := trim (taskInput w) in
  let w' := world_of (handleAddTask P now iso w) in
  (fails_with empty w w' ↔ taskText = [])
  ∧ (fails_with too_long w w' ↔ (200 < length taskText)%nat)
  ∧ (∀ e, fails_with e w w' →
       tasks w' = tasks w ∧ localStorage w' = localStorage w).
Proof.
  intros taskText w'. subst taskText w'.
  destruct (decide (trim (taskInput w) = [])) as [He|Hne].
  { rewrite (handleAddTask_rejects_empty _ _ _ _ He), He.
    unfold fails_with. simpl. split_and!; [done | | done].
    split; [intros [=] | lia]. }
  destruct (decide (200 < length (trim (taskInput w)))%nat) as [Hlong|Hshort].
  { rewrite (handleAddTask_rejects_long _ _ _ _ Hlong).
    unfold fails_with. simpl. split_and!; [| done | done].
    split; [intros [=] | done]. }
  assert (Hlen : (length (trim (taskInput w)) ≤ 200)%nat) by lia.
  pose proof (handleAddTask_fields P now iso w Hne Hlen)
    as (_ & _ & Hsave & _).
  cbv zeta in Hsave. unfold save_called in Hsave. unfold fails_with.
  destruct (storage_accepts P _ _ _); destruct Hsave as [-> _];
    (split_and!;
     [split; [intros [=] | done] | split; [intros [=] | done] | intros e [=]]).
Qed.

Lemma handleAddTask_validation_witness :
  tasks (world_of (handleAddTask (sample_platform true) 1 []
           (set_taskInput (js "   ") (set_tasks [dog] blank_page))))
  = [dog].
Proof.
  refine (proj1 (proj2 (proj2 (handleAddTask_validation (sample_platform true)
            1 [] (set_taskInput (js "   ") (set_tasks [dog] blank_page))))
            empty _)).
  reflexivity.
Defined.

(** The boundary cases of the specification: the empty and the blank
    text fail as empty, 201 code units fail as too long, 200 pass. *)
Example handleAddTask_boundary :
  let add w := world_of (handleAddTask (sample_platform true) 1 [] w) in
  fails_with empty blank_page (add blank_page)
  ∧ fails_with empty (set_taskInput (js "   ") blank_page)
      (add (set_taskInput (js "   ") blank_page))
  ∧ fails_with too_long (set_taskInput (replicate 201 97%N) blank_page)
      (add (set_taskInput (replicate 201 97%N) blank_page))
  ∧ length (tasks (add (set_taskInput (replicate 200 97%N) blank_page)))
    = 1%nat.
Proof. split_and!; reflexivity. Qed.

(** C2: on a valid text (not empty once trimmed, at most 200 code
    units) [handleAddTask] shows no error, puts the new task, not
    completed and with the trimmed text, in front of the tasks that were
    there, which keep their order, so that the array grows by one and
    the "all" view starts with the new task; it calls [saveTasks] on the
    new array and assigns the markup of the view to the container.
    Whether the call then succeeds is decided in [render]: when the
    listeners attach to the markup the handler returns, with the
    counters up to date and the input cleared; when they do not, it
    ends in a [TypeError], with the task added and saved, the counters
    and the clear button as they were and the text still in the
    input. *)
Theorem handleAddTask_prepends P now iso w :
  trim (taskInput w) ≠ [] →
  (length (trim (taskInput w)) ≤ 200)%nat →
  let o := handleAddTask P now iso w in
  let w' := world_of o in
  let task := mkTask now (trim (taskInput w)) false iso in
  tasks w' = task :: tasks w
  ∧ length (tasks w') = S (length (tasks w))
  ∧ getFilteredTasks (set_currentFilter (Some (js "all")) w')
    = task :: tasks w
  ∧ (∀ e, ¬ fails_with e w w')
  ∧ save_called P w w'
  ∧ tasksContainer w' = view_markup w'
  ∧ (renders P w' = true →
     o = Returned undefined w' ∧ taskInput w' = [] ∧ stats_in_sync w')
  ∧ (renders P w' = false →
     o = Threw TypeError w' ∧ taskInput w' = taskInput w
     ∧ statsEls w' = statsEls w
     ∧ clearCompletedBtn_disabled w' = clearCompletedBtn_disabled w).
Proof.
  intros Hne Hlen o w' task.
  pose proof (handleAddTask_fields P now iso w Hne Hlen)
    as (Ht & Hf & Hsave & _). fold o w' task in Ht, Hf, Hsave.
  assert (Hnofail : ∀ e, ¬ fails_with e w w').
  { intros e. unfold fails_with. unfold save_called in Hsave.
    destruct (storage_accepts P _ _ _); destruct Hsave as [-> _];
      intros [=]. }
  pose proof (handleAddTask_world P now iso w Hne Hlen) as Ho.
  cbv zeta in Ho. fold task o in Ho.
  set (w0 := saveTasks P (set_tasks (task :: tasks w) w)) in *.
  set (w1 := world_of (render P w0)) in *.
  assert (Hr : renders P w' = renders P w1).
  { subst w'. rewrite Ho. destruct (renders P w1) eqn:E; cbn [world_of];
      [|done]. rewrite <- E. by apply renders_ext. }
  assert (Hr0 : renders P w1 = renders P w0).
  { apply renders_ext; [apply render_tasks | apply render_currentFilter]. }
  assert (Hc1 : tasksContainer w1 = view_markup w1).
  { subst w1. rewrite render_tasksContainer. symmetry.
    apply view_markup_ext; [apply render_tasks | apply render_currentFilter]. }
  pose proof (render_stats P w0) as Hstats. fold w1 in Hstats.
  rewrite <- Hr0 in Hstats.
  pose proof (render_frame P w0) as (_ & _ & Hin & _). fold w1 in Hin.
  pose proof (saveTasks_frame P (set_tasks (task :: tasks w) w))
    as (_ & _ & Hin0 & _ & _ & _ & Hst0 & Hbt0 & _). fold w0 in Hin0, Hst0, Hbt0.
  split_and!.
  - done.
  - by rewrite Ht.
  - unfold getFilteredTasks, set_currentFilter. cbn [currentFilter tasks].
    by rewrite Ht.
  - done.
  - done.
  - subst w'. rewrite Ho. destruct (renders P w1); [|done].
    cbn [world_of]. rewrite <- (view_markup_ext w1) by done. exact Hc1.
  - intros Hyes. rewrite Hr in Hyes. rewrite Hyes in Ho, Hstats.
    assert (Hw' : w' = set_taskInput [] w1) by (subst w'; by rewrite Ho).
    split_and!; [by rewrite Ho, Hw' | by rewrite Hw' |].
    rewrite Hw'. exact Hstats.
  - intros Hno. rewrite Hr in Hno. rewrite Hno in Ho, Hstats.
    assert (Hw' : w' = w1) by (subst w'; by rewrite Ho).
    destruct Hstats as [Hs Hb].
    split_and!; [by rewrite Ho, Hw' | by rewrite Hw', Hin, Hin0
                | by rewrite Hw', Hs, Hst0 | by rewrite Hw', Hb, Hbt0].
Qed.

(** The text [markup_text] is valid, and on it [handleAddTask] throws:
    the task is in the array and saved, the input still holds the
    text. *)
Lemma handleAddTask_prepends_witness :
  let w := set_taskInput markup_text
             (set_currentFilter (Some (js "all")) blank_page) in
  let o := handleAddTask (sample_platform true) 5 (js "t5") w in
  length markup_text = 23%nat
  ∧ o = Threw TypeError (world_of o)
  ∧ taskInput (world_of o) = markup_text.
Proof.
  split; [reflexivity|].
  refine (let H := proj2 (proj2 (proj2 (proj2 (proj2 (proj2 (proj2
            (handleAddTask_prepends (sample_platform true) 5 (js "t5")
               (set_taskInput markup_text
                  (set_currentFilter (Some (js "all")) blank_page))
               _ _))))))) _ in conj (proj1 H) (proj1 (proj2 H))).
  - vm_compute. discriminate.
  - vm_compute. lia.
  - reflexivity.
Defined.

(** ** Views *)

(** C5: with the filter "all" the view is the task array itself; with
    "completed" (with "pending") it holds exactly the tasks whose
    [completed] is true (is false), in the order of the array; with any
    other filter value, [undefined] included, it is the "all" view.
    The view is computed from the world without changing it, and
    [renderTasks], which consumes it, leaves the tasks as they are. *)
Theorem getFilteredTasks_views P w :
  getFilteredTasks (set_currentFilter (Some (js "all")) w) = tasks w
  ∧ (let view := getFilteredTasks (set_currentFilter (Some (js "completed")) w) in
     view = filter (λ t, completed t = true) (tasks w)
     ∧ (∀ t, t ∈ view ↔ t ∈ tasks w ∧ completed t = true)
     ∧ view `sublist_of` tasks w)
  ∧ (let view := getFilteredTasks (set_currentFilter (Some (js "pending")) w) in
     view = filter (λ t, completed t = false) (tasks w)
     ∧ (∀ t, t ∈ view ↔ t ∈ tasks w ∧ completed t = false)
     ∧ view `sublist_of` tasks w)
  ∧ (∀ f, f ≠ Some (js "completed") → f ≠ Some (js "pending") →
       getFilteredTasks (set_currentFilter f w)
       = getFilteredTasks (set_currentFilter (Some (js "all")) w))
  ∧ tasks (world_of (renderTasks P w)) = tasks w.
Proof.
  split_and!.
  - done.
  - split_and!; [done | | apply sublist_filter].
    intros t. change (getFilteredTasks _)
      with (filter (λ t, completed t = true) (tasks w)).
    rewrite list_elem_of_filter. tauto.
  - split_and!; [done | | apply sublist_filter].
    intros t. change (getFilteredTasks _)
      with (filter (λ t, completed t = false) (tasks w)).
    rewrite list_elem_of_filter. tauto.
  - intros [f|] Hc Hp; [|done].
    unfold getFilteredTasks, set_currentFilter. cbn [currentFilter tasks].
    rewrite decide_False by congruence. rewrite decide_False by congruence.
    done.
  - unfold renderTasks, attachTaskEventListeners. case_decide; [done|].
    cbn [tasksContainer set_tasksContainer].
    by destruct (listeners_attach P _).
Qed.

Lemma getFilteredTasks_views_witness :
  getFilteredTasks (set_currentFilter None (set_tasks [dog; milk] blank_page))
  = [dog; milk]
  ∧ getFilteredTasks
      (set_currentFilter (Some (js "done")) (set_tasks [dog; milk] blank_page))
    = [dog; milk].
Proof.
  pose proof (getFilteredTasks_views (sample_platform true)
                (set_tasks [dog; milk] blank_page))
    as (_ & _ & _ & Hother & _).
  split.
  - apply (Hother None); discriminate.
  - apply (Hother (Some (js "done"))); vm_compute; discriminate.
Defined.

(** C6: [calculateStats] returns the length of the array as [total], the
    number of tasks whose [completed] is true as [completed], and their
    difference as [remaining]; so [total] is the sum of the other two
    and none of the three is negative. *)
Theorem calculateStats_counts w :
  let s := calculateStats w in
  Stats.total s = Z.of_nat (length (tasks w))
  ∧ Stats.completed s
    = Z.of_nat (length (filter (λ t, completed t = true) (tasks w)))
  ∧ Stats.remaining s = Stats.total s - Stats.completed s
  ∧ Stats.total s = Stats.completed s + Stats.remaining s
  ∧ 0 ≤ Stats.total s ∧ 0 ≤ Stats.completed s ∧ 0 ≤ Stats.remaining s.
Proof.
  pose proof (length_filter (λ t, completed t = true) (tasks w)).
  unfold calculateStats. simpl. lia.
Qed.

(** The scenario of the specification: two tasks added, the older one
    completed. *)
Example scenario_buy_milk_walk_dog :
  let w := run (sample_platform true)
             [EvInput (js "Buy milk"); EvSubmit 1 (js "t1");
              EvInput (js "Walk dog"); EvSubmit 2 (js "t2");
              EvToggle 1]
             (world_of (init (sample_platform true) false blank_page)) in
  text <$> getFilteredTasks (set_currentFilter (Some (js "pending")) w)
  = [js "Walk dog"]
  ∧ text <$> getFilteredTasks (set_currentFilter (Some (js "completed")) w)
    = [js "Buy milk"]
  ∧ calculateStats w = Stats.mk 2 1 1.
Proof. by vm_compute. Qed.

(** ** Toggling and deleting *)

Lemma completed_split (l : list Task) :
  length l
  = (length (filter (λ t, completed t = false) l)
     + length (filter (λ t, completed t = true) l))%nat.
Proof.
  induction l as [|t l IH]; [done|].
  rewrite !filter_cons. destruct (completed t); simpl; lia.
Qed.

Lemma insert_middle (l1 l2 : list Task) x y :
  <[length l1 := y]> (l1 ++ x :: l2) = l1 ++ y :: l2.
Proof. rewrite insert_app_r_alt by done. by rewrite Nat.sub_diag. Qed.

(** [find] on an array whose first task with the id is [t]. *)
Lemma find_first_with_id (l1 l2 : list Task) t taskId :
  taskId ∉ id <$> l1 → id t = taskId →
  list_find (λ t, id t = taskId) (l1 ++ t :: l2) = Some (length l1, t).
Proof.
  intros Hl1 Ht. apply list_find_Some. split_and!.
  - by rewrite list_lookup_middle.
  - done.
  - intros j y Hj Hlt Hy. apply Hl1.
    rewrite lookup_app_l in Hj by done.
    apply list_elem_of_fmap. exists y. split; [done|].
    by eapply list_elem_of_lookup_2.
Qed.

(** Every array that holds the id splits at its first task with it. *)
Lemma split_at_first_id (l : list Task) taskId :
  taskId ∈ id <$> l →
  ∃ l1 t l2, l = l1 ++ t :: l2 ∧ (taskId ∉ id <$> l1) ∧ id t = taskId.
Proof.
  induction l as [|x l IH]; [by intros ?%elem_of_nil|].
  intros Hin. destruct (decide (id x = taskId)) as [Hx|Hx].
  - exists [], x, l. split_and!; [done | apply not_elem_of_nil | done].
  - rewrite fmap_cons in Hin. apply elem_of_cons in Hin as [Heq|Hin]; [done|].
    destruct (IH Hin) as (l1 & t & l2 & -> & Hl1 & Ht).
    exists (x :: l1), t, l2. split_and!; [done | | done].
    rewrite fmap_cons. intros [?|?]%elem_of_cons; [congruence | done].
Qed.

Lemma handleToggleComplete_absent P taskId w :
  taskId ∉ id <$> tasks w → handleToggleComplete P taskId w = ret w.
Proof.
  intros Habs. unfold handleToggleComplete.
  destruct (list_find _ (tasks w)) as [[i t]|] eqn:Hfind; [|done].
  apply list_find_Some in Hfind as (Hi & Ht & _). destruct Habs.
  apply list_elem_of_fmap. exists t. split; [done|].
  by eapply list_elem_of_lookup_2.
Qed.

Lemma handleToggleComplete_first P taskId w l1 t l2 :
  tasks w = l1 ++ t :: l2 → taskId ∉ id <$> l1 → id t = taskId →
  handleToggleComplete P taskId w
  = render P (saveTasks P (set_tasks (l1 ++ toggled t :: l2) w)).
Proof.
  intros Hw Hl1 Ht. unfold handleToggleComplete.
  rewrite Hw, (find_first_with_id l1 l2 t taskId Hl1 Ht).
  fold (toggled t).
  by rewrite (insert_middle l1 l2 t (toggled t)).
Qed.

Lemma toggled_involutive t : toggled (toggled t) = t.
Proof. destruct t as [i x c d]. unfold toggled. simpl. by rewrite negb_involutive. Qed.

(** C4, as the code has it: [handleToggleComplete] has no [return]
    with a value.  When no task has the id it returns [undefined] and
    does nothing at all: the world, and with it the size and content of
    the array, is as before.  When some task has the id, the first such
    task has its [completed] negated, every other task and field is as
    before, [saveTasks] is called on the array, and the call returns
    [undefined] when [render] returns; a second call gives back the
    original array. *)
Theorem handleToggleComplete_spec P taskId w :
  let o := handleToggleComplete P taskId w in
  let w' := world_of o in
  (taskId ∉ id <$> tasks w → o = Returned undefined w)
  ∧ (taskId ∈ id <$> tasks w →
     ∃ i t, tasks w !! i = Some t ∧ id t = taskId
       ∧ (∀ j t', tasks w !! j = Some t' → id t' = taskId → (i ≤ j)%nat)
       ∧ tasks w' = <[i := toggled t]> (tasks w)
       ∧ save_called P w w'
       ∧ o = (if renders P w' then Returned undefined w'
              else Threw TypeError w')
       ∧ tasks (world_of (handleToggleComplete P taskId w')) = tasks w).
Proof.
  intros o w'. subst o w'. split; [apply handleToggleComplete_absent|].
  intros (l1 & t & l2 & Hw & Hl1 & Ht)%split_at_first_id.
  exists (length l1), t.
  rewrite (handleToggleComplete_first P taskId w l1 t l2 Hw Hl1 Ht).
  split_and!.
  - by rewrite Hw, list_lookup_middle.
  - done.
  - intros j t' Hj Ht'. destruct (decide (length l1 ≤ j)%nat); [done|].
    destruct Hl1. rewrite Hw, lookup_app_l in Hj by lia.
    apply list_elem_of_fmap. exists t'. split; [done|].
    by eapply list_elem_of_lookup_2.
  - by rewrite save_render_tasks, Hw, insert_middle.
  - apply save_render_called.
  - apply render_outcome.
  - rewrite (handleToggleComplete_first P taskId _ l1 (toggled t) l2).
    + by rewrite save_render_tasks, toggled_involutive.
    + by rewrite save_render_tasks.
    + done.
    + done.
Qed.

Lemma handleToggleComplete_spec_witness :
  handleToggleComplete (sample_platform true) 7
    (set_tasks [dog; milk] blank_page)
  = Returned undefined (set_tasks [dog; milk] blank_page)
  ∧ ∃ i t, tasks (set_tasks [dog; milk] blank_page) !! i = Some t
      ∧ tasks (world_of (handleToggleComplete (sample_platform true)
                           1700000000000 (set_tasks [dog; milk] blank_page)))
        = <[i := toggled t]> [dog; milk].
Proof.
  split.
  - apply (proj1 (handleToggleComplete_spec (sample_platform true) 7
                    (set_tasks [dog; milk] blank_page))).
    compute_done.
  - destruct (proj2 (handleToggleComplete_spec (sample_platform true)
                       1700000000000 (set_tasks [dog; milk] blank_page)))
      as (i & t & Hi & _ & _ & Hw' & _).
    + compute_done.
    + by exists i, t.
Defined.

(** The claim of C4 on the value returned fails: for an id no task has
    the handler returns [undefined], not [false], and for the id of a
    task it returns [undefined], not [true]. *)
Lemma handleToggleComplete_returns_undefined :
  let w := set_tasks [dog; milk] blank_page in
  result (handleToggleComplete (sample_platform true) 7 w) = Some undefined
  ∧ result (handleToggleComplete (sample_platform true) 7 w)
    ≠ Some (boolean false)
  ∧ result (handleToggleComplete (sample_platform true) 1700000000000 w)
    = Some undefined
  ∧ result (handleToggleComplete (sample_platform true) 1700000000000 w)
    ≠ Some (boolean true).
Proof. split_and!; (reflexivity || discriminate). Qed.

(** C10: [handleDeleteTask] leaves no task with the id, whatever the
    array and the id, and keeps the other tasks; [handleToggleComplete]
    negates [completed] on the first task with the id only: the tasks
    after it, those with the same id included, are as before. *)
Theorem duplicate_ids_delete_all_toggle_first P taskId w :
  (taskId ∉ id <$> tasks (world_of (handleDeleteTask P taskId w)))
  ∧ tasks (world_of (handleDeleteTask P taskId w))
    = filter (λ t, id t ≠ taskId) (tasks w)
  ∧ (∀ l1 t l2,
       tasks w = l1 ++ t :: l2 → taskId ∉ id <$> l1 → id t = taskId →
       tasks (world_of (handleToggleComplete P taskId w))
       = l1 ++ toggled t :: l2).
Proof.
  assert (Hdel : tasks (world_of (handleDeleteTask P taskId w))
                 = filter (λ t, id t ≠ taskId) (tasks w)).
  { unfold handleDeleteTask. by rewrite save_render_tasks. }
  split_and!.
  - rewrite Hdel. intros (t & Ht & Hin)%list_elem_of_fmap.
    apply list_elem_of_filter in Hin as [Hne _]. by apply Hne.
  - done.
  - intros l1 t l2 Hw Hl1 Ht.
    rewrite (handleToggleComplete_first P taskId w l1 t l2 Hw Hl1 Ht).
    by rewrite save_render_tasks.
Qed.

(** [eggs] and [milk] carry the same id: the toggle reaches [eggs], the
    first of the two, and the deletion removes both. *)
Lemma duplicate_ids_witness :
  tasks (world_of (handleToggleComplete (sample_platform true) 1700000000000
           (set_tasks [dog; eggs; milk] blank_page)))
  = [dog; toggled eggs; milk]
  ∧ tasks (world_of (handleDeleteTask (sample_platform true) 1700000000000
             (set_tasks [dog; eggs; milk] blank_page)))
    = [dog].
Proof.
  pose proof (duplicate_ids_delete_all_toggle_first (sample_platform true)
                1700000000000 (set_tasks [dog; eggs; milk] blank_page))
    as (_ & Hdel & Htog).
  split.
  - apply (Htog [dog] eggs [milk]); [done | compute_done | done].
  - rewrite Hdel. by vm_compute.
Defined.

(** ** Clearing the completed tasks *)

(** C3, as the code has it: once the user has confirmed,
    [handleClearCompleted] keeps exactly the tasks that are not
    completed, in their order; the array shrinks by the number of
    completed tasks; [saveTasks] is called in every case, also when
    nothing was removed; and the call returns [undefined], not a
    count, when [render] returns.  Without the confirmation the world
    stays as it is. *)
Theorem handleClearCompleted_spec P w :
  let o := handleClearCompleted P true w in
  let w' := world_of o in
  tasks w' = filter (λ t, completed t = false) (tasks w)
  ∧ (∀ t, t ∈ tasks w' ↔ t ∈ tasks w ∧ completed t = false)
  ∧ tasks w' `sublist_of` tasks w
  ∧ length (tasks w)
    = (length (tasks w')
       + length (filter (λ t, completed t = true) (tasks w)))%nat
  ∧ save_called P w w'
  ∧ o = (if renders P w' then Returned undefined w' else Threw TypeError w')
  ∧ handleClearCompleted P false w = Returned undefined w.
Proof.
  intros o w'. subst o w'.
  assert (Ht : tasks (world_of (handleClearCompleted P true w))
               = filter (λ t, completed t = false) (tasks w)).
  { unfold handleClearCompleted. by rewrite save_render_tasks. }
  split_and!.
  - done.
  - intros t. rewrite Ht, list_elem_of_filter. tauto.
  - rewrite Ht. apply sublist_filter.
  - rewrite Ht. apply completed_split.
  - apply save_render_called.
  - apply render_outcome.
  - done.
Qed.

(** The claim of C3 on the write and on the value returned fails on
    the handler: with one task, not completed, and the confirmation
    given, nothing is removed and [saveTasks] is called; and with one
    completed task the handler removes it and returns [undefined], not
    the count 1. *)
Lemma handleClearCompleted_saves_without_removal :
  let P := sample_platform true in
  let w := set_tasks [milk] blank_page in
  let w' := world_of (handleClearCompleted P true w) in
  ¬ (save_called P w w' → (length (tasks w') < length (tasks w))%nat)
  ∧ tasks (world_of (handleClearCompleted P true (set_tasks [dog] blank_page)))
    = []
  ∧ result (handleClearCompleted P true (set_tasks [dog] blank_page))
    ≠ Some (number 1).
Proof.
  intros P w w'. split_and!.
  - intros Hclaim.
    assert (Hsaved : save_called P w w') by apply save_render_called.
    apply Hclaim in Hsaved. vm_compute in Hsaved. lia.
  - reflexivity.
  - discriminate.
Qed.

(** ** Ids *)

(** Negating [completed] in place keeps the ids where they are. *)
Lemma ids_insert_toggled (l : list Task) i t :
  l !! i = Some t → id <$> <[i := toggled t]> l = id <$> l.
Proof.
  intros Hi. rewrite list_fmap_insert. apply list_insert_id.
  by rewrite list_lookup_fmap, Hi.
Qed.

Lemma input_accepted_cases w :
  trim (taskInput w) = [] ∨ (200 < length (trim (taskInput w)))%nat
  ∨ input_accepted w.
Proof.
  unfold input_accepted.
  destruct (decide (trim (taskInput w) = [])); [by left|].
  destruct (decide (200 < length (trim (taskInput w)))%nat); [by right; left|].
  right. right. split; [done | lia].
Qed.

(** What a listener does to the tasks: it keeps a sub-sequence of them,
    each with its id, text and creation time, or it is an accepted
    submission and puts the new task in front. *)
Lemma dispatch_tasks_shape P ev w :
  ((identity <$> tasks (world_of (dispatch P ev w)))
     `sublist_of` (identity <$> tasks w)
   ∧ (∀ now iso, ev = EvSubmit now iso → ¬ input_accepted w))
  ∨ ∃ now iso, ev = EvSubmit now iso
      ∧ input_accepted w
      ∧ tasks (world_of (dispatch P ev w))
        = mkTask now (trim (taskInput w)) false iso :: tasks w.
Proof.
  destruct ev as [v|now iso|i|i|c|f| |];
    rewrite ?dispatch_submit; cbn [dispatch].
  - by left.
  - destruct (input_accepted_cases w) as [He|[Hl|[Hne Hlen]]].
    + left. rewrite handleAddTask_rejects_empty by done.
      split; [done|]. by intros ? ? _ [? _].
    + left. rewrite handleAddTask_rejects_long by done.
      split; [done|]. intros ? ? _ [_ ?]. lia.
    + right. exists now, iso. split; [done|]. split; [by split|].
      by destruct (handleAddTask_fields P now iso w Hne Hlen) as [-> _].
  - left. split; [|done]. unfold handleToggleComplete.
    destruct (list_find _ (tasks w)) as [[j t]|] eqn:Hfind; [|done].
    apply list_find_Some in Hfind as (Hj & _ & _).
    rewrite save_render_tasks. fold (toggled t).
    rewrite list_fmap_insert.
    rewrite list_insert_id; [done|]. by rewrite list_lookup_fmap, Hj.
  - left. split; [|done]. unfold handleDeleteTask. rewrite save_render_tasks.
    apply fmap_sublist, sublist_filter.
  - left. split; [|done]. destruct (clearCompletedBtn_disabled w); [done|].
    destruct c; [|done]. unfold handleClearCompleted.
    rewrite save_render_tasks. apply fmap_sublist, sublist_filter.
  - left. split; [|done]. unfold handleFilterChange. by rewrite render_tasks.
  - left. split; [|done]. unfold handleDarkModeToggle, enableDarkMode,
      disableDarkMode, setItem.
    case_bool_decide; cbn [localStorage log set_theme];
      by destruct (storage_accepts P _ _ _).
  - by left.
Qed.

(** A listener either leaves a sub-sequence of the ids and reads no
    clock, or is an accepted submission and puts its clock reading in
    front of them. *)
Lemma dispatch_ids P ev evs w :
  (ids (world_of (dispatch P ev w)) `sublist_of` ids w
   ∧ clock_readings P (ev :: evs) w
     = clock_readings P evs (world_of (dispatch P ev w)))
  ∨ ∃ now, ids (world_of (dispatch P ev w)) = now :: ids w
      ∧ clock_readings P (ev :: evs) w
        = now :: clock_readings P evs (world_of (dispatch P ev w)).
Proof.
  destruct (dispatch_tasks_shape P ev w)
    as [[Hsub Hrej]|(now & iso & -> & Hacc & Ht)].
  - left. split.
    + unfold ids. replace (id <$> tasks w) with ((λ x, x.1.1) <$> (identity <$> tasks w))
        by (rewrite <- list_fmap_compose; done).
      replace (id <$> tasks (world_of (dispatch P ev w)))
        with ((λ x, x.1.1) <$> (identity <$> tasks (world_of (dispatch P ev w))))
        by (rewrite <- list_fmap_compose; done).
      by apply fmap_sublist.
    + cbn [clock_readings]. destruct ev; try done.
      rewrite decide_False; [done|]. by eapply Hrej.
  - right. exists now. split.
    + unfold ids. by rewrite Ht.
    + cbn [clock_readings]. by rewrite decide_True.
Qed.

(** The ids stay distinct along a run whose clock readings are pairwise
    distinct, none of them an id already in use. *)
Lemma run_ids_NoDup P evs : ∀ w,
  NoDup (ids w) → NoDup (clock_readings P evs w) →
  (∀ x, x ∈ clock_readings P evs w → x ∉ ids w) →
  NoDup (ids (run P evs w)).
Proof.
  induction evs as [|ev evs IH]; intros w Hw Hclock Hfresh; [done|].
  change (run P (ev :: evs) w) with (run P evs (world_of (dispatch P ev w))).
  destruct (dispatch_ids P ev evs w) as [[Hsub Hr]|(now & Hids & Hr)];
    rewrite Hr in Hclock, Hfresh.
  - apply IH.
    + exact (sublist_NoDup _ _ Hw Hsub).
    + done.
    + intros x Hx Hin. apply (Hfresh x Hx).
      exact (elem_of_sublist _ _ _ Hin Hsub).
  - apply NoDup_cons in Hclock as [Hnow Hclock].
    apply IH.
    + rewrite Hids. apply NoDup_cons. split; [|done].
      apply Hfresh, elem_of_cons. by left.
    + done.
    + intros x Hx. rewrite Hids. intros [->|Hin]%elem_of_cons; [done|].
      apply (Hfresh x); [|done]. apply elem_of_cons. by right.
Qed.

(** C8, as the code has it: the id of a task is the reading of
    [Date.now()] in the submission that created it, so starting from
    the empty array the ids are pairwise distinct after every run of
    events in which the readings of the clock are pairwise distinct.
    A submission that is rejected reads no clock; toggling, deleting
    and clearing add no id. *)
Theorem ids_unique_when_clock_distinct P evs w :
  tasks w = [] → NoDup (clock_readings P evs w) →
  NoDup (ids (run P evs w)).
Proof.
  intros Hempty Hclock. apply run_ids_NoDup; [| done |].
  - unfold ids. rewrite Hempty. constructor.
  - intros x _. unfold ids. rewrite Hempty. apply not_elem_of_nil.
Qed.

(** The first submission finds the input empty and reads no clock: the
    reading 5 occurs once. *)
Lemma ids_unique_when_clock_distinct_witness :
  NoDup (ids (run (sample_platform true)
                [EvSubmit 5 (js "t1"); EvInput (js "Buy milk");
                 EvSubmit 5 (js "t2"); EvInput (js "Walk dog");
                 EvSubmit 6 (js "t3"); EvToggle 5; EvDelete 7;
                 EvClearCompleted true]
                blank_page)).
Proof.
  apply ids_unique_when_clock_distinct; [reflexivity|].
  vm_compute. repeat constructor; compute_done.
Defined.

(** The claim of C8 fails when the clock does not advance between two
    submissions: both tasks get the same id. *)
Lemma same_instant_same_id :
  let w := run (sample_platform true)
             [EvInput (js "Buy milk");
              EvSubmit 1700000000000 (js "2023-11-14T22:13:20.000Z");
              EvInput (js "Buy eggs");
              EvSubmit 1700000000000 (js "2023-11-14T22:13:20.000Z")]
             blank_page in
  tasks w = [eggs; milk] ∧ ¬ NoDup (ids w).
Proof.
  split; [reflexivity|].
  intros Hnodup. vm_compute in Hnodup.
  apply NoDup_cons in Hnodup as [Hnotin _]. apply Hnotin, elem_of_cons.
  by left.
Qed.

(** ** The grammar reads back what [JSON.stringify] writes *)

Lemma expect_app lit rest : expect lit (lit ++ rest) = Some rest.
Proof.
  induction lit as [|c lit IH]; [by destruct rest|].
  simpl. by rewrite N.eqb_refl.
Qed.

Lemma hex_value_digit n : (n < 16)%N → hex_value (hex_digit n) = Some n.
Proof.
  intros Hn. unfold hex_value, hex_digit.
  destruct (N.ltb_spec n 10).
  - replace ((48 <=? 48 + n) && (48 + n <=? 57))%N with true.
    + f_equal. lia.
    + symmetry. apply andb_true_iff. split; apply N.leb_le; lia.
  - replace ((48 <=? 87 + n) && (87 + n <=? 57))%N with false.
    + replace ((97 <=? 87 + n) && (87 + n <=? 102))%N with true.
      * f_equal. lia.
      * symmetry. apply andb_true_iff. split; apply N.leb_le; lia.
    + symmetry. apply andb_false_iff. right. apply N.leb_gt. lia.
Qed.

Lemma read_hex4_escape c :
  (c < 65536)%N →
  read_hex4 (hex_digit (c / 4096 mod 16)) (hex_digit (c / 256 mod 16))
    (hex_digit (c / 16 mod 16)) (hex_digit (c mod 16)) = Some c.
Proof.
  intros Hc. unfold read_hex4.
  rewrite !hex_value_digit by (apply N.mod_lt; lia). simpl. f_equal.
  zify. Z.to_euclidean_division_equations. lia.
Qed.

(** [parse_string] on an escape [\uXXXX], on a two-character escape
    and on a character that stands for itself. *)
Lemma parse_string_unicode_escape c s str rest :
  (c < 65536)%N → parse_string s = Some (str, rest) →
  parse_string (unicode_escape c ++ s) = Some (c :: str, rest).
Proof.
  intros Hc Hs. unfold unicode_escape.
  change (parse_string ([92; 117; ?h1; ?h2; ?h3; ?h4]%N ++ s))
    with (match read_hex4 h1 h2 h3 h4, parse_string s with
          | Some x, Some (str, rest) => Some (x :: str, rest)
          | _, _ => None
          end).
  by rewrite read_hex4_escape, Hs.
Qed.

Lemma parse_string_escape e c s str rest :
  e ≠ 117%N → unescape e = Some c → parse_string s = Some (str, rest) →
  parse_string (92%N :: e :: s) = Some (c :: str, rest).
Proof.
  intros He Hc Hs. simpl. apply N.eqb_neq in He. by rewrite He, Hc, Hs.
Qed.

Lemma parse_string_plain c s str rest :
  c ≠ 34%N → c ≠ 92%N → (32 ≤ c)%N → parse_string s = Some (str, rest) →
  parse_string (c :: s) = Some (c :: str, rest).
Proof.
  intros H34 H92 H32 Hs. simpl.
  apply N.eqb_neq in H34, H92. rewrite H34, H92, Hs.
  by destruct (N.ltb_spec c 32); [lia|].
Qed.

Lemma surrogate_bound c :
  is_leading_surrogate c || is_trailing_surrogate c = true →
  (c < 65536)%N ∧ c ≠ 34%N ∧ c ≠ 92%N ∧ (32 ≤ c)%N.
Proof.
  unfold is_leading_surrogate, is_trailing_surrogate.
  intros [[H1 H2]%andb_true_iff|[H1 H2]%andb_true_iff]%orb_true_iff;
    apply N.leb_le in H1, H2; lia.
Qed.

(** [parse_string] undoes [quote_body]. *)
Lemma parse_string_quote_body n : ∀ s rest,
  (length s ≤ n)%nat →
  parse_string (quote_body s ++ 34%N :: rest) = Some (s, rest).
Proof.
  induction n as [|n IH]; intros [|c s] rest Hlen; simpl in Hlen;
    [done | lia | done |].
  assert (IHs : ∀ rest, parse_string (quote_body s ++ 34%N :: rest)
                        = Some (s, rest)) by (intros; apply IH; lia).
  cbn [quote_body].
  destruct (is_leading_surrogate c) eqn:Hlead.
  { destruct (surrogate_bound c) as (Hc & H34 & H92 & H32); [by rewrite Hlead|].
    destruct s as [|d s].
    - rewrite <- (app_nil_r (unicode_escape c)), <- app_assoc.
      by apply parse_string_unicode_escape.
    - destruct (is_trailing_surrogate d) eqn:Htrail.
      + destruct (surrogate_bound d) as (_ & H34' & H92' & H32');
          [by rewrite Htrail, orb_true_r|].
        rewrite <- !app_comm_cons. apply parse_string_plain; [done..|].
        apply parse_string_plain; [done..|]. apply IH. simpl in Hlen. lia.
      + rewrite <- app_assoc. by apply parse_string_unicode_escape. }
  destruct (is_trailing_surrogate c) eqn:Htrail.
  { destruct (surrogate_bound c) as (Hc & _); [by rewrite Htrail, orb_true_r|].
    rewrite <- app_assoc. by apply parse_string_unicode_escape. }
  repeat match goal with
  | |- context [if (c =? ?k)%N then _ else _] =>
      destruct (N.eqb_spec c k) as [->|?];
        [by apply parse_string_escape|]
  end.
  destruct (N.ltb_spec c 32).
  - rewrite <- app_assoc. apply parse_string_unicode_escape; [lia | done].
  - rewrite <- app_comm_cons. by apply parse_string_plain.
Qed.

Lemma parse_string_QuoteJSONString s rest :
  parse_string (quote_body s ++ [34%N] ++ rest) = Some (s, rest).
Proof. by apply (parse_string_quote_body (length s)). Qed.

(** [read_uint] undoes the printing of a decimal number that is
    followed by something else than a digit. *)
Lemma read_uint_string_of_uint d rest :
  read_uint rest = (Decimal.Nil, rest) →
  read_uint (js (NilEmpty.string_of_uint d) ++ rest) = (d, rest).
Proof.
  intros Hrest. induction d as [|d IH|d IH|d IH|d IH|d IH|d IH|d IH|d IH|d IH|d IH];
    [done | ..];
    change (js (NilEmpty.string_of_uint (?D d)))
      with (N_of_ascii (hd "0"%char (list_ascii_of_string
                                     (NilEmpty.string_of_uint (D d))))
            :: js (NilEmpty.string_of_uint d));
    simpl; simpl in IH; by rewrite IH.
Qed.

Lemma js_String a s : js (String a s) = N_of_ascii a :: js s.
Proof. done. Qed.

(** The digits of a positive number do not start with a zero. *)
Lemma to_uint_no_leading_zero p d : Pos.to_uint p ≠ Decimal.D0 d.
Proof.
  intros Heq.
  pose proof (DecimalPos.Unsigned.to_of (Pos.to_uint p)) as Hnorm.
  rewrite DecimalPos.Unsigned.of_to in Hnorm. cbn [N.to_uint] in Hnorm.
  rewrite Heq in Hnorm. rewrite unorm_D0 in Hnorm.
  unfold Decimal.unorm in Hnorm.
  destruct (Decimal.nzhead d) as [|u|u|u|u|u|u|u|u|u|u] eqn:Hnz;
    try discriminate.
  - injection Hnorm as ->.
    by apply (DecimalPos.Unsigned.to_uint_nonzero p).
  - by apply (nzhead_nonzero d u).
Qed.

(** The printed digits of a positive number: a digit other than zero
    comes first. *)
Lemma to_uint_head p :
  ∃ c s, js (NilEmpty.string_of_uint (Pos.to_uint p)) = c :: s
    ∧ is_Some (digit_of c) ∧ c ≠ 48%N.
Proof.
  pose proof (to_uint_no_leading_zero p) as Hz.
  pose proof (DecimalPos.Unsigned.to_uint_nonnil p) as Hn.
  destruct (Pos.to_uint p) as [|d|d|d|d|d|d|d|d|d|d];
    [done | by destruct (Hz d) | ..]; by eexists _, _.
Qed.

Lemma digit_not_value_start c :
  is_Some (digit_of c) →
  c ≠ 34%N ∧ c ≠ 91%N ∧ c ≠ 123%N ∧ c ≠ 116%N ∧ c ≠ 102%N ∧ c ≠ 110%N
  ∧ c ≠ 45%N ∧ is_json_space c = false.
Proof.
  unfold digit_of.
  repeat match goal with
  | |- context [if (c =? ?k)%N then _ else _] =>
      destruct (N.eqb_spec c k) as [->|?]; [done|]
  end.
  by intros [? ?].
Qed.

Lemma string_of_uint_nonnil d :
  d ≠ Decimal.Nil →
  NilZero.string_of_uint d = NilEmpty.string_of_uint d.
Proof. by destruct d. Qed.

(** [parse_number] reads the digits of a safe integer back, up to the
    comma that follows them. *)
Lemma parse_number_decimal z rest :
  parse_number (decimal z ++ 44%N :: rest)
  = Some (numeral_of z, 44%N :: rest).
Proof.
  unfold decimal. destruct z as [|p|p]; [done | |].
  - pose proof (DecimalPos.Unsigned.to_uint_nonnil p) as Hn.
    destruct (to_uint_head p) as (c & s & Hjs & Hc & H48).
    destruct (digit_not_value_start c Hc) as (_ & _ & _ & _ & _ & _ & H45 & _).
    pose proof (read_uint_string_of_uint (Pos.to_uint p) (44%N :: rest)
                  eq_refl) as Hread.
    unfold Z.to_int, NilZero.string_of_int.
    rewrite string_of_uint_nonnil by done.
    rewrite Hjs in Hread |- *. rewrite <- app_comm_cons in Hread |- *.
    unfold parse_number. apply N.eqb_neq in H45, H48. rewrite H45, H48, Hread.
    cbn [numeral_of]. by destruct (Pos.to_uint p).
  - pose proof (DecimalPos.Unsigned.to_uint_nonnil p) as Hn.
    destruct (to_uint_head p) as (c & s & Hjs & Hc & H48).
    pose proof (read_uint_string_of_uint (Pos.to_uint p) (44%N :: rest)
                  eq_refl) as Hread.
    unfold Z.to_int, NilZero.string_of_int.
    rewrite string_of_uint_nonnil by done.
    rewrite js_String. change (N_of_ascii "-") with 45%N.
    rewrite Hjs in Hread |- *. rewrite <- !app_comm_cons in Hread |- *.
    unfold parse_number. rewrite N.eqb_refl. cbv beta iota. cbn [app].
    apply N.eqb_neq in H48. rewrite H48, Hread.
    cbn [numeral_of]. by destruct (Pos.to_uint p).
Qed.

Lemma numeral_integer_numeral_of z : numeral_integer (numeral_of z) = Some z.
Proof.
  destruct z as [|p|p]; [done | |]; unfold numeral_integer;
    cbn [numeral_of fraction exponent minus integer]; unfold Z.of_uint;
    rewrite DecimalPos.Unsigned.of_to; [done|].
  by rewrite decide_False.
Qed.

(** The first character of the digits of an integer starts a number
    and nothing else. *)
Lemma decimal_head z :
  ∃ c s, decimal z = c :: s
    ∧ c ≠ 34%N ∧ c ≠ 91%N ∧ c ≠ 123%N ∧ c ≠ 116%N ∧ c ≠ 102%N ∧ c ≠ 110%N
    ∧ is_json_space c = false.
Proof.
  unfold decimal. destruct z as [|p|p].
  - by eexists _, _.
  - destruct (to_uint_head p) as (c & s & Hjs & Hc & _).
    destruct (digit_not_value_start c Hc) as (? & ? & ? & ? & ? & ? & _ & ?).
    exists c, s. unfold Z.to_int, NilZero.string_of_int.
    rewrite string_of_uint_nonnil
      by apply DecimalPos.Unsigned.to_uint_nonnil.
    by rewrite Hjs.
  - eexists 45%N, _. unfold Z.to_int, NilZero.string_of_int.
    rewrite js_String. by split_and!.
Qed.

(** The values of the four properties of a task, as [parse_value]
    reads them. *)
Lemma parse_value_number fuel z rest :
  parse_value (S fuel) (decimal z ++ 44%N :: rest)
  = Some (JNumber (numeral_of z), 44%N :: rest).
Proof.
  pose proof (parse_number_decimal z rest) as Hnum.
  destruct (decimal_head z) as (c & s & Hd & H1 & H2 & H3 & H4 & H5 & H6 & _).
  rewrite Hd in Hnum |- *. rewrite <- app_comm_cons in Hnum |- *.
  cbn [parse_value]. apply N.eqb_neq in H1, H2, H3, H4, H5, H6.
  rewrite H1, H2, H3, H4, H5, H6. by rewrite Hnum.
Qed.

Lemma parse_value_string fuel s rest :
  parse_value (S fuel) (QuoteJSONString s ++ rest) = Some (JString s, rest).
Proof.
  unfold QuoteJSONString. rewrite <- !app_assoc.
  change ([34%N] ++ ?x) with (34%N :: x). cbn [parse_value N.eqb Pos.eqb].
  by rewrite parse_string_QuoteJSONString.
Qed.

Lemma parse_value_bool fuel b rest :
  parse_value (S fuel) (Boolean_toString b ++ rest) = Some (JBool b, rest).
Proof. by destruct b. Qed.

(** The text of a task, key by key, with what follows the task. *)
Lemma stringify_task_app P t rest :
  stringify_task P t ++ rest
  = 123%N :: 34%N :: js "id" ++ 34%N :: 58%N ::
      (Number_toString P (id t) ++ 44%N :: 34%N :: js "text" ++ 34%N :: 58%N ::
         (QuoteJSONString (text t) ++ 44%N :: 34%N :: js "completed"
            ++ 34%N :: 58%N ::
            (Boolean_toString (completed t) ++ 44%N :: 34%N :: js "createdAt"
               ++ 34%N :: 58%N ::
               (QuoteJSONString (createdAt t) ++ 125%N :: rest)))).
Proof.
  unfold stringify_task, join_comma, json_property.
  rewrite <- !app_assoc. reflexivity.
Qed.

(** The steps of [parse_value] through an object. *)
Lemma parse_value_object fuel s :
  parse_value (S fuel) (123%N :: 34%N :: s)
  = '(m, rest) ← parse_member (parse_value fuel) (34%N :: s);
    '(ms, rest') ← parse_members fuel (skip_space rest);
    Some (JObject (m :: ms), rest').
Proof. reflexivity. Qed.

Lemma parse_members_comma fuel s :
  parse_members (S fuel) (44%N :: 34%N :: s)
  = '(m, rest) ← parse_member (parse_value fuel) (34%N :: s);
    '(ms, rest') ← parse_members fuel (skip_space rest);
    Some (m :: ms, rest').
Proof. reflexivity. Qed.

Lemma parse_member_property value key s :
  quote_body key = key →
  parse_member value (34%N :: key ++ 34%N :: 58%N :: s)
  = '(v, r) ← value (skip_space s); Some ((key, v), r).
Proof.
  intros Hkey. unfold parse_member. cbn [N.eqb Pos.eqb].
  rewrite <- Hkey at 1.
  rewrite (parse_string_quote_body (length key)) by done.
  reflexivity.
Qed.

Lemma skip_space_decimal z r : skip_space (decimal z ++ r) = decimal z ++ r.
Proof.
  destruct (decimal_head z) as (c & s & Hd & _ & _ & _ & _ & _ & _ & Hsp).
  rewrite Hd. cbn [app skip_space]. by rewrite Hsp.
Qed.

Lemma skip_space_bool b r :
  skip_space (Boolean_toString b ++ r) = Boolean_toString b ++ r.
Proof. by destruct b. Qed.

Lemma skip_space_quoted s r :
  skip_space (QuoteJSONString s ++ r) = QuoteJSONString s ++ r.
Proof. reflexivity. Qed.

(** [parse_value] undoes [stringify_task] on a task with a safe id,
    whatever follows the task. *)
Lemma parse_value_task P fuel t rest :
  safe_integer (id t) →
  parse_value (6 + fuel) (stringify_task P t ++ rest)
  = Some (task_value t, rest).
Proof.
  intros Hsafe. rewrite stringify_task_app. destruct t as [i x c d].
  cbn [id text completed createdAt] in *.
  unfold task_value, Number_toString.
  cbn [id text completed createdAt]. rewrite decide_True by done.
  change (6 + fuel)%nat with (S (S (S (S (S (S fuel)))))).
  rewrite parse_value_object.
  rewrite parse_member_property by reflexivity.
  rewrite skip_space_decimal, parse_value_number.
  cbn [mbind option_bind]. change (skip_space (44%N :: ?r)) with (44%N :: r).
  rewrite parse_members_comma.
  rewrite parse_member_property by reflexivity.
  rewrite skip_space_quoted, parse_value_string.
  cbn [mbind option_bind]. change (skip_space (44%N :: ?r)) with (44%N :: r).
  rewrite parse_members_comma.
  rewrite parse_member_property by reflexivity.
  rewrite skip_space_bool, parse_value_bool.
  cbn [mbind option_bind]. change (skip_space (44%N :: ?r)) with (44%N :: r).
  rewrite parse_members_comma.
  rewrite parse_member_property by reflexivity.
  rewrite skip_space_quoted, parse_value_string.
  reflexivity.
Qed.

Lemma as_task_task_value t :
  safe_integer (id t) → as_task (task_value t) = Some t.
Proof.
  intros Hsafe. destruct t as [i x c d]. cbn [id] in Hsafe.
  unfold as_task, task_value. cbn [id text completed createdAt].
  rewrite decide_True by done.
  rewrite numeral_integer_numeral_of. cbn [mbind option_bind].
  by rewrite decide_True.
Qed.

Lemma length_stringify_task P t : (6 ≤ length (stringify_task P t))%nat.
Proof.
  rewrite <- (app_nil_r (stringify_task P t)), stringify_task_app.
  cbn [length app js fmap list_fmap list_ascii_of_string]. lia.
Qed.

Lemma length_more_tasks P ts :
  (length ts < length (more_tasks P ts))%nat.
Proof.
  induction ts as [|t ts IH]; cbn [more_tasks length]; [lia|].
  rewrite length_app. pose proof (length_stringify_task P t). lia.
Qed.

(** [parse_elements] reads the tasks that follow the first one. *)
Lemma parse_elements_more_tasks P ts : ∀ fuel,
  Forall (λ t, safe_integer (id t)) ts →
  (length ts + 7 ≤ fuel)%nat →
  parse_elements fuel (more_tasks P ts) = Some (task_value <$> ts, []).
Proof.
  induction ts as [|t ts IH]; intros [|fuel] Hsafe Hfuel;
    cbn [length] in Hfuel; try lia.
  - reflexivity.
  - apply Forall_cons in Hsafe as [Ht Hts].
    cbn [more_tasks]. rewrite stringify_task_app.
    change (parse_elements (S fuel) (44%N :: 123%N :: ?s))
      with ('(v, rest) ← parse_value fuel (123%N :: s);
            '(vs, rest') ← parse_elements fuel (skip_space rest);
            Some (v :: vs, rest')).
    rewrite <- stringify_task_app.
    replace fuel with (6 + (fuel - 6))%nat at 1 by lia.
    rewrite parse_value_task by done. cbn [mbind option_bind].
    assert (Hsk : skip_space (more_tasks P ts) = more_tasks P ts)
      by (by destruct ts).
    rewrite Hsk, IH by (done || lia). reflexivity.
Qed.

Lemma JSON_stringify_eq P t ts :
  JSON_stringify P (t :: ts)
  = 91%N :: stringify_task P t ++ more_tasks P ts.
Proof.
  unfold JSON_stringify. change (js "[" ++ ?x) with (91%N :: x). f_equal.
  revert t. induction ts as [|t' ts IH]; intros t; [done|].
  change (join_comma (stringify_task P <$> t :: t' :: ts))
    with (stringify_task P t ++ js "," ++
          join_comma (stringify_task P <$> t' :: ts)).
  rewrite <- !app_assoc. f_equal.
  change (js "," ++ ?x) with (44%N :: x). cbn [more_tasks]. f_equal.
  apply IH.
Qed.

Lemma mapM_as_task ts :
  Forall (λ t, safe_integer (id t)) ts →
  mapM as_task (task_value <$> ts) = Some ts.
Proof.
  intros Hsafe. apply mapM_Some. induction Hsafe as [|t ts Ht Hts IH].
  - constructor.
  - rewrite fmap_cons. constructor; [by apply as_task_task_value | done].
Qed.

(** The grammar gives back every array of tasks with safe ids from
    the text [JSON.stringify] writes for it. *)
Lemma parse_by_grammar_JSON_stringify P ts :
  Forall (λ t, safe_integer (id t)) ts →
  parse_by_grammar (JSON_stringify P ts) = ParsedTasks ts.
Proof.
  intros Hsafe. destruct ts as [|t ts]; [done|].
  pose proof Hsafe as [Ht Hts]%Forall_cons.
  unfold parse_by_grammar, parse_text. rewrite JSON_stringify_eq.
  cbn [skip_space is_json_space N.eqb Pos.eqb orb length].
  rewrite length_app.
  pose proof (length_stringify_task P t) as Hlen.
  pose proof (length_more_tasks P ts) as Hmore.
  set (n := (length (stringify_task P t) + length (more_tasks P ts))%nat) in *.
  rewrite stringify_task_app.
  change (parse_value (S (S n)) (91%N :: 123%N :: ?s))
    with ('(v, rest) ← parse_value (S n) (123%N :: s);
          '(vs, rest') ← parse_elements (S n) (skip_space rest);
          Some (JArray (v :: vs), rest')).
  rewrite <- stringify_task_app.
  replace (S n) with (6 + (S n - 6))%nat at 1 by lia.
  rewrite parse_value_task by done. cbn [mbind option_bind].
  assert (Hsk : skip_space (more_tasks P ts) = more_tasks P ts)
    by (by destruct ts).
  rewrite Hsk, parse_elements_more_tasks by (done || lia).
  cbn [mbind option_bind skip_space]. rewrite decide_True by done.
  cbn [as_tasks]. rewrite <- fmap_cons. by rewrite mapM_as_task.
Qed.

Example parse_by_grammar_escapes :
  parse_by_grammar (JSON_stringify (sample_platform true) [dog; odd; milk])
  = ParsedTasks [dog; odd; milk]
  ∧ QuoteJSONString (text odd)
    = [34; 92; 116; 92; 34; 92; 92; 55357; 56832;
       92; 117; 100; 56; 51; 100; 92; 117; 48; 48; 48; 55; 233;
       92; 117; 100; 101; 97; 56; 92; 117; 48; 48; 48; 48; 34]%N
  ∧ parse_by_grammar (js "null") = ParsedOther
  ∧ parse_by_grammar (js "[{") = SyntaxError.
Proof. split_and!; reflexivity. Qed.

(** ** The fuel of the parser is never used up *)

Lemma length_skip_space s : (length (skip_space s) ≤ length s)%nat.
Proof.
  induction s as [|c s IH]; cbn [skip_space length]; [lia|].
  destruct (is_json_space c); cbn [length]; lia.
Qed.

Lemma parse_string_shorter n : ∀ s str rest,
  (length s ≤ n)%nat →
  parse_string s = Some (str, rest) → (length rest < length s)%nat.
Proof.
  induction n as [|n IH]; intros s str rest Hn.
  { destruct s; [done | cbn [length] in Hn; lia]. }
  destruct s as [|c s1]; [done|]. cbn [parse_string length] in *.
  destruct (c =? 34)%N; [intros [= _ <-]; lia|].
  destruct (c =? 92)%N.
  - destruct s1 as [|e s2]; [done|]. cbn [length] in *.
    destruct (e =? 117)%N.
    + destruct s2 as [|h1 [|h2 [|h3 [|h4 s3]]]]; try done.
      cbn [length] in *.
      destruct (read_hex4 h1 h2 h3 h4); [|done].
      destruct (parse_string s3) as [[str' rest']|] eqn:Hs; [|done].
      intros [= _ <-]. apply IH in Hs; lia.
    + destruct (unescape e); [|done].
      destruct (parse_string s2) as [[str' rest']|] eqn:Hs; [|done].
      intros [= _ <-]. apply IH in Hs; lia.
  - destruct (c <? 32)%N; [done|].
    destruct (parse_string s1) as [[str' rest']|] eqn:Hs; [|done].
    intros [= _ <-]. apply IH in Hs; lia.
Qed.

Lemma expect_length lit : ∀ s rest,
  expect lit s = Some rest → length s = (length lit + length rest)%nat.
Proof.
  induction lit as [|c lit IH]; intros s rest; cbn [expect length].
  - by intros [= ->].
  - destruct s as [|d s]; [done|]. destruct (c =? d)%N; [|done].
    intros Hs. apply IH in Hs. cbn [length]. lia.
Qed.

Lemma read_uint_length s :
  (length (read_uint s).2 ≤ length s)%nat
  ∧ ((read_uint s).1 ≠ Decimal.Nil →
     (length (read_uint s).2 < length s)%nat).
Proof.
  induction s as [|c s [IH _]]; cbn [read_uint]; [done|].
  destruct (digit_of c); [|done].
  destruct (read_uint s) as [d rest]. cbn [fst snd length] in *.
  split; [lia | intros _; lia].
Qed.

Lemma parse_exponent_length neg i f s n rest :
  parse_exponent neg i f s = Some (n, rest) → (length rest ≤ length s)%nat.
Proof.
  unfold parse_exponent. destruct s as [|c r]; [by intros [= _ <-]|].
  destruct ((c =? 101) || (c =? 69))%N; [|by intros [= _ <-]].
  set (sign := match r with
               | [] => (false, [])
               | x :: r'' =>
                   if (x =? 45)%N then (true, r'')
                   else if (x =? 43)%N then (false, r'') else (false, r)
               end).
  assert (Hsign : (length sign.2 ≤ length r)%nat).
  { subst sign. destruct r as [|x r'']; [done|].
    destruct (x =? 45)%N; [cbn; lia|]. destruct (x =? 43)%N; cbn; lia. }
  destruct sign as [eneg r']. cbn [snd] in Hsign.
  pose proof (read_uint_length r') as [Hle _].
  destruct (read_uint r') as [e rest']. cbn [snd] in Hle.
  destruct e; [done|..]; intros [= _ <-]; cbn [length]; lia.
Qed.

Lemma parse_fraction_length neg i s n rest :
  parse_fraction neg i s = Some (n, rest) → (length rest ≤ length s)%nat.
Proof.
  unfold parse_fraction. destruct s as [|c r].
  { apply parse_exponent_length. }
  destruct (c =? 46)%N; [|apply parse_exponent_length].
  pose proof (read_uint_length r) as [Hle _].
  destruct (read_uint r) as [f rest']. cbn [snd] in Hle.
  destruct f; [done|..]; intros Hn%parse_exponent_length;
    cbn [length]; lia.
Qed.

Lemma parse_number_shorter s n rest :
  parse_number s = Some (n, rest) → (length rest < length s)%nat.
Proof.
  unfold parse_number.
  set (sign := match s with
               | [] => (false, [])
               | c :: r => if (c =? 45)%N then (true, r) else (false, s)
               end).
  assert (Hsign : (length sign.2 ≤ length s)%nat).
  { subst sign. destruct s as [|c r]; [done|].
    destruct (c =? 45)%N; cbn; lia. }
  destruct sign as [neg s1]. cbn [snd] in Hsign.
  destruct s1 as [|c r]; [done|]. cbn [length] in Hsign.
  destruct (c =? 48)%N.
  - intros Hn%parse_fraction_length. lia.
  - pose proof (read_uint_length (c :: r)) as [_ Hlt].
    destruct (read_uint (c :: r)) as [i rest']. cbn [fst snd length] in Hlt.
    destruct i; [done|..]; intros Hn%parse_fraction_length;
      (assert (length rest' < S (length r))%nat by (by apply Hlt)); lia.
Qed.

(** A member ends behind its value. *)
Lemma parse_member_shorter value s m rest :
  (∀ s' v r, value s' = Some (v, r) → (length r < length s')%nat) →
  parse_member value s = Some (m, rest) → (length rest < length s)%nat.
Proof.
  intros Hvalue. unfold parse_member. destruct s as [|c s1]; [done|].
  destruct (c =? 34)%N; [|done].
  destruct (parse_string s1) as [[key r1]|] eqn:Hkey; [|done].
  apply (parse_string_shorter _ _ _ _ (le_n _)) in Hkey.
  cbn [mbind option_bind].
  pose proof (length_skip_space r1) as Hr1.
  destruct (skip_space r1) as [|d r2]; [done|]. cbn [length] in Hr1.
  destruct (d =? 58)%N; [|done].
  pose proof (length_skip_space r2) as Hr2.
  destruct (value (skip_space r2)) as [[v r3]|] eqn:Hv; [|done].
  apply Hvalue in Hv. intros [= _ <-]. cbn [length]. lia.
Qed.

(** A member read by two readers of values that agree on the texts
    shorter than the member. *)
Lemma parse_member_ext value value' s :
  (∀ s', (length s' < length s)%nat → value s' = value' s') →
  parse_member value s = parse_member value' s.
Proof.
  intros Hext. unfold parse_member. destruct s as [|c s1]; [done|].
  destruct (c =? 34)%N; [|done].
  destruct (parse_string s1) as [[key r1]|] eqn:Hkey; [|done].
  apply (parse_string_shorter _ _ _ _ (le_n _)) in Hkey.
  cbn [mbind option_bind].
  pose proof (length_skip_space r1) as Hr1.
  destruct (skip_space r1) as [|d r2]; [done|]. cbn [length] in Hr1.
  destruct (d =? 58)%N; [|done].
  pose proof (length_skip_space r2) as Hr2.
  rewrite Hext; [done|]. cbn [length]. lia.
Qed.

(** Every value, every tail of an array and every tail of an object
    that is read takes at least one character. *)
Lemma parse_value_shorter fuel :
  (∀ s v r, parse_value fuel s = Some (v, r) → (length r < length s)%nat)
  ∧ (∀ s vs r, parse_elements fuel s = Some (vs, r) →
       (length r < length s)%nat)
  ∧ (∀ s ms r, parse_members fuel s = Some (ms, r) →
       (length r < length s)%nat).
Proof.
  induction fuel as [|fuel (IHv & IHe & IHm)]; [done|].
  split_and!; intros s x r; (destruct s as [|c s1]; [done|]).
  - cbn [parse_value length].
    destruct (c =? 34)%N.
    { destruct (parse_string s1) as [[str rest]|] eqn:Hs; [|done].
      apply (parse_string_shorter _ _ _ _ (le_n _)) in Hs.
      intros [= _ <-]. lia. }
    destruct (c =? 91)%N.
    { pose proof (length_skip_space s1) as Hs1.
      destruct (skip_space s1) as [|d s3]; [done|]. cbn [length] in Hs1.
      destruct (d =? 93)%N; [intros [= _ <-]; lia|].
      destruct (parse_value fuel (d :: s3)) as [[v rest]|] eqn:Hv; [|done].
      apply IHv in Hv. cbn [mbind option_bind length] in *.
      pose proof (length_skip_space rest) as Hrest.
      destruct (parse_elements fuel (skip_space rest)) as [[vs rest']|] eqn:He;
        [|done].
      apply IHe in He. intros [= _ <-]. lia. }
    destruct (c =? 123)%N.
    { pose proof (length_skip_space s1) as Hs1.
      destruct (skip_space s1) as [|d s3]; [done|]. cbn [length] in Hs1.
      destruct (d =? 125)%N; [intros [= _ <-]; lia|].
      destruct (parse_member (parse_value fuel) (d :: s3)) as [[m rest]|]
        eqn:Hm; [|done].
      apply (parse_member_shorter _ _ _ _ IHv) in Hm.
      cbn [mbind option_bind length] in *.
      pose proof (length_skip_space rest) as Hrest.
      destruct (parse_members fuel (skip_space rest)) as [[ms rest']|] eqn:He;
        [|done].
      apply IHm in He. intros [= _ <-]. lia. }
    destruct (c =? 116)%N.
    { destruct (expect (js "true") (c :: s1)) as [rest|] eqn:He; [|done].
      apply expect_length in He. cbn [length js] in He.
      intros [= _ <-]. simpl in He. lia. }
    destruct (c =? 102)%N.
    { destruct (expect (js "false") (c :: s1)) as [rest|] eqn:He; [|done].
      apply expect_length in He. cbn [length js] in He.
      intros [= _ <-]. simpl in He. lia. }
    destruct (c =? 110)%N.
    { destruct (expect (js "null") (c :: s1)) as [rest|] eqn:He; [|done].
      apply expect_length in He. cbn [length js] in He.
      intros [= _ <-]. simpl in He. lia. }
    destruct (parse_number (c :: s1)) as [[n rest]|] eqn:Hn; [|done].
    apply parse_number_shorter in Hn. cbn [length] in Hn.
    intros [= _ <-]. lia.
  - cbn [parse_elements length].
    destruct (c =? 93)%N; [intros [= _ <-]; lia|].
    destruct (c =? 44)%N; [|done].
    pose proof (length_skip_space s1) as Hs1.
    destruct (parse_value fuel (skip_space s1)) as [[v rest]|] eqn:Hv; [|done].
    apply IHv in Hv. cbn [mbind option_bind].
    pose proof (length_skip_space rest) as Hrest.
    destruct (parse_elements fuel (skip_space rest)) as [[vs rest']|] eqn:He;
      [|done].
    apply IHe in He. intros [= _ <-]. lia.
  - cbn [parse_members length].
    destruct (c =? 125)%N; [intros [= _ <-]; lia|].
    destruct (c =? 44)%N; [|done].
    pose proof (length_skip_space s1) as Hs1.
    destruct (parse_member (parse_value fuel) (skip_space s1))
      as [[m rest]|] eqn:Hm; [|done].
    apply (parse_member_shorter _ _ _ _ IHv) in Hm. cbn [mbind option_bind].
    pose proof (length_skip_space rest) as Hrest.
    destruct (parse_members fuel (skip_space rest)) as [[ms rest']|] eqn:He;
      [|done].
    apply IHm in He. intros [= _ <-]. lia.
Qed.

(** With a fuel above the length of the text, the result does not
    depend on the fuel. *)
Lemma parse_value_fuel fuel : ∀ fuel',
  (∀ s, (length s < fuel)%nat → (length s < fuel')%nat →
     parse_value fuel s = parse_value fuel' s)
  ∧ (∀ s, (length s < fuel)%nat → (length s < fuel')%nat →
       parse_elements fuel s = parse_elements fuel' s)
  ∧ (∀ s, (length s < fuel)%nat → (length s < fuel')%nat →
       parse_members fuel s = parse_members fuel' s).
Proof.
  induction fuel as [|fuel IH]; intros fuel'.
  { split_and!; intros s ?; lia. }
  destruct fuel' as [|fuel']; [split_and!; intros s ? ?; lia|].
  destruct (IH fuel') as (IHv & IHe & IHm).
  destruct (parse_value_shorter fuel) as (Sv & Se & Sm).
  split_and!; intros s Hf Hf'; (destruct s as [|c s1]; [done|]);
    cbn [length] in Hf, Hf'.
  - cbn [parse_value].
    destruct (c =? 34)%N; [done|].
    destruct (c =? 91)%N.
    { pose proof (length_skip_space s1) as Hs1.
      destruct (skip_space s1) as [|d s3]; [done|].
      destruct (d =? 93)%N; [done|].
      rewrite <- (IHv (d :: s3)) by lia.
      destruct (parse_value fuel (d :: s3)) as [[v rest]|] eqn:Hv; [|done].
      apply Sv in Hv. cbn [mbind option_bind].
      pose proof (length_skip_space rest) as Hrest.
      rewrite <- (IHe (skip_space rest)) by lia. done. }
    destruct (c =? 123)%N; [|done].
    pose proof (length_skip_space s1) as Hs1.
    destruct (skip_space s1) as [|d s3]; [done|].
    destruct (d =? 125)%N; [done|].
    rewrite <- (parse_member_ext (parse_value fuel) (parse_value fuel'))
      by (intros s' Hs'; apply IHv; lia).
    destruct (parse_member (parse_value fuel) (d :: s3)) as [[m rest]|]
      eqn:Hm; [|done].
    apply (parse_member_shorter _ _ _ _ Sv) in Hm. cbn [mbind option_bind].
    pose proof (length_skip_space rest) as Hrest.
    rewrite <- (IHm (skip_space rest)) by lia. done.
  - cbn [parse_elements].
    destruct (c =? 93)%N; [done|]. destruct (c =? 44)%N; [|done].
    pose proof (length_skip_space s1) as Hs1.
    rewrite <- (IHv (skip_space s1)) by lia.
    destruct (parse_value fuel (skip_space s1)) as [[v rest]|] eqn:Hv; [|done].
    apply Sv in Hv. cbn [mbind option_bind].
    pose proof (length_skip_space rest) as Hrest.
    rewrite <- (IHe (skip_space rest)) by lia. done.
  - cbn [parse_members].
    destruct (c =? 125)%N; [done|]. destruct (c =? 44)%N; [|done].
    pose proof (length_skip_space s1) as Hs1.
    rewrite <- (parse_member_ext (parse_value fuel) (parse_value fuel'))
      by (intros s' Hs'; apply IHv; lia).
    destruct (parse_member (parse_value fuel) (skip_space s1))
      as [[m rest]|] eqn:Hm; [|done].
    apply (parse_member_shorter _ _ _ _ Sv) in Hm. cbn [mbind option_bind].
    pose proof (length_skip_space rest) as Hrest.
    rewrite <- (IHm (skip_space rest)) by lia. done.
Qed.

(** [parse_text] gives the value of the text for every fuel above its
    length: it returns [None] only on a text outside the grammar. *)
Lemma parse_text_fuel s fuel :
  (length s < fuel)%nat →
  parse_text s
  = match parse_value fuel (skip_space s) with
    | Some (v, rest) => if decide (skip_space rest = []) then Some v else None
    | None => None
    end.
Proof.
  intros Hfuel. unfold parse_text.
  pose proof (length_skip_space s) as Hs.
  by rewrite (proj1 (parse_value_fuel (S (length s)) fuel)) by lia.
Qed.

(** ** Loading and saving *)

Lemma JSON_stringify_truthy P ts :
  truthy (Some (JSON_stringify P ts)) = true.
Proof. done. Qed.

(** The entry under "tasks" after [saveTasks]. *)
Lemma getItem_saveTasks P w :
  getItem "tasks" (saveTasks P w)
  = if storage_accepts P (localStorage w) "tasks" (JSON_stringify P (tasks w))
    then Some (JSON_stringify P (tasks w))
    else getItem "tasks" w.
Proof.
  rewrite saveTasks_eq. cbv zeta. unfold getItem.
  destruct (storage_accepts P _ _ _); [|done].
  cbn [localStorage set_localStorage]. apply lookup_insert_eq.
Qed.

(** [loadTasks] reads: apart from a line on the console it leaves the
    world as it is. *)
Lemma loadTasks_world P w :
  let w' := (loadTasks P w).2 in
  localStorage w' = localStorage w
  ∧ rootClasses w' = rootClasses w
  ∧ darkModeToggle_title w' = darkModeToggle_title w
  ∧ ∀ key, writes_to key (trace w') = writes_to key (trace w).
Proof.
  unfold loadTasks. destruct (truthy _); [|done].
  by destruct (JSON_parse P _).
Qed.

(** What [loadTasks] returns depends on the entry under "tasks"
    only. *)
Lemma loadTasks_getItem P w w' :
  getItem "tasks" w = getItem "tasks" w' →
  (loadTasks P w).1 = (loadTasks P w').1.
Proof.
  intros Heq. unfold loadTasks. rewrite Heq.
  destruct (truthy _); [|done]. by destruct (JSON_parse P _).
Qed.

(** C7, as the code has it, with [JSON.parse] by the grammar: for
    every array [C] of tasks whose ids are safe integers, when the
    storage takes the text, [loadTasks] after [saveTasks] returns [C],
    tasks, order and fields; when the storage refuses it, [saveTasks]
    puts the exception on the console, the entry stays as it was and
    [loadTasks] returns what it returned before.  On every platform
    [loadTasks] returns the empty array when no entry is stored, when
    the entry is the empty string, and when the stored text makes
    [JSON.parse] throw. *)
Theorem loadTasks_after_saveTasks P C w :
  Forall (λ t, safe_integer (id t)) C →
  let G := with_grammar P in
  let text := JSON_stringify G C in
  let w1 := saveTasks G (set_tasks C w) in
  (storage_accepts P (localStorage w) "tasks" text = true →
   (loadTasks G w1).1 = Some C ∧ getItem "tasks" w1 = Some text)
  ∧ (storage_accepts P (localStorage w) "tasks" text = false →
     (loadTasks G w1).1 = (loadTasks G w).1
     ∧ getItem "tasks" w1 = getItem "tasks" w
     ∧ trace w1 = ConsoleError "Error saving tasks:" :: SetItem "tasks" text
                  :: trace w)
  ∧ (getItem "tasks" w = None ∨ getItem "tasks" w = Some [] →
     (loadTasks P w).1 = Some [])
  ∧ (∀ saved, getItem "tasks" w = Some saved →
       JSON_parse P saved = SyntaxError → (loadTasks P w).1 = Some []).
Proof.
  intros Hsafe G text w1.
  pose proof (getItem_saveTasks G (set_tasks C w)) as Hget.
  fold w1 in Hget. cbn [tasks set_tasks localStorage] in Hget.
  change (storage_accepts G) with (storage_accepts P) in Hget.
  fold text in Hget.
  split_and!.
  - intros Hyes. rewrite Hyes in Hget. split; [|done].
    unfold loadTasks. rewrite Hget. subst text.
    rewrite JSON_stringify_truthy. change (default [] (Some ?x)) with x.
    change (JSON_parse G) with parse_by_grammar.
    by rewrite parse_by_grammar_JSON_stringify.
  - intros Hno. rewrite Hno in Hget. split_and!.
    + by apply loadTasks_getItem.
    + done.
    + subst w1. rewrite saveTasks_eq. cbv zeta.
      cbn [tasks set_tasks localStorage].
      change (storage_accepts G) with (storage_accepts P). fold text.
      by rewrite Hno.
  - intros [Hnone|Hempty]; unfold loadTasks; by rewrite ?Hnone, ?Hempty.
  - intros saved Hsaved Hparse. unfold loadTasks. rewrite Hsaved.
    destruct saved as [|c s]; [done|]. simpl. by rewrite Hparse.
Qed.

Lemma loadTasks_after_saveTasks_witness :
  (loadTasks (sample_platform true)
     (saveTasks (sample_platform true) (set_tasks [dog; odd; milk] blank_page))).1
  = Some [dog; odd; milk].
Proof.
  refine (proj1 (proj1 (loadTasks_after_saveTasks (sample_platform true)
                          [dog; odd; milk] blank_page _) _)).
  - repeat constructor; compute_done.
  - reflexivity.
Defined.

(** The claim of C7 fails when the storage refuses the write: the
    exception is caught in [saveTasks], and [loadTasks] then returns
    what the storage held before, not the array saved. *)
Lemma loadTasks_after_refused_write :
  let P := sample_platform false in
  let w1 := saveTasks P (set_tasks [dog; milk] blank_page) in
  (loadTasks P w1).1 = Some []
  ∧ (loadTasks P w1).1 ≠ Some [dog; milk]
  ∧ head (trace w1) = Some (ConsoleError "Error saving tasks:").
Proof. split_and!; (reflexivity || discriminate). Qed.

(** ** The stored theme *)

(** [enableDarkMode] and [disableDarkMode] in one equation. *)
Lemma apply_theme_eq P dark w :
  apply_theme P dark w
  = let w1 :=
      log (SetItem "theme" (theme_name dark))
        (set_theme (theme_classes dark w) (darkModeToggle_title w) w) in
    if storage_accepts P (localStorage w) "theme" (theme_name dark)
    then Returned undefined
           (set_theme (theme_classes dark w) (theme_title dark)
              (set_localStorage
                 (<["theme" := theme_name dark]> (localStorage w)) w1))
    else Threw StorageError w1.
Proof.
  destruct dark; unfold apply_theme, enableDarkMode, disableDarkMode, setItem;
    cbn [localStorage log set_theme theme_name];
    by destruct (storage_accepts P _ _ _).
Qed.

Lemma initDarkMode_eq P prefersDark w :
  initDarkMode P prefersDark w
  = apply_theme P (initial_dark prefersDark w) w.
Proof. unfold initDarkMode, initial_dark. by destruct (_ || _). Qed.

Lemma handleDarkModeToggle_eq P w :
  handleDarkModeToggle P w
  = apply_theme P (negb (bool_decide ("dark-mode" ∈ rootClasses w))) w.
Proof. unfold handleDarkModeToggle. by case_bool_decide. Qed.

(** What applying a theme writes, and what it leaves alone. *)
Lemma apply_theme_storage P dark w :
  let w' := world_of (apply_theme P dark w) in
  writes_to "theme" (trace w')
  = theme_name dark :: writes_to "theme" (trace w)
  ∧ getItem "theme" w'
    = (if storage_accepts P (localStorage w) "theme" (theme_name dark)
       then Some (theme_name dark) else getItem "theme" w)
  ∧ (∀ key, key ≠ "theme" →
       writes_to key (trace w') = writes_to key (trace w)
       ∧ localStorage w' !! key = localStorage w !! key)
  ∧ tasks w' = tasks w ∧ currentFilter w' = currentFilter w
  ∧ taskInput w' = taskInput w ∧ errorMessage w' = errorMessage w
  ∧ errorMessage_show w' = errorMessage_show w
  ∧ tasksContainer w' = tasksContainer w ∧ statsEls w' = statsEls w
  ∧ clearCompletedBtn_disabled w' = clearCompletedBtn_disabled w.
Proof.
  rewrite apply_theme_eq. cbv zeta. unfold getItem.
  assert (Hw : ∀ tr : list Effect,
            writes_to "theme" (SetItem "theme" (theme_name dark) :: tr)
            = theme_name dark :: writes_to "theme" tr).
  { intros tr. unfold writes_to. cbn [omap list_omap].
    by rewrite decide_True. }
  assert (Ho : ∀ (tr : list Effect) key, key ≠ "theme" →
            writes_to key (SetItem "theme" (theme_name dark) :: tr)
            = writes_to key tr).
  { intros tr key Hkey. unfold writes_to. cbn [omap list_omap].
    by rewrite decide_False. }
  destruct (storage_accepts P _ _ _);
    cbn [world_of trace localStorage set_theme set_localStorage log tasks
         currentFilter taskInput errorMessage errorMessage_show
         tasksContainer statsEls clearCompletedBtn_disabled].
  - split_and!; try done.
    + apply lookup_insert_eq.
    + intros key Hkey. rewrite Ho by done.
      by rewrite lookup_insert_ne by done.
  - split_and!; try done. intros key Hkey. by rewrite Ho.
Qed.

(** The theme [initDarkMode] settles on: the stored one when it is
    "dark", the system preference when nothing (or the empty string) is
    stored, and "light" otherwise. *)
Lemma theme_name_initial prefersDark w :
  theme_name (initial_dark prefersDark w)
  = if bool_decide (getItem "theme" w = Some (js "dark"))
       || (negb (truthy (getItem "theme" w)) && prefersDark)
    then js "dark" else js "light".
Proof. done. Qed.

(** No listener but the dark mode toggle writes the theme. *)
Lemma dispatch_theme_untouched P ev w :
  ev ≠ EvDarkModeToggle →
  writes_to "theme" (trace (world_of (dispatch P ev w)))
  = writes_to "theme" (trace w)
  ∧ localStorage (world_of (dispatch P ev w)) !! "theme"
    = localStorage w !! "theme".
Proof.
  intros Hev.
  assert (Hsaved : ∀ w', save_called P w w' →
            writes_to "theme" (trace w') = writes_to "theme" (trace w)
            ∧ localStorage w' !! "theme" = localStorage w !! "theme").
  { intros w' Hs. by apply (proj2 (save_called_writes P w w' Hs)). }
  destruct ev as [v|now iso|i|i|c|f| |];
    rewrite ?dispatch_submit; cbn [dispatch]; try done.
  - destruct (input_accepted_cases w) as [He|[Hl|[Hne Hlen]]].
    + by rewrite handleAddTask_rejects_empty.
    + by rewrite handleAddTask_rejects_long.
    + apply Hsaved. by apply handleAddTask_fields.
  - unfold handleToggleComplete.
    destruct (list_find _ (tasks w)) as [[j t]|]; [|done].
    apply Hsaved, save_render_called.
  - apply Hsaved, save_render_called.
  - destruct (clearCompletedBtn_disabled w); [done|].
    destruct c; [|done].
    apply Hsaved, save_render_called.
  - unfold handleFilterChange.
    by rewrite render_trace, render_localStorage.
Qed.

(** The constructor up to the theme: what [loadTasks] and the two
    assignments leave is a world with the storage, the classes and the
    log of [w]. *)
Lemma new_TaskManager_theme P prefersDark w :
  ∃ w0,
    localStorage w0 = localStorage w
    ∧ rootClasses w0 = rootClasses w
    ∧ darkModeToggle_title w0 = darkModeToggle_title w
    ∧ (∀ key, writes_to key (trace w0) = writes_to key (trace w))
    ∧ let w1 := world_of (initDarkMode P prefersDark w0) in
      let w' := start_world (new_TaskManager P prefersDark w) in
      localStorage w' = localStorage w1 ∧ trace w' = trace w1
      ∧ rootClasses w' = rootClasses w1
      ∧ darkModeToggle_title w' = darkModeToggle_title w1.
Proof.
  unfold new_TaskManager.
  pose proof (loadTasks_world P w) as (Hst & Hcl & Hti & Htr).
  destruct (loadTasks P w) as [[ts|] w1]; cbn [snd] in Hst, Hcl, Hti, Htr.
  - exists (set_currentFilter (Some (js "all")) (set_tasks ts w1)).
    do 4 (split; [done|]). cbv zeta. unfold init.
    destruct (initDarkMode P prefersDark _) as [v w2|e w2];
      cbn [and_then start_world world_of]; [|done].
    pose proof (render_frame P w2) as (_ & _ & _ & _ & _ & _ & ? & ? & ? & ?).
    done.
  - exists (set_currentFilter (Some (js "all")) w1).
    do 4 (split; [done|]). cbv zeta.
    by destruct (initDarkMode P prefersDark _) as [v w2|e w2].
Qed.

(** C9, as the code has it: the constructor reads the stored theme,
    falls back on the system preference when none is stored, and calls
    [setItem] on the "theme" key with the theme it settled on, once;
    the dark mode toggle calls it with the opposite of the theme on
    display, once; no other listener writes the key or changes its
    entry.  After a write the entry is the theme written, unless the
    storage has refused it. *)
Theorem theme_written_at_startup_and_on_toggle P prefersDark w :
  (let theme :=
     if bool_decide (getItem "theme" w = Some (js "dark"))
        || (negb (truthy (getItem "theme" w)) && prefersDark)
     then js "dark" else js "light" in
   let w' := start_world (new_TaskManager P prefersDark w) in
   writes_to "theme" (trace w') = theme :: writes_to "theme" (trace w)
   ∧ getItem "theme" w'
     = if storage_accepts P (localStorage w) "theme" theme
       then Some theme else getItem "theme" w)
  ∧ (let theme :=
       if bool_decide ("dark-mode" ∈ rootClasses w)
       then js "light" else js "dark" in
     let w' := world_of (dispatch P EvDarkModeToggle w) in
     writes_to "theme" (trace w') = theme :: writes_to "theme" (trace w)
     ∧ getItem "theme" w'
       = if storage_accepts P (localStorage w) "theme" theme
         then Some theme else getItem "theme" w)
  ∧ (∀ ev, ev ≠ EvDarkModeToggle →
       writes_to "theme" (trace (world_of (dispatch P ev w)))
       = writes_to "theme" (trace w)
       ∧ getItem "theme" (world_of (dispatch P ev w)) = getItem "theme" w).
Proof.
  split_and!.
  - cbv zeta. rewrite <- theme_name_initial.
    destruct (new_TaskManager_theme P prefersDark w)
      as (w0 & Hst & _ & _ & Htr & Hw').
    cbv zeta in Hw'. destruct Hw' as (Hst' & Htr' & _).
    rewrite initDarkMode_eq in Hst', Htr'.
    pose proof (apply_theme_storage P (initial_dark prefersDark w0) w0)
      as (Hwr & Hget & _).
    assert (Hinit : initial_dark prefersDark w0 = initial_dark prefersDark w).
    { unfold initial_dark, getItem. by rewrite Hst. }
    rewrite Hinit in Hst', Htr', Hwr, Hget. unfold getItem in *.
    rewrite Htr', Hst', Hwr, Hget, Hst. by rewrite Htr.
  - cbn [dispatch]. rewrite handleDarkModeToggle_eq.
    pose proof (apply_theme_storage P
                  (negb (bool_decide ("dark-mode" ∈ rootClasses w))) w)
      as (Hwr & Hget & _).
    replace (if bool_decide ("dark-mode" ∈ rootClasses w)
             then js "light" else js "dark")
      with (theme_name (negb (bool_decide ("dark-mode" ∈ rootClasses w))))
      by (by destruct (bool_decide _)).
    by split.
  - intros ev Hev. apply dispatch_theme_untouched, Hev.
Qed.

Lemma theme_written_at_startup_and_on_toggle_witness :
  writes_to "theme"
    (trace (world_of (dispatch (sample_platform true) (EvDelete 7)
              (world_of (init (sample_platform true) false blank_page)))))
  = writes_to "theme"
      (trace (world_of (init (sample_platform true) false blank_page))).
Proof.
  apply (proj2 (proj2 (theme_written_at_startup_and_on_toggle
                         (sample_platform true) false
                         (world_of (init (sample_platform true) false
                                      blank_page))))
           (EvDelete 7)).
  discriminate.
Defined.

(** The claim of C9 that start-up only reads the theme fails: loaded on
    a page with an empty storage and no preference for dark, the
    application has written "light" under "theme" before any event. *)
Lemma startup_writes_theme :
  let w := start_world (new_TaskManager (sample_platform true) false
                          blank_page) in
  getItem "theme" blank_page = None
  ∧ ¬ (writes_to "theme" (trace w) = writes_to "theme" (trace blank_page))
  ∧ getItem "theme" w = Some (js "light").
Proof. split_and!; [reflexivity | discriminate | reflexivity]. Qed.

(** * Further properties *)

(** ** The display follows the state *)

(** What a [render] leaves on the page. *)
Lemma render_display P w :
  let o := render P w in
  tasksContainer (world_of o) = view_markup (world_of o)
  ∧ (threw o = false → stats_in_sync (world_of o)).
Proof.
  cbv zeta. split.
  - rewrite render_tasksContainer. symmetry.
    apply view_markup_ext; [apply render_tasks | apply render_currentFilter].
  - rewrite render_eq. destruct (renders P w); [|done].
    intros _. apply updateStats_in_sync.
Qed.

Lemma stats_in_sync_ext w w' :
  tasks w = tasks w' → statsEls w = statsEls w' →
  clearCompletedBtn_disabled w = clearCompletedBtn_disabled w' →
  stats_in_sync w → stats_in_sync w'.
Proof.
  unfold stats_in_sync. intros Ht Hs Hb.
  by rewrite (calculateStats_ext w w' Ht), Ht, Hs, Hb.
Qed.

Lemma container_ext w w' :
  tasks w = tasks w' → currentFilter w = currentFilter w' →
  tasksContainer w = tasksContainer w' →
  tasksContainer w = view_markup w → tasksContainer w' = view_markup w'.
Proof.
  intros Ht Hf Hc Hw. by rewrite <- Hc, Hw, (view_markup_ext w w' Ht Hf).
Qed.

(** A listener leaves the container with the markup of the view, and,
    when it does not throw, the counters with the tasks. *)
Lemma dispatch_display P ev w :
  let o := dispatch P ev w in
  (tasksContainer w = view_markup w →
   tasksContainer (world_of o) = view_markup (world_of o))
  ∧ (stats_in_sync w → threw o = false → stats_in_sync (world_of o)).
Proof.
  destruct ev as [v|now iso|i|i|c|f| |];
    rewrite ?dispatch_submit; cbn [dispatch]; cbv zeta.
  - split; [by apply container_ext | intros ? _; by eapply stats_in_sync_ext].
  - destruct (input_accepted_cases w) as [He|[Hl|[Hne Hlen]]].
    + rewrite handleAddTask_rejects_empty by done.
      split; [by apply container_ext
             | intros ? _; by eapply stats_in_sync_ext].
    + rewrite handleAddTask_rejects_long by done.
      split; [by apply container_ext
             | intros ? _; by eapply stats_in_sync_ext].
    + rewrite handleAddTask_world by done.
      set (w0 := saveTasks P _).
      destruct (render_display P w0) as [Hc Hs].
      rewrite render_outcome in Hs.
      destruct (renders P (world_of (render P w0))); cbn [world_of threw] in *.
      * split; intros _; [by eapply container_ext|].
        intros _. eapply stats_in_sync_ext; [| | | by apply Hs]; done.
      * by split.
  - unfold handleToggleComplete.
    destruct (list_find _ (tasks w)) as [[j t]|].
    + destruct (render_display P (saveTasks P (set_tasks
                  (<[j := mkTask (id t) (text t) (negb (completed t))
                                  (createdAt t)]> (tasks w)) w))).
      by split.
    + by split.
  - unfold handleDeleteTask.
    destruct (render_display P (saveTasks P (set_tasks
                (filter (λ t, id t ≠ i) (tasks w)) w))).
    by split.
  - destruct (clearCompletedBtn_disabled w) eqn:Hdis; [by split|].
    destruct c; [|by split]. unfold handleClearCompleted.
    destruct (render_display P (saveTasks P (set_tasks
                (filter (λ t, completed t = false) (tasks w)) w))).
    by split.
  - unfold handleFilterChange.
    match goal with |- context [render P ?w0] =>
      destruct (render_display P w0) end.
    by split.
  - rewrite handleDarkModeToggle_eq.
    pose proof (apply_theme_storage P
                  (negb (bool_decide ("dark-mode" ∈ rootClasses w))) w)
      as (_ & _ & _ & Ht & Hf & _ & _ & _ & Hc & Hs & Hb).
    split; [by apply container_ext
           | intros ? _; by eapply stats_in_sync_ext].
  - split; [by apply container_ext | intros ? _; by eapply stats_in_sync_ext].
Qed.

Lemma run_cons P ev evs w :
  run P (ev :: evs) w = run P evs (world_of (dispatch P ev w)).
Proof. done. Qed.

Lemma run_display P evs : ∀ w,
  (tasksContainer w = view_markup w →
   tasksContainer (run P evs w) = view_markup (run P evs w))
  ∧ (stats_in_sync w → no_throw P evs w = true →
     stats_in_sync (run P evs w)).
Proof.
  induction evs as [|ev evs IH]; intros w; [by split|].
  rewrite run_cons. destruct (dispatch_display P ev w) as [Hc Hs].
  destruct (IH (world_of (dispatch P ev w))) as [IHc IHs].
  split; [by intros ?; apply IHc, Hc|].
  intros Hw [Hev Hrun]%andb_true_iff.
  apply IHs; [|done]. apply Hs; [done|]. by apply negb_true_iff.
Qed.

(** What the constructor does with the tasks it has loaded. *)
Lemma new_TaskManager_started P prefersDark w ts :
  (loadTasks P w).1 = Some ts →
  new_TaskManager P prefersDark w
  = Started (init P prefersDark
               (set_currentFilter (Some (js "all"))
                  (set_tasks ts (loadTasks P w).2))).
Proof.
  unfold new_TaskManager. destruct (loadTasks P w) as [loaded w1].
  cbn [fst snd]. by intros ->.
Qed.

Lemma new_TaskManager_loaded P prefersDark w o :
  new_TaskManager P prefersDark w = Started o →
  (∃ ts, (loadTasks P w).1 = Some ts
     ∧ o = init P prefersDark
             (set_currentFilter (Some (js "all"))
                (set_tasks ts (loadTasks P w).2)))
  ∨ ((loadTasks P w).1 = None ∧ ∃ w', o = Threw StorageError w').
Proof.
  unfold new_TaskManager. destruct (loadTasks P w) as [[ts|] w1];
    cbn [fst snd].
  - intros [= <-]. left. by exists ts.
  - rewrite initDarkMode_eq, apply_theme_eq. cbv zeta.
    destruct (storage_accepts P _ _ _); [done|].
    intros [= <-]. right. split; [done|]. by eexists.
Qed.

(** The world [init] leaves, when it returns. *)
Lemma init_returned P prefersDark w v w' :
  init P prefersDark w = Returned v w' →
  v = undefined
  ∧ tasks w' = tasks w ∧ currentFilter w' = currentFilter w
  ∧ tasksContainer w' = view_markup w' ∧ stats_in_sync w'
  ∧ getItem "tasks" w' = getItem "tasks" w.
Proof.
  unfold init. rewrite initDarkMode_eq.
  pose proof (apply_theme_storage P (initial_dark prefersDark w) w)
    as (_ & _ & Hkeys & Ht & Hf & _).
  destruct (Hkeys "tasks") as [_ Hst]; [done|].
  destruct (apply_theme P (initial_dark prefersDark w) w) as [v1 w1|e w1];
    cbn [and_then world_of] in *; [|done].
  intros Hr. destruct (render_display P w1) as [Hc Hs].
  pose proof (render_frame P w1) as (Ht1 & Hf1 & _ & _ & _ & _ & _ & _ & Hl1 & _).
  rewrite Hr in Hc, Hs, Ht1, Hf1, Hl1. cbn [world_of threw] in *.
  rewrite render_eq in Hr. destruct (renders P w1); [|done].
  injection Hr as <- _.
  unfold getItem. rewrite Hl1.
  split_and!; [done | congruence | congruence | done | by apply Hs | done].
Qed.

(** X1: when the constructor has returned, after every run of events
    the markup in the task container is the one [renderTasks] builds
    for the view of the tasks under the current filter; and when no
    listener of the run has thrown, the three counters are those of
    [calculateStats] and the clear button is disabled exactly when no
    task is completed. *)
Theorem display_follows_state P prefersDark w0 w1 evs :
  new_TaskManager P prefersDark w0 = Started (Returned undefined w1) →
  let w := run P evs w1 in
  tasksContainer w = view_markup w
  ∧ (no_throw P evs w1 = true →
     statsEls w = calculateStats w
     ∧ clearCompletedBtn_disabled w
       = bool_decide (filter (λ t, completed t = true) (tasks w) = [])).
Proof.
  intros Hstart w.
  destruct (new_TaskManager_loaded P prefersDark w0 _ Hstart)
    as [(ts & _ & Hinit)|(_ & w' & [=])].
  symmetry in Hinit. apply init_returned in Hinit as (_ & _ & _ & Hc & Hs & _).
  destruct (run_display P evs w1) as [Hrc Hrs].
  split; [by apply Hrc | intros Hno; by apply Hrs].
Qed.

Lemma display_follows_state_witness :
  let P := sample_platform true in
  let w1 := world_of (init P false
              (set_currentFilter (Some (js "all")) blank_page)) in
  let w := run P [EvInput (js "Buy milk"); EvSubmit 1 (js "t1");
                  EvToggle 1; EvFilter (Some (js "pending"))] w1 in
  tasksContainer w = EmptyState (js "No pending tasks.")
  ∧ statsEls w = Stats.mk 1 1 0.
Proof.
  cbv zeta.
  set (P := sample_platform true).
  set (w1 := world_of (init P false
               (set_currentFilter (Some (js "all")) blank_page))).
  set (evs := [EvInput (js "Buy milk"); EvSubmit 1 (js "t1");
               EvToggle 1; EvFilter (Some (js "pending"))]).
  assert (Hstart : new_TaskManager P false blank_page
                   = Started (Returned undefined w1))
    by (vm_compute; reflexivity).
  assert (Hno : no_throw P evs w1 = true) by (vm_compute; reflexivity).
  destruct (display_follows_state P false blank_page w1 evs Hstart)
    as [Hc Hs].
  split.
  - rewrite Hc. vm_compute. reflexivity.
  - rewrite (proj1 (Hs Hno)). vm_compute. reflexivity.
Defined.

(** ** The stored tasks follow the array *)

Lemma save_render_stored P w ts :
  always_accepts P "tasks" →
  tasks_stored P (world_of (render P (saveTasks P (set_tasks ts w)))).
Proof.
  intros Hacc. unfold tasks_stored, getItem.
  rewrite render_localStorage, render_tasks.
  pose proof (getItem_saveTasks P (set_tasks ts w)) as Hget.
  rewrite Hacc in Hget. unfold getItem in Hget.
  by rewrite Hget, saveTasks_tasks.
Qed.

(** A listener leaves the array and its stored text alone, or calls
    [saveTasks] on the array it leaves. *)
Lemma dispatch_tasks_storage P ev w :
  let w' := world_of (dispatch P ev w) in
  (tasks w' = tasks w ∧ getItem "tasks" w' = getItem "tasks" w)
  ∨ save_called P w w'.
Proof.
  destruct ev as [v|now iso|i|i|c|f| |];
    rewrite ?dispatch_submit; cbn [dispatch]; cbv zeta.
  - by left.
  - destruct (input_accepted_cases w) as [He|[Hl|[Hne Hlen]]].
    + left. by rewrite handleAddTask_rejects_empty.
    + left. by rewrite handleAddTask_rejects_long.
    + right. by apply handleAddTask_fields.
  - unfold handleToggleComplete.
    destruct (list_find _ (tasks w)) as [[j t]|]; [right | by left].
    apply save_render_called.
  - right. apply save_render_called.
  - destruct (clearCompletedBtn_disabled w); [by left|].
    destruct c; [right | by left]. apply save_render_called.
  - left. unfold handleFilterChange, getItem.
    by rewrite render_tasks, render_localStorage.
  - left. rewrite handleDarkModeToggle_eq.
    pose proof (apply_theme_storage P
                  (negb (bool_decide ("dark-mode" ∈ rootClasses w))) w)
      as (_ & _ & Hkeys & Ht & _).
    split; [done|]. by apply Hkeys.
  - by left.
Qed.

Lemma save_called_stored P w w' :
  always_accepts P "tasks" → save_called P w w' → tasks_stored P w'.
Proof.
  intros Hacc. unfold save_called, tasks_stored, getItem.
  rewrite Hacc. intros [_ ->]. apply lookup_insert_eq.
Qed.

(** X2: on a storage that takes every write under "tasks", after every
    run of events either no event has changed the array or written
    under "tasks" since the start of the run, or the entry under
    "tasks" is the serialisation of the array as it is now.  Whatever
    the storage does, an event leaves the array and the entry as they
    were or calls [saveTasks] on the array it leaves; when the storage
    refuses that write the array has changed and the entry has not. *)
Theorem storage_follows_tasks P evs w0 :
  (always_accepts P "tasks" →
   let w := run P evs w0 in
   (tasks w = tasks w0 ∧ getItem "tasks" w = getItem "tasks" w0)
   ∨ tasks_stored P w)
  ∧ (∀ ev,
       let w' := world_of (dispatch P ev w0) in
       (tasks w' = tasks w0 ∧ getItem "tasks" w' = getItem "tasks" w0)
       ∨ (save_called P w0 w'
          ∧ (storage_accepts P (localStorage w0) "tasks"
               (JSON_stringify P (tasks w')) = false →
             getItem "tasks" w' = getItem "tasks" w0))).
Proof.
  split.
  - intros Hacc. revert w0.
    induction evs as [|ev evs IH]; intros w0; [by left|].
    rewrite run_cons. cbv zeta.
    destruct (IH (world_of (dispatch P ev w0))) as [[Ht Hs]|Hstored];
      [|by right].
    destruct (dispatch_tasks_storage P ev w0) as [[Ht0 Hs0]|Hsaved].
    + left. by rewrite Ht, Hs.
    + right. apply (save_called_stored P w0) in Hsaved; [|done].
      unfold tasks_stored in *. by rewrite Ht, Hs.
  - intros ev. cbv zeta.
    destruct (dispatch_tasks_storage P ev w0) as [?|Hsaved]; [by left|].
    right. split; [done|]. intros Hno.
    unfold save_called in Hsaved. rewrite Hno in Hsaved.
    unfold getItem. by destruct Hsaved as [_ ->].
Qed.

Lemma storage_follows_tasks_witness :
  let P := sample_platform true in
  let w := run P [EvInput (js "Buy milk"); EvSubmit 1 (js "t1"); EvToggle 1]
             blank_page in
  getItem "tasks" w = Some (JSON_stringify P (tasks w)).
Proof.
  cbv zeta.
  destruct (proj1 (storage_follows_tasks (sample_platform true)
              [EvInput (js "Buy milk"); EvSubmit 1 (js "t1"); EvToggle 1]
              blank_page) (λ _ _, eq_refl)) as [[Ht _]|Hstored].
  - vm_compute in Ht. discriminate.
  - exact Hstored.
Defined.

(** The tasks [JSON.parse] by the grammar returns have safe ids. *)
Lemma as_task_safe v t : as_task v = Some t → safe_integer (id t).
Proof.
  unfold as_task.
  destruct v as [| | | |l|[|[k1 [| |n| | |]] [|[k2 [| | |x| |]]
    [|[k3 [|c| | | |]] [|[k4 [| | |d| |]] [|? ?]]]]]]; try done.
  case_decide; [|done].
  destruct (numeral_integer n) as [z|]; [|done]. cbn [mbind option_bind].
  case_decide; [|done]. by intros [= <-].
Qed.

Lemma parse_by_grammar_safe s ts :
  parse_by_grammar s = ParsedTasks ts →
  Forall (λ t, safe_integer (id t)) ts.
Proof.
  unfold parse_by_grammar. destruct (parse_text s) as [v|]; [|done].
  destruct (as_tasks v) as [ts'|] eqn:Hv; [|done]. intros [= <-].
  destruct v; try done. cbn [as_tasks] in Hv.
  apply mapM_Some in Hv. induction Hv as [|v t vs ts Hvt _ IH]; [done|].
  constructor; [by eapply as_task_safe | done].
Qed.

Lemma loadTasks_safe P w ts :
  (loadTasks (with_grammar P) w).1 = Some ts →
  Forall (λ t, safe_integer (id t)) ts.
Proof.
  unfold loadTasks. destruct (truthy _); [|by intros [= <-]].
  change (JSON_parse (with_grammar P)) with parse_by_grammar.
  destruct (parse_by_grammar _) eqn:Hp; cbn [fst]; try done.
  - by intros [= <-].
  - intros [= <-]. by eapply parse_by_grammar_safe.
Qed.

Lemma dispatch_reloadable P ev w :
  let G := with_grammar P in
  always_accepts P "tasks" →
  (∀ now iso, ev = EvSubmit now iso → safe_integer now) →
  reloadable G w → reloadable G (world_of (dispatch G ev w)).
Proof.
  intros G Hacc Hclock [Hload Hsafe].
  assert (Hsafe' : Forall (λ t, safe_integer (id t))
                     (tasks (world_of (dispatch G ev w)))).
  { destruct (dispatch_tasks_shape G ev w)
      as [[Hsub _]|(now & iso & -> & _ & ->)].
    - apply Forall_forall. intros t' Hin.
      assert (Hid : identity t' ∈ identity <$> tasks w).
      { eapply elem_of_sublist; [|exact Hsub].
        apply list_elem_of_fmap. by exists t'. }
      apply list_elem_of_fmap in Hid as (t & Heq & Ht).
      rewrite Forall_forall in Hsafe. specialize (Hsafe t Ht).
      unfold identity in Heq. injection Heq as Hid _ _. by rewrite Hid.
    - constructor; [|done]. by eapply Hclock. }
  split; [|done].
  destruct (dispatch_tasks_storage G ev w) as [[Ht Hs]|Hsaved].
  - rewrite Ht, <- Hload. by apply loadTasks_getItem.
  - apply (save_called_stored G w) in Hsaved; [|done].
    unfold tasks_stored in Hsaved. unfold loadTasks.
    rewrite Hsaved, JSON_stringify_truthy.
    change (default [] (Some ?x)) with x.
    change (JSON_parse G) with parse_by_grammar.
    by rewrite parse_by_grammar_JSON_stringify.
Qed.

Lemma run_reloadable P evs : ∀ w,
  let G := with_grammar P in
  always_accepts P "tasks" →
  (∀ now iso, EvSubmit now iso ∈ evs → safe_integer now) →
  reloadable G w → reloadable G (run G evs w).
Proof.
  induction evs as [|ev evs IH]; intros w G Hacc Hclock Hw; [done|].
  rewrite run_cons. apply IH; [done | |].
  - intros now iso Hin. eapply Hclock. apply elem_of_cons. by right.
  - apply dispatch_reloadable; [done | | done].
    intros now iso ->. eapply Hclock. apply elem_of_cons. by left.
Qed.

(** What [init] leaves of the tasks, however it ends. *)
Lemma init_tasks P prefersDark w :
  tasks (world_of (init P prefersDark w)) = tasks w
  ∧ currentFilter (world_of (init P prefersDark w)) = currentFilter w
  ∧ getItem "tasks" (world_of (init P prefersDark w)) = getItem "tasks" w.
Proof.
  unfold init. rewrite initDarkMode_eq.
  pose proof (apply_theme_storage P (initial_dark prefersDark w) w)
    as (_ & _ & Hkeys & Ht & Hf & _).
  destruct (Hkeys "tasks") as [_ Hst]; [done|].
  destruct (apply_theme P (initial_dark prefersDark w) w) as [v1 w1|e w1];
    cbn [and_then world_of] in *; [|done].
  unfold getItem.
  by rewrite render_tasks, render_currentFilter, render_localStorage.
Qed.

Lemma loadTasks_storage P w :
  getItem "tasks" (loadTasks P w).2 = getItem "tasks" w.
Proof.
  unfold getItem. by destruct (loadTasks_world P w) as [-> _].
Qed.

(** X3: with [JSON.parse] by the grammar, on a storage that takes
    every write under "tasks" and with clock readings that are safe
    integers, a reload of the page at any moment of a session restores
    the array as it was, completed flags and order included, whatever
    the system preference then is; the filter is back on "all". *)
Theorem reload_restores_tasks P prefersDark w0 evs prefersDark' :
  let G := with_grammar P in
  always_accepts P "tasks" →
  (∀ now iso, EvSubmit now iso ∈ evs → safe_integer now) →
  listening (new_TaskManager G prefersDark w0) →
  let w := run G evs (start_world (new_TaskManager G prefersDark w0)) in
  ∃ o', new_TaskManager G prefersDark' w = Started o'
    ∧ tasks (world_of o') = tasks w
    ∧ currentFilter (world_of o') = Some (js "all").
Proof.
  intros G Hacc Hclock Hstart w.
  assert (Hw : reloadable G w).
  { apply run_reloadable; [done | done |].
    destruct (new_TaskManager G prefersDark w0) as [o|w'] eqn:Hs; [|done].
    destruct (new_TaskManager_loaded G prefersDark w0 o Hs)
      as [(ts & Hload & ->)|(_ & w' & ->)]; [|done].
    cbn [start_world].
    destruct (init_tasks G prefersDark
                (set_currentFilter (Some (js "all"))
                   (set_tasks ts (loadTasks G w0).2)))
      as (Ht & _ & Hst).
    split.
    - rewrite Ht. cbn [tasks set_currentFilter set_tasks].
      rewrite <- Hload. apply loadTasks_getItem.
      rewrite Hst. apply loadTasks_storage.
    - rewrite Ht. by eapply loadTasks_safe. }
  destruct Hw as [Hload _].
  rewrite (new_TaskManager_started G prefersDark' w _ Hload).
  eexists. split; [done|].
  destruct (init_tasks G prefersDark'
              (set_currentFilter (Some (js "all"))
                 (set_tasks (tasks w) (loadTasks G w).2))) as (Ht & Hf & _).
  by rewrite Ht, Hf.
Qed.

Lemma reload_restores_tasks_witness :
  let P := sample_platform true in
  let w := run P [EvInput (js "Buy milk"); EvSubmit 1 (js "t1"); EvToggle 1;
                  EvFilter (Some (js "completed"))]
             (start_world (new_TaskManager P false blank_page)) in
  ∃ o', new_TaskManager P true w = Started o'
    ∧ tasks (world_of o') = [mkTask 1 (js "Buy milk") true (js "t1")].
Proof.
  cbv zeta.
  destruct (reload_restores_tasks (sample_platform true) false blank_page
              [EvInput (js "Buy milk"); EvSubmit 1 (js "t1"); EvToggle 1;
               EvFilter (Some (js "completed"))] true)
    as (o' & Ho' & Ht & _).
  - done.
  - intros now iso Hin. apply list_elem_of_In in Hin. simpl in Hin.
    destruct Hin as [[=]|[[= <- _]|[[=]|[[=]|[]]]]]. compute_done.
  - exact I.
  - exists o'. split; [exact Ho'|]. rewrite Ht. reflexivity.
Defined.

(** ** Start-up without usable data *)

Lemma getFilteredTasks_nil w : tasks w = [] → getFilteredTasks w = [].
Proof.
  intros Ht. unfold getFilteredTasks. rewrite Ht.
  destruct (currentFilter w); [|done]. by repeat case_decide.
Qed.

Lemma renders_nil P w : tasks w = [] → renders P w = true.
Proof.
  intros Ht. unfold renders. rewrite (getFilteredTasks_nil w Ht).
  by rewrite bool_decide_eq_true_2.
Qed.

Lemma view_markup_first_use w :
  tasks w = [] → currentFilter w = Some (js "all") →
  view_markup w = EmptyState (js "No tasks yet. Add one to get started!").
Proof.
  intros Ht Hf. unfold view_markup.
  rewrite (getFilteredTasks_nil w Ht), Hf.
  rewrite decide_True by done. by rewrite decide_True.
Qed.

(** [init] in one equation: the theme, then the first [render]. *)
Lemma init_eq P prefersDark w :
  init P prefersDark w
  = let dark := initial_dark prefersDark w in
    let w1 :=
      log (SetItem "theme" (theme_name dark))
        (set_theme (theme_classes dark w) (darkModeToggle_title w) w) in
    if storage_accepts P (localStorage w) "theme" (theme_name dark)
    then render P
           (set_theme (theme_classes dark w) (theme_title dark)
              (set_localStorage
                 (<["theme" := theme_name dark]> (localStorage w)) w1))
    else Threw StorageError w1.
Proof.
  unfold init. rewrite initDarkMode_eq, apply_theme_eq. cbv zeta.
  by destruct (storage_accepts P _ _ _).
Qed.

(** What [loadTasks] does when there is nothing it can use. *)
Lemma loadTasks_unusable P w :
  getItem "tasks" w = None
  ∨ (∃ saved, getItem "tasks" w = Some saved
       ∧ JSON_parse P saved = SyntaxError) →
  loadTasks P w = (Some [], w)
  ∨ loadTasks P w = (Some [], log (ConsoleError "Error loading tasks:") w).
Proof.
  unfold loadTasks. intros [->|(saved & -> & Hparse)]; [by left|].
  destruct saved as [|c s]; [by left|]. cbv zeta. cbn [truthy].
  change (default [] (Some (c :: s))) with (c :: s).
  rewrite Hparse. by right.
Qed.

(** X4: when nothing is stored under "tasks", or [JSON.parse] throws on
    what is stored, the application starts with no task and the filter
    "all", and the entry under "tasks" is left as it was found.  When
    the storage takes the theme, the constructor returns with the
    first-use message in the container, the three counters at zero and
    the clear button disabled; when it refuses the theme, the
    constructor ends with the exception of that write, before the
    first [render]: container, counters and button are as the page was
    loaded. *)
Theorem startup_without_usable_data P prefersDark w0 :
  getItem "tasks" w0 = None
  ∨ (∃ saved, getItem "tasks" w0 = Some saved
       ∧ JSON_parse P saved = SyntaxError) →
  let s := new_TaskManager P prefersDark w0 in
  let w := start_world s in
  let theme := theme_name (initial_dark prefersDark w0) in
  tasks w = []
  ∧ currentFilter w = Some (js "all")
  ∧ getItem "tasks" w = getItem "tasks" w0
  ∧ (storage_accepts P (localStorage w0) "theme" theme = true →
     s = Started (Returned undefined w)
     ∧ tasksContainer w
       = EmptyState (js "No tasks yet. Add one to get started!")
     ∧ statsEls w = Stats.mk 0 0 0
     ∧ clearCompletedBtn_disabled w = true)
  ∧ (storage_accepts P (localStorage w0) "theme" theme = false →
     s = Started (Threw StorageError w)
     ∧ tasksContainer w = tasksContainer w0
     ∧ statsEls w = statsEls w0
     ∧ clearCompletedBtn_disabled w = clearCompletedBtn_disabled w0).
Proof.
  intros Hdata s w theme. subst s w theme.
  assert (Hload : ∃ wl, loadTasks P w0 = (Some [], wl)
            ∧ localStorage wl = localStorage w0
            ∧ tasksContainer wl = tasksContainer w0
            ∧ statsEls wl = statsEls w0
            ∧ clearCompletedBtn_disabled wl = clearCompletedBtn_disabled w0).
  { destruct (loadTasks_unusable P w0 Hdata) as [H|H];
      eexists; (split; [exact H|done]). }
  destruct Hload as (wl & Hload & Hst & Hc & Hs & Hb).
  unfold new_TaskManager. rewrite Hload. rewrite init_eq. cbv zeta.
  set (w2 := set_currentFilter (Some (js "all")) (set_tasks [] wl)).
  assert (Hdark : initial_dark prefersDark w2 = initial_dark prefersDark w0).
  { unfold initial_dark, getItem. subst w2.
    cbn [localStorage set_currentFilter set_tasks]. by rewrite Hst. }
  rewrite Hdark.
  change (localStorage w2) with (localStorage wl). rewrite Hst.
  destruct (storage_accepts P (localStorage w0) "theme"
              (theme_name (initial_dark prefersDark w0))) eqn:Hacc.
  - match goal with |- context [render P ?x] => set (w3 := x) end.
    assert (Ht3 : tasks w3 = []) by done.
    assert (Hf3 : currentFilter w3 = Some (js "all")) by done.
    rewrite render_eq, (renders_nil P w3 Ht3).
    rewrite (view_markup_first_use w3 Ht3 Hf3).
    cbn [start_world world_of].
    split; [done|]. split; [done|]. split.
    { unfold getItem. cbn [localStorage updateStats set_stats
        set_tasksContainer]. subst w3.
      cbn [localStorage set_theme set_localStorage].
      by rewrite lookup_insert_ne. }
    split; [|done]. intros _.
    split; [done|]. split; [done|].
    unfold updateStats, calculateStats.
    cbn [statsEls clearCompletedBtn_disabled set_stats tasks
         set_tasksContainer].
    by rewrite Ht3.
  - cbn [start_world world_of].
    split; [done|]. split; [done|]. split.
    { unfold getItem. subst w2.
      cbn [localStorage log set_theme set_currentFilter set_tasks].
      by rewrite Hst. }
    split; [done|]. intros _. by subst w2.
Qed.

Lemma startup_without_usable_data_witness :
  let P := sample_platform true in
  tasksContainer (start_world (new_TaskManager P false blank_page))
  = EmptyState (js "No tasks yet. Add one to get started!")
  ∧ tasks (start_world (new_TaskManager P false
             (set_localStorage {[ "tasks" := js "[{" ]} blank_page))) = [].
Proof.
  cbv zeta. split.
  - apply (startup_without_usable_data (sample_platform true) false
             blank_page); [by left | reflexivity].
  - apply (startup_without_usable_data (sample_platform true) false
             (set_localStorage {[ "tasks" := js "[{" ]} blank_page)).
    right. exists (js "[{"). split; vm_compute; reflexivity.
Defined.

(** A storage without room: the constructor ends in [initDarkMode] and
    nothing is rendered. *)
Example startup_with_refused_theme :
  let s := new_TaskManager (sample_platform false) false blank_page in
  s = Started (Threw StorageError (start_world s))
  ∧ tasksContainer (start_world s) = EmptyState []
  ∧ clearCompletedBtn_disabled (start_world s) = false.
Proof. vm_compute. done. Qed.

(** ** The theme *)

Lemma theme_classes_dark dark w :
  bool_decide ("dark-mode" ∈ theme_classes dark w) = dark
  ∧ bool_decide ("light-mode" ∈ theme_classes dark w) = negb dark.
Proof.
  destruct dark; cbn [theme_classes negb]; split.
  - apply bool_decide_eq_true, elem_of_difference. split.
    + apply elem_of_union. left. by apply elem_of_singleton.
    + by intros ?%elem_of_singleton.
  - apply bool_decide_eq_false. intros [_ Hn]%elem_of_difference.
    by apply Hn, elem_of_singleton.
  - apply bool_decide_eq_false. intros [_ Hn]%elem_of_difference.
    by apply Hn, elem_of_singleton.
  - apply bool_decide_eq_true, elem_of_difference. split.
    + apply elem_of_union. left. by apply elem_of_singleton.
    + by intros ?%elem_of_singleton.
Qed.

Lemma theme_in_sync_ext dark w w' :
  rootClasses w = rootClasses w' → localStorage w = localStorage w' →
  darkModeToggle_title w = darkModeToggle_title w' →
  theme_in_sync dark w → theme_in_sync dark w'.
Proof.
  unfold theme_in_sync, getItem. by intros -> -> ->.
Qed.

(** A theme applied on a storage that takes it is the theme of the
    page. *)
Lemma apply_theme_in_sync P dark w :
  storage_accepts P (localStorage w) "theme" (theme_name dark) = true →
  theme_in_sync dark (world_of (apply_theme P dark w)).
Proof.
  intros Hacc. rewrite apply_theme_eq. cbv zeta. rewrite Hacc.
  destruct (theme_classes_dark dark w) as [Hd Hl].
  unfold theme_in_sync, getItem.
  cbn [world_of rootClasses localStorage darkModeToggle_title set_theme
       set_localStorage log].
  split; [done|]. split; [done|]. split; [apply lookup_insert_eq|].
  by destruct dark.
Qed.


(** A theme applied on a storage that refuses it: the classes change,
    the entry and the label stay. *)
Lemma apply_theme_refused P dark w :
  storage_accepts P (localStorage w) "theme" (theme_name dark) = false →
  let o := apply_theme P dark w in
  o = Threw StorageError (world_of o)
  ∧ rootClasses (world_of o) = theme_classes dark w
  ∧ getItem "theme" (world_of o) = getItem "theme" w
  ∧ darkModeToggle_title (world_of o) = darkModeToggle_title w.
Proof.
  intros Hacc. cbv zeta. rewrite apply_theme_eq. cbv zeta. by rewrite Hacc.
Qed.

(** The listeners of the task list leave the classes and the label. *)
Lemma dispatch_theme_frame P ev w :
  ev ≠ EvDarkModeToggle →
  rootClasses (world_of (dispatch P ev w)) = rootClasses w
  ∧ darkModeToggle_title (world_of (dispatch P ev w))
    = darkModeToggle_title w.
Proof.
  intros Hev.
  assert (Hsr : ∀ ts,
    rootClasses (world_of (render P (saveTasks P (set_tasks ts w))))
    = rootClasses w
    ∧ darkModeToggle_title
        (world_of (render P (saveTasks P (set_tasks ts w))))
      = darkModeToggle_title w).
  { intros ts.
    pose proof (render_frame P (saveTasks P (set_tasks ts w)))
      as (_ & _ & _ & _ & _ & _ & -> & -> & _).
    pose proof (saveTasks_frame P (set_tasks ts w))
      as (_ & _ & _ & _ & _ & _ & _ & _ & _ & -> & ->).
    done. }
  destruct ev as [v|now iso|i|i|c|f| |];
    rewrite ?dispatch_submit; cbn [dispatch]; cbv zeta.
  - done.
  - destruct (input_accepted_cases w) as [He|[Hl|[Hne Hlen]]].
    + by rewrite handleAddTask_rejects_empty.
    + by rewrite handleAddTask_rejects_long.
    + by pose proof (handleAddTask_fields P now iso w Hne Hlen)
        as (_ & _ & _ & _ & _ & -> & ->).
  - unfold handleToggleComplete.
    destruct (list_find _ (tasks w)) as [[j t]|]; [apply Hsr | done].
  - apply Hsr.
  - destruct (clearCompletedBtn_disabled w); [done|].
    destruct c; [apply Hsr | done].
  - unfold handleFilterChange.
    match goal with |- context [render P ?w0] =>
      pose proof (render_frame P w0)
        as (_ & _ & _ & _ & _ & _ & -> & -> & _) end.
    done.
  - done.
  - done.
Qed.

(** On a storage that takes every theme, the toggle turns the theme
    over and no other listener touches it. *)
Lemma dispatch_theme_in_sync P ev dark w :
  always_accepts P "theme" →
  theme_in_sync dark w →
  theme_in_sync (if decide (ev = EvDarkModeToggle) then negb dark else dark)
    (world_of (dispatch P ev w)).
Proof.
  intros Hacc Hw. destruct (decide (ev = EvDarkModeToggle)) as [->|Hev].
  - cbn [dispatch]. rewrite handleDarkModeToggle_eq.
    destruct Hw as (-> & _). by apply apply_theme_in_sync.
  - destruct (dispatch_theme_frame P ev w Hev) as [Hc Ht].
    destruct (dispatch_theme_untouched P ev w Hev) as [_ Hst].
    destruct Hw as (Hd & Hl & Hs & Htitle).
    unfold theme_in_sync, getItem in *. by rewrite Hc, Ht, Hst.
Qed.

Lemma toggle_count_cons ev evs :
  toggle_count (ev :: evs)
  = if decide (ev = EvDarkModeToggle) then S (toggle_count evs)
    else toggle_count evs.
Proof. unfold toggle_count. rewrite filter_cons. by case_decide. Qed.

Lemma run_theme_in_sync P evs : ∀ dark w,
  always_accepts P "theme" →
  theme_in_sync dark w →
  theme_in_sync (xorb dark (Nat.odd (toggle_count evs))) (run P evs w).
Proof.
  induction evs as [|ev evs IH]; intros dark w Hacc Hw.
  - by rewrite xorb_false_r.
  - rewrite run_cons.
    apply (dispatch_theme_in_sync P ev) in Hw; [|done].
    apply IH in Hw; [|done].
    rewrite toggle_count_cons. case_decide; [|done].
    rewrite Nat.odd_succ, <- Nat.negb_odd.
    by destruct dark, (Nat.odd (toggle_count evs)).
Qed.

(** The theme of the page the constructor leaves is the one
    [initDarkMode] leaves on the page as loaded. *)
Lemma start_theme_in_sync P prefersDark dark w :
  (∀ w0, localStorage w0 = localStorage w → rootClasses w0 = rootClasses w →
     darkModeToggle_title w0 = darkModeToggle_title w →
     theme_in_sync dark (world_of (initDarkMode P prefersDark w0))) →
  theme_in_sync dark (start_world (new_TaskManager P prefersDark w)).
Proof.
  intros Hinit.
  destruct (new_TaskManager_theme P prefersDark w)
    as (w0 & Hst & Hc & Ht & _ & Hst' & _ & Hc' & Ht').
  by eapply theme_in_sync_ext, (Hinit w0).
Qed.

(** X5: on a storage that takes every write under "theme", once the
    constructor has reached [attachEventListeners], the theme after a
    run of events is the one start-up settled on, turned over once per
    click on the toggle: the class of the root element, the entry under
    "theme" and the label of the toggle agree on it, and one and only
    one of the two classes is set.  When the storage refuses the write
    of a click, the handler ends with the exception: the class has
    changed, the entry and the label have not. *)
Theorem theme_after_run P prefersDark w0 evs :
  (always_accepts P "theme" →
   listening (new_TaskManager P prefersDark w0) →
   theme_in_sync
     (xorb (initial_dark prefersDark w0) (Nat.odd (toggle_count evs)))
     (run P evs (start_world (new_TaskManager P prefersDark w0))))
  ∧ (∀ w,
       let dark := negb (bool_decide ("dark-mode" ∈ rootClasses w)) in
       storage_accepts P (localStorage w) "theme" (theme_name dark) = false →
       let o := dispatch P EvDarkModeToggle w in
       o = Threw StorageError (world_of o)
       ∧ rootClasses (world_of o) = theme_classes dark w
       ∧ getItem "theme" (world_of o) = getItem "theme" w
       ∧ darkModeToggle_title (world_of o) = darkModeToggle_title w).
Proof.
  split.
  - intros Hacc _. apply run_theme_in_sync; [done|].
    apply start_theme_in_sync. intros w1 Hst _ _.
    rewrite initDarkMode_eq.
    replace (initial_dark prefersDark w0) with (initial_dark prefersDark w1)
      by (unfold initial_dark, getItem; by rewrite Hst).
    by apply apply_theme_in_sync.
  - intros w dark Hacc. cbn [dispatch]. rewrite handleDarkModeToggle_eq.
    by apply apply_theme_refused.
Qed.

Lemma theme_after_run_witness :
  let P := sample_platform true in
  let w := run P [EvDarkModeToggle; EvDelete 7; EvDarkModeToggle;
                  EvDarkModeToggle]
             (start_world (new_TaskManager P false blank_page)) in
  getItem "theme" w = Some (js "dark")
  ∧ darkModeToggle_title w = "Toggle light mode".
Proof.
  cbv zeta.
  destruct (proj1 (theme_after_run (sample_platform true) false blank_page
              [EvDarkModeToggle; EvDelete 7; EvDarkModeToggle;
               EvDarkModeToggle]) (λ _ _, eq_refl) I)
    as (_ & _ & Hst & Ht).
  split; [exact Hst | exact Ht].
Defined.



(** ** What the tasks keep *)

Lemma trimStart_idempotent s : trimStart (trimStart s) = trimStart s.
Proof.
  induction s as [|c s IH]; [done|]. cbn [trimStart].
  destruct (is_white_space c) eqn:Hc; [done|]. cbn [trimStart].
  by rewrite Hc.
Qed.

Lemma trimStart_snoc s c :
  trimStart (s ++ [c])
  = match trimStart s with
    | [] => if is_white_space c then [] else [c]
    | r => r ++ [c]
    end.
Proof.
  induction s as [|d s IH]; [done|]. cbn [app trimStart].
  by destruct (is_white_space d).
Qed.

(** [trimEnd] read from the front. *)
Lemma trimEnd_cons c s :
  trimEnd (c :: s)
  = match trimEnd s with
    | [] => if is_white_space c then [] else [c]
    | r => c :: r
    end.
Proof.
  unfold trimEnd. rewrite reverse_cons, trimStart_snoc.
  destruct (trimStart (reverse s)) as [|d r] eqn:Hr.
  - by destruct (is_white_space c).
  - rewrite reverse_app. simpl.
    destruct (reverse (d :: r)) eqn:Hrev; [|done].
    apply (f_equal length) in Hrev. rewrite length_reverse in Hrev. done.
Qed.

Lemma trimEnd_idempotent s : trimEnd (trimEnd s) = trimEnd s.
Proof.
  unfold trimEnd. by rewrite reverse_involutive, trimStart_idempotent.
Qed.

Lemma length_trimStart l : (length (trimStart l) ≤ length l)%nat.
Proof.
  induction l as [|d l IH]; cbn [trimStart length]; [lia|].
  destruct (is_white_space d); cbn [length]; lia.
Qed.

(** [trimEnd] leaves a text that does not start with white space
    without white space at its start. *)
Lemma trimStart_trimEnd s :
  trimStart s = s → trimStart (trimEnd s) = trimEnd s.
Proof.
  destruct s as [|c s]; [done|]. cbn [trimStart].
  destruct (is_white_space c) eqn:Hc.
  - intros Heq. apply (f_equal length) in Heq. cbn [length] in Heq.
    pose proof (length_trimStart s). lia.
  - intros _. rewrite trimEnd_cons.
    destruct (trimEnd s); rewrite ?Hc; cbn [trimStart]; by rewrite Hc.
Qed.

(** Trimming a trimmed text changes nothing. *)
Lemma trim_idempotent s : trim (trim s) = trim s.
Proof.
  unfold trim.
  rewrite (trimStart_trimEnd (trimStart s)) by apply trimStart_idempotent.
  apply trimEnd_idempotent.
Qed.

Lemma identity_elem_of (l l' : list Task) t' :
  (identity <$> l') `sublist_of` (identity <$> l) → t' ∈ l' →
  ∃ t, t ∈ l ∧ identity t' = identity t.
Proof.
  intros Hsub Hin.
  assert (Hid : identity t' ∈ identity <$> l).
  { eapply elem_of_sublist; [|exact Hsub].
    apply list_elem_of_fmap. by exists t'. }
  apply list_elem_of_fmap in Hid as (t & Heq & Ht). by exists t.
Qed.

Lemma dispatch_valid_texts P ev w :
  Forall (λ t, valid_text (text t)) (tasks w) →
  Forall (λ t, valid_text (text t)) (tasks (world_of (dispatch P ev w))).
Proof.
  intros Hw.
  destruct (dispatch_tasks_shape P ev w)
    as [[Hsub _]|(now & iso & _ & [Hne Hlen] & ->)].
  - apply Forall_forall. intros t' Hin.
    destruct (identity_elem_of _ _ t' Hsub Hin) as (t & Ht & Heq).
    rewrite Forall_forall in Hw. specialize (Hw t Ht).
    unfold identity in Heq. injection Heq as _ Htext _. by rewrite Htext.
  - constructor; [|done]. cbn [text].
    split; [done|]. split; [done|]. apply trim_idempotent.
Qed.

(** X7: every text in the array is one [handleAddTask] accepted: not
    empty, at most 200 code units long, and without white space at
    either end.  Whatever the run of events, an array that holds only
    such texts, the empty array for one, keeps holding only such
    texts. *)
Theorem texts_stay_valid P evs : ∀ w,
  Forall (λ t, valid_text (text t)) (tasks w) →
  Forall (λ t, valid_text (text t)) (tasks (run P evs w)).
Proof.
  induction evs as [|ev evs IH]; intros w Hw; [done|].
  rewrite run_cons. apply IH, dispatch_valid_texts, Hw.
Qed.

Lemma texts_stay_valid_witness :
  Forall (λ t, valid_text (text t))
    (tasks (run (sample_platform true)
              [EvInput (js "  Buy milk "); EvSubmit 1 (js "t1");
               EvInput (js "   "); EvSubmit 2 (js "t2");
               EvInput (replicate 201 97%N); EvSubmit 3 (js "t3");
               EvToggle 1]
              blank_page)).
Proof. apply texts_stay_valid. constructor. Defined.

(** X8: no listener edits or reorders the tasks.  After an event every
    task of the array is a task that was there before, with the id,
    the text and the creation time it had and in the order it had, or
    the event is an accepted submission and the array is the old one
    with the new task in front.  Only a click on a checkbox changes a
    [completed] field: after every other event the old tasks that are
    left are unchanged in all their fields. *)
Theorem tasks_are_never_edited P ev w :
  ((identity <$> tasks (world_of (dispatch P ev w)))
     `sublist_of` (identity <$> tasks w)
   ∨ ∃ now iso, ev = EvSubmit now iso
       ∧ tasks (world_of (dispatch P ev w))
         = mkTask now (trim (taskInput w)) false iso :: tasks w)
  ∧ ((∀ taskId, ev ≠ EvToggle taskId) →
     tasks (world_of (dispatch P ev w)) `sublist_of` tasks w
     ∨ ∃ t, tasks (world_of (dispatch P ev w)) = t :: tasks w).
Proof.
  split.
  - destruct (dispatch_tasks_shape P ev w)
      as [[? _]|(now & iso & ? & _ & ?)];
      [by left | right; by exists now, iso].
  - intros Hev. destruct ev as [v|now iso|i|i|c|f| |];
      rewrite ?dispatch_submit; cbn [dispatch]; cbv zeta.
    + by left.
    + destruct (input_accepted_cases w) as [He|[Hl|[Hne Hlen]]].
      * left. by rewrite handleAddTask_rejects_empty.
      * left. by rewrite handleAddTask_rejects_long.
      * right. eexists.
        by pose proof (handleAddTask_fields P now iso w Hne Hlen)
          as (-> & _).
    + by destruct (Hev i).
    + left. unfold handleDeleteTask. rewrite save_render_tasks.
      apply sublist_filter.
    + left. destruct (clearCompletedBtn_disabled w); [done|].
      destruct c; [|done]. unfold handleClearCompleted.
      rewrite save_render_tasks. apply sublist_filter.
    + left. unfold handleFilterChange. by rewrite render_tasks.
    + left. rewrite handleDarkModeToggle_eq.
      by pose proof (apply_theme_storage P
                       (negb (bool_decide ("dark-mode" ∈ rootClasses w))) w)
        as (_ & _ & _ & -> & _).
    + by left.
Qed.

Lemma tasks_are_never_edited_witness :
  let w' := world_of (dispatch (sample_platform true) (EvDelete 1700000000500)
                        (set_tasks [dog; eggs; milk] blank_page)) in
  tasks w' `sublist_of` [dog; eggs; milk]
  ∨ ∃ t, tasks w' = t :: [dog; eggs; milk].
Proof.
  apply (proj2 (tasks_are_never_edited (sample_platform true)
                  (EvDelete 1700000000500)
                  (set_tasks [dog; eggs; milk] blank_page))).
  discriminate.
Defined.

(** ** Views and counters together *)

Lemma pending_filter (l : list Task) :
  filter (λ t, completed t = false) l
  = filter (λ t, ¬ completed t = true) l.
Proof.
  apply list_filter_iff. intros t. by destruct (completed t).
Qed.

(** X9: the counters count the views.  [completed] is the length of
    the "completed" view and [remaining], computed as a difference, is
    the length of the "pending" view; the two views share no task and
    together hold the tasks of the array, each as often as the array
    does. *)
Theorem stats_count_the_views w :
  let done_view :=
    getFilteredTasks (set_currentFilter (Some (js "completed")) w) in
  let pending_view :=
    getFilteredTasks (set_currentFilter (Some (js "pending")) w) in
  Stats.completed (calculateStats w) = Z.of_nat (length done_view)
  ∧ Stats.remaining (calculateStats w) = Z.of_nat (length pending_view)
  ∧ done_view ++ pending_view ≡ₚ tasks w
  ∧ (∀ t, t ∈ done_view → t ∉ pending_view).
Proof.
  intros done_view pending_view.
  change done_view with (filter (λ t, completed t = true) (tasks w)).
  change pending_view with (filter (λ t, completed t = false) (tasks w)).
  split_and!.
  - done.
  - unfold calculateStats. simpl.
    rewrite (completed_split (tasks w)) at 1. lia.
  - rewrite pending_filter. apply filter_app_complement.
  - intros t [Hd _]%list_elem_of_filter [Hp _]%list_elem_of_filter.
    congruence.
Qed.

(** ** Toggling with distinct ids *)

Lemma NoDup_ids_split (l : list Task) i t :
  NoDup (id <$> l) → l !! i = Some t →
  l = take i l ++ t :: drop (S i) l ∧ (id t ∉ id <$> take i l).
Proof.
  intros Hnd Hi.
  assert (Hl : l = take i l ++ t :: drop (S i) l)
    by (symmetry; by apply take_drop_middle).
  split; [done|]. rewrite Hl, fmap_app, fmap_cons in Hnd.
  apply NoDup_app in Hnd as (_ & Hdisj & _).
  intros Hin. apply (Hdisj _ Hin). by left.
Qed.

Lemma completed_count_toggled (l1 l2 : list Task) t :
  Z.of_nat (length (filter (λ t, completed t = true)
                      (l1 ++ toggled t :: l2)))
  = Z.of_nat (length (filter (λ t, completed t = true) (l1 ++ t :: l2)))
    + (if completed t then -1 else 1).
Proof.
  rewrite !filter_app, !filter_cons, !length_app.
  destruct t as [i x [] d]; simpl; lia.
Qed.

(** X10: when the ids are pairwise distinct, a toggle by the id of a
    task changes that task and no other: the array is the old one with
    [completed] negated at the position of the task.  The total stays,
    and the count of completed tasks goes down by one if the task was
    completed and up by one if it was not. *)
Theorem toggle_addresses_its_task P w i t :
  NoDup (ids w) → tasks w !! i = Some t →
  let w' := world_of (handleToggleComplete P (id t) w) in
  tasks w' = <[i := toggled t]> (tasks w)
  ∧ Stats.total (calculateStats w') = Stats.total (calculateStats w)
  ∧ Stats.completed (calculateStats w')
    = Stats.completed (calculateStats w) + (if completed t then -1 else 1).
Proof.
  intros Hnd Hi w'.
  destruct (NoDup_ids_split (tasks w) i t Hnd Hi) as [Hl Hfresh].
  assert (Hins : <[i := toggled t]> (tasks w)
                 = take i (tasks w) ++ toggled t :: drop (S i) (tasks w)).
  { apply insert_take_drop. by eapply lookup_lt_Some. }
  set (l1 := take i (tasks w)) in *. set (l2 := drop (S i) (tasks w)) in *.
  assert (Hw' : tasks w' = l1 ++ toggled t :: l2).
  { subst w'.
    rewrite (handleToggleComplete_first P (id t) w l1 t l2 Hl Hfresh eq_refl).
    by rewrite save_render_tasks. }
  split_and!.
  - by rewrite Hw', Hins.
  - unfold calculateStats. cbn [Stats.total]. rewrite Hw', Hl.
    by rewrite !length_app.
  - unfold calculateStats. cbn [Stats.completed]. rewrite Hw', Hl.
    apply completed_count_toggled.
Qed.

Lemma toggle_addresses_its_task_witness :
  tasks (world_of (handleToggleComplete (sample_platform true) 1700000000000
           (set_tasks [dog; milk] blank_page)))
  = [dog; toggled milk].
Proof.
  refine (proj1 (toggle_addresses_its_task (sample_platform true)
                   (set_tasks [dog; milk] blank_page) 1 milk _ _)).
  - vm_compute. repeat constructor; compute_done.
  - reflexivity.
Defined.

(** ** Saving, then rendering *)

(** What the handlers that save and render leave on the page. *)
Lemma save_render_display P w ts :
  let o := render P (saveTasks P (set_tasks ts w)) in
  let w' := world_of o in
  tasksContainer w' = view_markup w'
  ∧ o = (if renders P w' then Returned undefined w' else Threw TypeError w')
  ∧ (renders P w' = true → stats_in_sync w')
  ∧ (renders P w' = false →
     statsEls w' = statsEls w
     ∧ clearCompletedBtn_disabled w' = clearCompletedBtn_disabled w).
Proof.
  cbv zeta. set (w0 := saveTasks P (set_tasks ts w)).
  destruct (render_display P w0) as [Hc _].
  pose proof (render_outcome P w0) as Ho. cbv zeta in Ho.
  pose proof (render_stats P w0) as Hs. cbv zeta in Hs.
  assert (Hr : renders P (world_of (render P w0)) = renders P w0)
    by (apply renders_ext; [apply render_tasks | apply render_currentFilter]).
  pose proof (saveTasks_frame P (set_tasks ts w))
    as (_ & _ & _ & _ & _ & _ & Hst & Hb & _). fold w0 in Hst, Hb.
  rewrite Hr in *.
  split; [done|]. split; [done|].
  destruct (renders P w0); split; try done.
  intros _. destruct Hs as [-> ->]. by rewrite Hst, Hb.
Qed.

(** ** Deleting *)

Lemma handleDeleteTask_tasks P taskId w :
  tasks (world_of (handleDeleteTask P taskId w))
  = filter (λ t, id t ≠ taskId) (tasks w).
Proof. unfold handleDeleteTask. by rewrite save_render_tasks. Qed.

Lemma filter_other_ids (l : list Task) taskId :
  taskId ∉ id <$> l → filter (λ t, id t ≠ taskId) l = l.
Proof.
  induction l as [|t l IH]; [done|]. intros Habs.
  rewrite fmap_cons, not_elem_of_cons in Habs. destruct Habs as [Hne Hl].
  rewrite filter_cons_True by done. by rewrite IH.
Qed.

(** X11: [handleDeleteTask] calls [saveTasks] and [render] in every
    case.  [setItem] is called with the serialisation of the array the
    handler leaves, also when no task has the id and the array is left
    as it is; the storage then holds that text, or has refused it and
    the exception is on the console.  [render] assigns the markup of
    the view to the container; when the listeners attach, the handler
    returns [undefined] with the counters and the clear button showing
    the array; when they do not, it ends with the [TypeError], counters
    and button as they were.  When the ids are pairwise distinct and
    some task has the id, exactly one task goes. *)
Theorem delete_always_saves P taskId w :
  let o := handleDeleteTask P taskId w in
  let w' := world_of o in
  save_called P w w'
  ∧ tasksContainer w' = view_markup w'
  ∧ o = (if renders P w' then Returned undefined w' else Threw TypeError w')
  ∧ (renders P w' = true → stats_in_sync w')
  ∧ (renders P w' = false →
     statsEls w' = statsEls w
     ∧ clearCompletedBtn_disabled w' = clearCompletedBtn_disabled w)
  ∧ (taskId ∉ ids w → tasks w' = tasks w)
  ∧ (NoDup (ids w) → taskId ∈ ids w →
     length (tasks w) = S (length (tasks w'))).
Proof.
  intros o w'.
  pose proof (handleDeleteTask_tasks P taskId w) as Ht. fold o w' in Ht.
  destruct (save_render_display P w (filter (λ t, id t ≠ taskId) (tasks w)))
    as (Hc & Ho & Hs & Hn).
  split; [apply save_render_called|].
  split; [exact Hc|]. split; [exact Ho|]. split; [exact Hs|].
  split; [exact Hn|]. split.
  - intros Habs. rewrite Ht. by apply filter_other_ids.
  - intros Hnd Hin. rewrite Ht. unfold ids in *. clear Ht Hc Ho Hs Hn o w'.
    apply split_at_first_id in Hin as (l1 & t & l2 & Hl & Hl1 & Hid).
    rewrite Hl in Hnd |- *. rewrite fmap_app, fmap_cons in Hnd.
    apply NoDup_app in Hnd as (_ & _ & Hnd2).
    apply NoDup_cons in Hnd2 as [Hl2 _]. rewrite Hid in Hl2.
    rewrite filter_app, filter_cons_False by (intros Hne; by apply Hne).
    rewrite (filter_other_ids l1 taskId Hl1), (filter_other_ids l2 taskId Hl2).
    rewrite !length_app. simpl. lia.
Qed.

Lemma delete_always_saves_witness :
  let P := sample_platform true in
  tasks (world_of (handleDeleteTask P 7 (set_tasks [dog; milk] blank_page)))
  = [dog; milk]
  ∧ length [dog; milk]
    = S (length (tasks (world_of (handleDeleteTask P 1700000000500
                                    (set_tasks [dog; milk] blank_page))))).
Proof.
  cbv zeta. split.
  - apply (delete_always_saves (sample_platform true) 7
             (set_tasks [dog; milk] blank_page)).
    compute_done.
  - apply (delete_always_saves (sample_platform true) 1700000000500
             (set_tasks [dog; milk] blank_page)).
    + vm_compute. repeat constructor; compute_done.
    + compute_done.
Defined.

(** X12: deleting the same id twice leaves the array the first deletion
    left, and two deletions give the same array in either order. *)
Theorem delete_idempotent_and_commutes P a b w :
  tasks (world_of (handleDeleteTask P a (world_of (handleDeleteTask P a w))))
  = tasks (world_of (handleDeleteTask P a w))
  ∧ tasks (world_of (handleDeleteTask P a
                       (world_of (handleDeleteTask P b w))))
    = tasks (world_of (handleDeleteTask P b
                         (world_of (handleDeleteTask P a w)))).
Proof.
  rewrite !handleDeleteTask_tasks, !list_filter_filter. split.
  - apply list_filter_iff. tauto.
  - apply list_filter_iff. tauto.
Qed.

(** X13: deleting by the id of the task just added undoes the addition
    only when no older task has that id: the deletion removes every
    task with the id, so the older tasks that share the clock reading
    of the new one are lost with it. *)
Theorem add_then_delete P now iso w :
  trim (taskInput w) ≠ [] → (length (trim (taskInput w)) ≤ 200)%nat →
  let w' := world_of (handleDeleteTask P now
                        (world_of (handleAddTask P now iso w))) in
  tasks w' = filter (λ t, id t ≠ now) (tasks w)
  ∧ (now ∉ ids w → tasks w' = tasks w)
  ∧ (now ∈ ids w → (length (tasks w') < length (tasks w))%nat).
Proof.
  intros Hne Hlen w'.
  assert (Ht : tasks w' = filter (λ t, id t ≠ now) (tasks w)).
  { subst w'. rewrite handleDeleteTask_tasks.
    pose proof (handleAddTask_fields P now iso w Hne Hlen) as (-> & _).
    by rewrite filter_cons_False by (intros Hn; by apply Hn). }
  split_and!; [done | |].
  - intros Habs. rewrite Ht. by apply filter_other_ids.
  - intros (t & Hid & Hin)%list_elem_of_fmap. rewrite Ht.
    apply (length_filter_lt _ _ t); [done|]. intros Hn. by apply Hn.
Qed.

Lemma add_then_delete_witness :
  let P := sample_platform true in
  tasks (world_of (handleDeleteTask P 1700000000000
           (world_of (handleAddTask P 1700000000000 []
              (set_taskInput (js "Buy eggs")
                 (set_tasks [dog; milk] blank_page))))))
  = [dog].
Proof.
  refine (proj1 (add_then_delete (sample_platform true) 1700000000000 []
            (set_taskInput (js "Buy eggs") (set_tasks [dog; milk] blank_page))
            _ _)).
  - vm_compute. discriminate.
  - vm_compute. lia.
Defined.

(** ** Clearing, once more *)

Lemma handleClearCompleted_tasks P w :
  tasks (world_of (handleClearCompleted P true w))
  = filter (λ t, completed t = false) (tasks w).
Proof. unfold handleClearCompleted. by rewrite save_render_tasks. Qed.

Lemma filter_completed_of_pending (l : list Task) :
  filter (λ t, completed t = true) (filter (λ t, completed t = false) l) = [].
Proof.
  rewrite list_filter_filter. induction l as [|t l IH]; [done|].
  rewrite filter_cons_False; [done|]. intros [? ?]. congruence.
Qed.

(** X14: after a confirmed clear no task is completed: the count of
    completed tasks is zero and the "completed" view is empty.  The
    "pending" view is what it was, the total is the former
    [remaining], and a second clear changes nothing in the array.  The
    clear button is disabled when [render] has returned; when [render]
    has thrown, the button is as it was before the click, so that it
    can stay enabled with no completed task left. *)
Theorem clear_leaves_only_pending P w :
  let o := handleClearCompleted P true w in
  let w' := world_of o in
  Stats.completed (calculateStats w') = 0
  ∧ getFilteredTasks (set_currentFilter (Some (js "completed")) w') = []
  ∧ (renders P w' = true →
     o = Returned undefined w' ∧ clearCompletedBtn_disabled w' = true
     ∧ statsEls w' = calculateStats w')
  ∧ (renders P w' = false →
     o = Threw TypeError w'
     ∧ clearCompletedBtn_disabled w' = clearCompletedBtn_disabled w
     ∧ statsEls w' = statsEls w)
  ∧ getFilteredTasks (set_currentFilter (Some (js "pending")) w')
    = getFilteredTasks (set_currentFilter (Some (js "pending")) w)
  ∧ Stats.total (calculateStats w') = Stats.remaining (calculateStats w)
  ∧ tasks (world_of (handleClearCompleted P true w')) = tasks w'.
Proof.
  intros o w'.
  pose proof (handleClearCompleted_tasks P w) as Ht. fold o w' in Ht.
  assert (Hnone : filter (λ t, completed t = true) (tasks w') = []).
  { rewrite Ht. apply filter_completed_of_pending. }
  assert (Hidem : filter (λ t, completed t = false) (tasks w') = tasks w').
  { rewrite Ht, list_filter_filter. apply list_filter_iff. tauto. }
  destruct (save_render_display P w
              (filter (λ t, completed t = false) (tasks w)))
    as (_ & Ho & Hs & Hn).
  change (render P _) with o in Ho, Hs, Hn. fold w' in Ho, Hs, Hn.
  split_and!.
  - unfold calculateStats. cbn [Stats.completed]. by rewrite Hnone.
  - exact Hnone.
  - intros Hr. rewrite Hr in Ho. destruct (Hs Hr) as [Hst Hb].
    split; [done|]. split; [|done]. rewrite Hb, Hnone. done.
  - intros Hr. rewrite Hr in Ho. destruct (Hn Hr) as [Hst Hb]. done.
  - change (filter (λ t, completed t = false) (tasks w')
            = filter (λ t, completed t = false) (tasks w)).
    rewrite Hidem. exact Ht.
  - unfold calculateStats. cbn [Stats.total Stats.remaining]. rewrite Ht.
    pose proof (completed_split (tasks w)). lia.
  - by rewrite handleClearCompleted_tasks.
Qed.

(** The clear button left enabled with nothing to clear: a task is
    added and ticked, a second one with [markup_text] is added, and the
    completed task is cleared.  The [render] of the clear throws on the
    task that is left, before [updateStats]; a second click reaches
    the handler and writes the array again with nothing removed. *)
Example clear_button_left_enabled :
  let P := sample_platform true in
  let w := run P [EvInput (js "Buy milk"); EvSubmit 1 (js "t1"); EvToggle 1;
                  EvInput markup_text; EvSubmit 2 (js "t2");
                  EvClearCompleted true]
             (world_of (init P false
                (set_currentFilter (Some (js "all")) blank_page))) in
  let w' := world_of (dispatch P (EvClearCompleted true) w) in
  filter (λ t, completed t = true) (tasks w) = []
  ∧ clearCompletedBtn_disabled w = false
  ∧ tasks w' = tasks w
  ∧ length (writes_to "tasks" (trace w'))
    = S (length (writes_to "tasks" (trace w))).
Proof. vm_compute. done. Qed.

(** ** Changing the filter *)

(** X15: a change of filter is a change of view only: the array, the
    storage and the log of outside calls stay as they are; the filter
    is the one asked for, the markup assigned to the container is the
    one [renderTasks] builds for its view, and a filter button is
    pressed exactly when its filter is the one asked for.  The handler
    returns [undefined] when the listeners attach to that markup and
    ends with the [TypeError] when they do not. *)
Theorem filter_change_only_changes_the_view P f w :
  let o := handleFilterChange P f w in
  let w' := world_of o in
  tasks w' = tasks w
  ∧ localStorage w' = localStorage w
  ∧ trace w' = trace w
  ∧ currentFilter w' = f
  ∧ tasksContainer w' = view_markup (set_currentFilter f w)
  ∧ o = (if renders P (set_currentFilter f w) then Returned undefined w'
         else Threw TypeError w')
  ∧ filterButtons w'
    = (λ btn, (btn.1, bool_decide (btn.1 = f))) <$> filterButtons w.
Proof.
  intros o w'. subst o w'. unfold handleFilterChange.
  match goal with |- context [render P ?x] => set (w1 := x) end.
  pose proof (render_frame P w1)
    as (Ht & Hf & _ & _ & _ & Hbtn & _ & _ & Hst & Htr).
  pose proof (render_outcome P w1) as Ho. cbv zeta in Ho.
  assert (Hr : renders P (world_of (render P w1))
               = renders P (set_currentFilter f w))
    by (by apply renders_ext).
  rewrite Hr in Ho.
  split_and!; try done.
  rewrite render_tasksContainer. by apply view_markup_ext.
Qed.

Lemma filter_change_witness :
  let P := sample_platform true in
  let w := set_tasks [dog; milk] blank_page in
  tasksContainer (world_of (handleFilterChange P (Some (js "completed")) w))
  = TaskItems [dog].
Proof.
  cbv zeta.
  destruct (filter_change_only_changes_the_view (sample_platform true)
              (Some (js "completed")) (set_tasks [dog; milk] blank_page))
    as (_ & _ & _ & _ & Hc & _).
  rewrite Hc. vm_compute. reflexivity.
Defined.

(** ** The error notice *)

Lemma notice_in_sync_ext w w' :
  taskInput w = taskInput w' → errorMessage w = errorMessage w' →
  errorMessage_show w = errorMessage_show w' →
  notice_in_sync w → notice_in_sync w'.
Proof. unfold notice_in_sync. by intros -> -> ->. Qed.

Lemma render_notice_in_sync P w :
  notice_in_sync w → notice_in_sync (world_of (render P w)).
Proof.
  pose proof (render_frame P w) as (_ & _ & Hi & He & Hs & _).
  by apply notice_in_sync_ext.
Qed.

Lemma save_render_notice_in_sync P w ts :
  notice_in_sync w →
  notice_in_sync (world_of (render P (saveTasks P (set_tasks ts w)))).
Proof.
  intros Hw. apply render_notice_in_sync.
  pose proof (saveTasks_frame P (set_tasks ts w))
    as (_ & _ & Hi & He & Hs & _).
  by eapply notice_in_sync_ext; [symmetry.. | exact Hw].
Qed.

(** What an accepted submission leaves of the input and the notice. *)
Lemma handleAddTask_notice P now iso w :
  input_accepted w →
  let w' := world_of (handleAddTask P now iso w) in
  errorMessage w' = errorMessage w
  ∧ errorMessage_show w' = errorMessage_show w
  ∧ (taskInput w' = [] ∨ taskInput w' = taskInput w).
Proof.
  intros [Hne Hlen].
  pose proof (handleAddTask_fields P now iso w Hne Hlen)
    as (_ & _ & _ & He & Hs & _).
  split; [done|]. split; [done|].
  rewrite handleAddTask_world by done. cbv zeta.
  match goal with |- context [render P ?x] =>
    pose proof (render_frame P x) as (_ & _ & Hi & _);
    pose proof (saveTasks_frame P
      (set_tasks (mkTask now (trim (taskInput w)) false iso :: tasks w) w))
      as (_ & _ & Hi' & _)
  end.
  destruct (renders P _); cbn [world_of]; [by left | right].
  by rewrite Hi, Hi'.
Qed.

Lemma dispatch_notice_in_sync P ev w :
  notice_in_sync w → notice_in_sync (world_of (dispatch P ev w)).
Proof.
  intros Hw. destruct ev as [v|now iso|i|i|c|f| |];
    rewrite ?dispatch_submit; cbn [dispatch]; cbv zeta.
  - done.
  - destruct (input_accepted_cases w) as [He|[Hl|Hacc]].
    + rewrite handleAddTask_rejects_empty by done.
      unfold notice_in_sync. cbn. by left.
    + rewrite handleAddTask_rejects_long by done.
      unfold notice_in_sync. cbn. by right.
    + destruct (handleAddTask_notice P now iso w Hacc) as (He & Hs & Hi).
      destruct Hacc as [Hne Hlen].
      unfold notice_in_sync in *. rewrite He, Hs.
      destruct (errorMessage_show w); [|done].
      destruct Hw as [[? _]|[? _]]; [done | lia].
  - unfold handleToggleComplete.
    destruct (list_find _ (tasks w)) as [[j t]|]; [|done].
    by apply save_render_notice_in_sync.
  - by apply save_render_notice_in_sync.
  - destruct (clearCompletedBtn_disabled w); [done|].
    destruct c; [|done]. by apply save_render_notice_in_sync.
  - unfold handleFilterChange. by apply render_notice_in_sync.
  - rewrite handleDarkModeToggle_eq.
    pose proof (apply_theme_storage P
                  (negb (bool_decide ("dark-mode" ∈ rootClasses w))) w)
      as (_ & _ & _ & _ & _ & Hi & He & Hs & _).
    by eapply notice_in_sync_ext; [symmetry.. | exact Hw].
  - done.
Qed.

Lemma run_notice_in_sync P evs : ∀ w,
  notice_in_sync w → notice_in_sync (run P evs w).
Proof.
  induction evs as [|ev evs IH]; intros w Hw; [done|].
  rewrite run_cons. apply IH, dispatch_notice_in_sync, Hw.
Qed.

(** X16: the notice on display is always the one for the text in the
    input.  From a page without a notice, after every run of events,
    a notice is shown only while the input still holds the text that
    was rejected, with the message for its defect; when no notice is
    shown the error element is empty.  So a submission that is
    accepted leaves no notice on display. *)
Theorem notice_describes_input P evs w :
  notice_in_sync w →
  let w' := run P evs w in
  notice_in_sync w'
  ∧ (∀ now iso,
       trim (taskInput w') ≠ [] →
       (length (trim (taskInput w')) ≤ 200)%nat →
       errorMessage_show (world_of (dispatch P (EvSubmit now iso) w')) = false
       ∧ errorMessage (world_of (dispatch P (EvSubmit now iso) w')) = "").
Proof.
  intros Hw w'.
  assert (Hw' : notice_in_sync w') by by apply run_notice_in_sync.
  split; [done|]. intros now iso Hne Hlen.
  rewrite dispatch_submit.
  destruct (handleAddTask_notice P now iso w' (conj Hne Hlen))
    as (-> & -> & _).
  unfold notice_in_sync in Hw'.
  destruct (errorMessage_show w'); [|done].
  destruct Hw' as [[? _]|[? _]]; [done | lia].
Qed.

Lemma notice_describes_input_witness :
  let P := sample_platform true in
  errorMessage_show
    (world_of (dispatch P (EvSubmit 3 (js "t3"))
       (run P [EvInput (js "   "); EvSubmit 1 (js "t1"); EvFilter None;
               EvInput (js "Buy milk")]
          blank_page)))
  = false.
Proof.
  refine (proj1 (proj2 (notice_describes_input (sample_platform true)
            [EvInput (js "   "); EvSubmit 1 (js "t1"); EvFilter None;
             EvInput (js "Buy milk")] blank_page _) 3 (js "t3") _ _)).
  - reflexivity.
  - vm_compute. discriminate.
  - vm_compute. lia.
Defined.

(** ** Markup *)

Lemma escape_char_no_bracket c x :
  x ∈ escape_char c → x ≠ 60%N ∧ x ≠ 62%N.
Proof.
  unfold escape_char.
  repeat match goal with
  | |- context [if (c =? ?k)%N then _ else _] =>
      destruct (N.eqb_spec c k) as [->|?];
        [intros Hx; apply list_elem_of_In in Hx; simpl in Hx;
         intuition (subst; discriminate)|]
  end.
  intros ->%list_elem_of_singleton. done.
Qed.

Lemma unescapeHtml_escape_char c s :
  unescapeHtml (escape_char c ++ s) = c :: unescapeHtml s.
Proof.
  unfold escape_char.
  repeat match goal with
  | |- context [if (c =? ?k)%N then _ else _] =>
      destruct (N.eqb_spec c k) as [->|?]; [done|]
  end.
  cbn [app unescapeHtml]. by rewrite (proj2 (N.eqb_neq c 38)).
Qed.

(** X17: the text [escapeHtml] returns holds neither of the two angle
    brackets, so that no tag starts or ends in it, and decoding its
    four character references gives the text back: a task is shown
    with the text it has. *)
Theorem escapeHtml_no_markup text :
  (60%N ∉ escapeHtml text)
  ∧ (62%N ∉ escapeHtml text)
  ∧ unescapeHtml (escapeHtml text) = text.
Proof.
  split_and!.
  - intros (c & Hx & _)%list_elem_of_bind.
    by destruct (escape_char_no_bracket c _ Hx).
  - intros (c & Hx & _)%list_elem_of_bind.
    by destruct (escape_char_no_bracket c _ Hx).
  - induction text as [|c text IH]; [done|].
    change (escapeHtml (c :: text)) with (escape_char c ++ escapeHtml text).
    by rewrite unescapeHtml_escape_char, IH.
Qed.

(** ** The id of an item *)

Lemma digit_not_special c :
  is_Some (digit_of c) →
  is_white_space c = false
  ∧ c ≠ 45%N ∧ c ≠ 43%N ∧ c ≠ 120%N ∧ c ≠ 88%N.
Proof.
  unfold digit_of.
  repeat match goal with
  | |- context [if (c =? ?k)%N then _ else _] =>
      destruct (N.eqb_spec c k) as [->|?]; [done|]
  end.
  by intros [? ?].
Qed.

(** A printed number that is not [Nil]: a digit, then a digit or the
    end. *)
Lemma string_of_uint_shape d :
  d ≠ Decimal.Nil →
  ∃ c s, js (NilEmpty.string_of_uint d) = c :: s
    ∧ is_Some (digit_of c)
    ∧ match s with x :: _ => is_Some (digit_of x) | [] => True end.
Proof.
  intros Hd. destruct d as [|d|d|d|d|d|d|d|d|d|d]; [done | ..];
    destruct d; by eexists _, _.
Qed.

Lemma parse_digits_string_of_uint sign d :
  d ≠ Decimal.Nil →
  parse_digits sign (js (NilEmpty.string_of_uint d))
  = to_number sign (Z.of_uint d).
Proof.
  intros Hd.
  pose proof (read_uint_string_of_uint d [] eq_refl) as Hread.
  rewrite app_nil_r in Hread.
  destruct (string_of_uint_shape d Hd) as (c & s & Hjs & Hc & Hs).
  rewrite Hjs in Hread |- *. unfold parse_digits.
  destruct s as [|x s].
  - rewrite Hread. by destruct d.
  - destruct (digit_not_special x Hs) as (_ & _ & _ & H120 & H88).
    apply N.eqb_neq in H120, H88. rewrite H120, H88, andb_false_r.
    rewrite Hread. by destruct d.
Qed.

Lemma parseInt_decimal z :
  parseInt (decimal z) = to_number (Z.sgn z + (if decide (z = 0) then 1 else 0))
                           (Z.abs z).
Proof.
  unfold decimal.
  destruct z as [|p|p]; [done | |].
  - pose proof (DecimalPos.Unsigned.to_uint_nonnil p) as Hd.
    unfold Z.to_int, NilZero.string_of_int.
    rewrite (string_of_uint_nonnil _ Hd).
    pose proof (parse_digits_string_of_uint 1 _ Hd) as Hparse.
    destruct (string_of_uint_shape _ Hd) as (c & s & Hjs & Hc & _).
    rewrite Hjs in Hparse |- *.
    destruct (digit_not_special c Hc) as (Hws & H45 & H43 & _).
    unfold parseInt. cbn [trimStart]. rewrite Hws.
    apply N.eqb_neq in H45, H43. rewrite H45, H43, Hparse.
    unfold Z.of_uint. rewrite DecimalPos.Unsigned.of_to. done.
  - pose proof (DecimalPos.Unsigned.to_uint_nonnil p) as Hd.
    unfold Z.to_int, NilZero.string_of_int.
    rewrite (string_of_uint_nonnil _ Hd).
    rewrite js_String. change (N_of_ascii "-") with 45%N.
    unfold parseInt. cbn [trimStart].
    change (is_white_space 45) with false. cbv iota.
    rewrite N.eqb_refl.
    rewrite (parse_digits_string_of_uint (-1) _ Hd).
    unfold Z.of_uint. rewrite DecimalPos.Unsigned.of_to. done.
Qed.

(** X18: for a task whose id is a safe integer, [parseInt] reads the id
    back from the value of [data-task-id] that [createTaskElement]
    writes, the decimal digits of the id. *)
Theorem parseInt_data_task_id P t :
  safe_integer (id t) → parseInt (data_task_id P t) = Int (id t).
Proof.
  intros Hsafe. unfold data_task_id, Number_toString.
  rewrite decide_True by done. rewrite parseInt_decimal.
  unfold to_number. unfold safe_integer in Hsafe.
  rewrite decide_True by lia. f_equal. case_decide; lia.
Qed.

Lemma parseInt_data_task_id_witness :
  parseInt (data_task_id (sample_platform true) milk) = Int 1700000000000
  ∧ parseInt (data_task_id (sample_platform true) odd) = Int (-42).
Proof.
  split.
  - apply (parseInt_data_task_id (sample_platform true) milk).
    unfold safe_integer. cbn [id milk]. lia.
  - apply (parseInt_data_task_id (sample_platform true) odd).
    unfold safe_integer. cbn [id odd]. lia.
Defined.

(** Beyond the safe integers [parseInt] does not give the integer
    written: for 2^53 + 1 it gives the nearest Number. *)
Example parseInt_beyond_safe :
  parseInt (decimal 9007199254740993) = Nearest
  ∧ parseInt (decimal 9007199254740992) = Int 9007199254740992
  ∧ parseInt (js "  -0x1F") = Int (-31)
  ∧ parseInt (js "12px") = Int 12
  ∧ parseInt (js "px") = NaN.
Proof. vm_compute. done. Qed.

(** ** Trimming *)

Lemma trimStart_split s :
  ∃ pre, s = pre ++ trimStart s
    ∧ Forall (λ c, is_white_space c = true) pre
    ∧ (∀ c, head (trimStart s) = Some c → is_white_space c = false).
Proof.
  induction s as [|c s (pre & Hs & Hpre & Hhead)].
  - exists []. split_and!; [done | constructor | done].
  - cbn [trimStart]. destruct (is_white_space c) eqn:Hc.
    + exists (c :: pre). split_and!; [by rewrite Hs at 1 | by constructor | done].
    + exists []. split_and!; [done | constructor |].
      by intros ? [= <-].
Qed.

(** X19: [trim] takes white space, and nothing else, from both ends:
    the text is the trimmed text between two runs of white space, and
    the trimmed text neither starts nor ends with white space.  What
    [handleAddTask] stores is therefore the text typed without the
    white space around it. *)
Theorem trim_strips_both_ends s :
  ∃ pre post, s = pre ++ trim s ++ post
    ∧ Forall (λ c, is_white_space c = true) pre
    ∧ Forall (λ c, is_white_space c = true) post
    ∧ (∀ c, head (trim s) = Some c → is_white_space c = false)
    ∧ (∀ c, last (trim s) = Some c → is_white_space c = false).
Proof.
  destruct (trimStart_split s) as (pre & Hs & Hpre & Hhead).
  destruct (trimStart_split (reverse (trimStart s)))
    as (post & Hr & Hpost & Hlast).
  exists pre, (reverse post). unfold trim.
  assert (Hu : trimStart s = trimEnd (trimStart s) ++ reverse post).
  { unfold trimEnd. rewrite <- reverse_app, <- Hr.
    by rewrite reverse_involutive. }
  split_and!.
  - by rewrite <- Hu.
  - done.
  - by apply Forall_reverse.
  - intros c Hc.
    pose proof (trimStart_trimEnd (trimStart s) (trimStart_idempotent s))
      as Hfix.
    destruct (trimEnd (trimStart s)) as [|d r]; [done|].
    injection Hc as ->. cbn [trimStart] in Hfix.
    destruct (is_white_space c) eqn:Hws; [|done].
    apply (f_equal length) in Hfix. cbn [length] in Hfix.
    pose proof (length_trimStart r). lia.
  - intros c. unfold trimEnd. rewrite last_reverse. apply Hlast.
Qed.

(** ** Where the tasks come from *)

Lemma run_provenance P evs : ∀ w t,
  t ∈ tasks (run P evs w) →
  (∃ t0, t0 ∈ tasks w ∧ identity t0 = identity t)
  ∨ ∃ iso, EvSubmit (id t) iso ∈ evs ∧ createdAt t = iso.
Proof.
  induction evs as [|ev evs IH]; intros w t Hin.
  - left. by exists t.
  - rewrite run_cons in Hin.
    destruct (IH _ _ Hin) as [(t1 & Ht1 & Heq)|(iso & Hev & Hiso)].
    + destruct (dispatch_tasks_shape P ev w)
        as [[Hsub _]|(now & iso & -> & _ & Htasks)].
      * destruct (identity_elem_of _ _ t1 Hsub Ht1) as (t0 & Ht0 & Heq0).
        left. exists t0. split; [done|]. congruence.
      * rewrite Htasks in Ht1. apply elem_of_cons in Ht1 as [->|Ht1].
        -- right. exists iso. unfold identity in Heq.
           injection Heq as Hid _ Hc. cbn in Hid, Hc. subst.
           split; [|done]. apply elem_of_cons. by left.
        -- left. by exists t1.
    + right. exists iso. split; [|done]. apply elem_of_cons. by right.
Qed.

(** X20: every task comes from a submission.  Starting from the empty
    array, each task of the array after a run of events carries as id
    the clock reading, and as creation time the time stamp, of one
    submission of that run. *)
Theorem every_task_was_submitted P evs w t :
  tasks w = [] → t ∈ tasks (run P evs w) →
  EvSubmit (id t) (createdAt t) ∈ evs.
Proof.
  intros Hempty Hin.
  destruct (run_provenance P evs w t Hin) as [(t0 & Ht0 & _)|(iso & Hev & <-)].
  - rewrite Hempty in Ht0. by apply elem_of_nil in Ht0.
  - done.
Qed.

Lemma every_task_was_submitted_witness :
  EvSubmit 1 (js "t1")
  ∈ [EvInput (js "Buy milk"); EvSubmit 1 (js "t1"); EvToggle 1].
Proof.
  apply (every_task_was_submitted (sample_platform true)
           [EvInput (js "Buy milk"); EvSubmit 1 (js "t1"); EvToggle 1]
           blank_page (mkTask 1 (js "Buy milk") true (js "t1"))).
  - reflexivity.
  - vm_compute. apply elem_of_cons. by left.
Defined.
